(** * Coroutine: fibers, the N:M scheduler and the IO manager

    A shallow embedding of the C++ sources

      - [m_cor.h], [m_cor.cpp]         (class [Cor], the fiber)
      - [scheduler.h], [scheduler.cpp] (class [Scheduler]; the latter is
                                        the second half of
                                        [simple_cor_scheduler.cpp])
      - [iomanager.cpp]                (class [IOManager])
      - [simple_cor_scheduler.cpp], first half (the single-threaded
                                        scheduler and its [main])

    Objects that the C++ code reaches through pointers live in finite maps
    indexed by address, integers are [Z] with the wrap-around of their C++
    type written out, and every member function becomes a function from
    the state before the call to an [outcome]. *)

From Stdlib Require Import ZArith Lia List Bool.
From stdpp Require Import base option list gmap strings pretty.

Local Open Scope Z_scope.

(** ** Outcomes of a call

    A call either returns, or stops the process on a failed assertion or an
    uncaught exception, or runs into behaviour that C++ leaves undefined
    (a null or dangling pointer, an index past the end of a vector). *)

Inductive outcome (A : Type) : Type :=
| Ret (a : A)
| Abort
| Undefined.
Arguments Ret {A} a.
Arguments Abort {A}.
Arguments Undefined {A}.

#[global] Instance outcome_ret : MRet outcome := fun A a => Ret a.
#[global] Instance outcome_bind : MBind outcome := fun A B k m =>
  match m with
  | Ret a => k a
  | Abort => Abort
  | Undefined => Undefined
  end.

(** Modelled from the spec: [EVENT_ASSERT] and [EVENT_ASSERT2] are macros of
    [macro.h], which is not among the sources.  The spec states that a
    violated precondition makes the core abort after logging. *)
Definition EVENT_ASSERT (b : bool) : outcome unit :=
  if b then Ret tt else Abort.

(** Addresses of heap objects ([Cor*], [Cor::ptr], [Scheduler*]); a null
    pointer is [None]. *)
Definition addr : Type := nat.

(** The truth value of a handle or of a function object in a condition. *)
Definition nonnull {A : Type} (o : option A) : bool :=
  match o with Some _ => true | None => false end.

(** Wrap-around of [uint64_t] / [size_t] and of [uint32_t]. *)
Definition wrap64 (z : Z) : Z := z mod 2 ^ 64.
Definition wrap32 (z : Z) : Z := z mod 2 ^ 32.

(** Conversion of an integer value to [int]. *)
Definition to_int (z : Z) : Z := (z + 2 ^ 31) mod 2 ^ 32 - 2 ^ 31.

(** Function objects ([std::function<void()>]).  The two members that the
    scheduler binds itself are told apart from user code, which is only
    known by a label; an empty function object is [None]. *)
Inductive Callback : Type :=
| cb_user (label : nat)
| cb_idle (sched : addr)   (* std::bind(&Scheduler::idle, this) *)
| cb_run  (sched : addr).  (* std::bind(&Scheduler::run, this)  *)

#[global] Instance Callback_eq_dec : EqDecision Callback.
Proof. solve_decision. Defined.

(** ** m_cor.h, m_cor.cpp *)

Module Cor.

(** [enum State]. *)
Inductive State : Type := READY | RUNNING | TERM.

#[global] Instance State_eq_dec : EqDecision State.
Proof. solve_decision. Defined.

(** Places where a context is stored by [getcontext] or by the saving
    half of [swapcontext]. *)
Inductive site : Type := in_main_ctor | in_resume | in_yield.

(** What a [ucontext_t] holds.  [uc_made sp size] is the result of the
    sequence [getcontext; uc_link = nullptr; uc_stack.ss_sp = sp;
    uc_stack.ss_size = size; makecontext(&m_ctx, &Cor::MainFunc, 0)]:
    activating it starts [Cor::MainFunc] on that stack. *)
Inductive ucontext : Type :=
| uc_blank
| uc_saved (s : site)
| uc_made (ss_sp : Z) (ss_size : Z).

#[global] Instance site_eq_dec : EqDecision site.
Proof. solve_decision. Defined.
#[global] Instance ucontext_eq_dec : EqDecision ucontext.
Proof. solve_decision. Defined.

(** The data members of [class Cor], with the default member
    initialisers of [m_cor.h].  [m_stack] is a raw address, [0] for
    [nullptr]. *)
Record t : Type := mk {
  m_id : Z;
  m_stacksize : Z;
  m_state : State;
  m_ctx : ucontext;
  m_stack : Z;
  m_cb : option Callback
}.

Definition default : t :=
  {| m_id := 0; m_stacksize := 0; m_state := READY; m_ctx := uc_blank;
     m_stack := 0; m_cb := None |}.

Definition set_state (s : State) (c : t) : t :=
  {| m_id := m_id c; m_stacksize := m_stacksize c; m_state := s;
     m_ctx := m_ctx c; m_stack := m_stack c; m_cb := m_cb c |}.
Definition set_ctx (u : ucontext) (c : t) : t :=
  {| m_id := m_id c; m_stacksize := m_stacksize c; m_state := m_state c;
     m_ctx := u; m_stack := m_stack c; m_cb := m_cb c |}.
Definition set_cb (f : option Callback) (c : t) : t :=
  {| m_id := m_id c; m_stacksize := m_stacksize c; m_state := m_state c;
     m_ctx := m_ctx c; m_stack := m_stack c; m_cb := f |}.

(** The fiber objects of the process, the two global counters, the
    configured stack size, and the thread-local variables of the thread
    under consideration.  [cpu] records which stored context the thread
    activated last: the object it belongs to and what it held. *)
Record World : Type := mkWorld {
  heap : gmap addr t;
  e_cor_id : Z;
  e_cor_count : Z;
  g_cor_stack_size : Z;
  t_cor : option addr;
  t_thread_cor : option addr;
  cpu : option (addr * ucontext)
}.

(** The state of a process before any fiber exists. *)
Definition World0 : World :=
  {| heap := ∅; e_cor_id := 0; e_cor_count := 0;
     g_cor_stack_size := 128 * 1024;
     t_cor := None; t_thread_cor := None; cpu := None |}.

Definition set_heap (h : gmap addr t) (w : World) : World :=
  {| heap := h; e_cor_id := e_cor_id w; e_cor_count := e_cor_count w;
     g_cor_stack_size := g_cor_stack_size w;
     t_cor := t_cor w; t_thread_cor := t_thread_cor w; cpu := cpu w |}.
Definition set_t_thread_cor (p : option addr) (w : World) : World :=
  {| heap := heap w; e_cor_id := e_cor_id w; e_cor_count := e_cor_count w;
     g_cor_stack_size := g_cor_stack_size w;
     t_cor := t_cor w; t_thread_cor := p; cpu := cpu w |}.
Definition set_cpu (x : option (addr * ucontext)) (w : World) : World :=
  {| heap := heap w; e_cor_id := e_cor_id w; e_cor_count := e_cor_count w;
     g_cor_stack_size := g_cor_stack_size w;
     t_cor := t_cor w; t_thread_cor := t_thread_cor w; cpu := x |}.

(** Dereferencing a [Cor*]. *)
Definition deref (w : World) (p : addr) : outcome t :=
  match heap w !! p with
  | Some c => Ret c
  | None => Undefined
  end.

Definition store (p : addr) (c : t) (w : World) : World :=
  set_heap (<[p := c]> (heap w)) w.

(** [uint64_t getId() const]. *)
Definition getId (c : t) : Z := m_id c.

(** [State getState() const]. *)
Definition getState (c : t) : State := m_state c.

(** [uint64_t Cor::GetCorId()]. *)
Definition GetCorId (w : World) : outcome Z :=
  match t_cor w with
  | Some p => c ← deref w p; mret (getId c)
  | None => mret 0
  end.

(** [void Cor::SetThis(Cor *c)]. *)
Definition SetThis (c : option addr) (w : World) : World :=
  {| heap := heap w; e_cor_id := e_cor_id w; e_cor_count := e_cor_count w;
     g_cor_stack_size := g_cor_stack_size w;
     t_cor := c; t_thread_cor := t_thread_cor w; cpu := cpu w |}.

(** [++e_cor_count] and [e_cor_id++] (the latter returns the old value). *)
Definition incr_count (w : World) : World :=
  {| heap := heap w; e_cor_id := e_cor_id w;
     e_cor_count := wrap64 (e_cor_count w + 1);
     g_cor_stack_size := g_cor_stack_size w;
     t_cor := t_cor w; t_thread_cor := t_thread_cor w; cpu := cpu w |}.
Definition next_id (w : World) : Z * World :=
  (e_cor_id w,
   {| heap := heap w; e_cor_id := wrap64 (e_cor_id w + 1);
      e_cor_count := e_cor_count w;
      g_cor_stack_size := g_cor_stack_size w;
      t_cor := t_cor w; t_thread_cor := t_thread_cor w; cpu := cpu w |}).

(** The address [new Cor] returns: one at which no fiber lives. *)
Definition new_addr (w : World) : addr := fresh (dom (heap w)).

(** [Cor::Cor()], the constructor of a thread's main fiber, run on the
    object at address [p].  [getcontext] is taken to succeed (POSIX
    defines no error for it), so the [EVENT_ASSERT2(false, ...)] arm is
    not taken. *)
Definition ctor_main (p : addr) (w : World) : World :=
  let w := store p default w in
  let w := SetThis (Some p) w in
  let c := set_ctx (uc_saved in_main_ctor) (set_state RUNNING default) in
  let w := incr_count w in
  let '(i, w) := next_id w in
  store p
    {| m_id := i; m_stacksize := m_stacksize c; m_state := m_state c;
       m_ctx := m_ctx c; m_stack := m_stack c; m_cb := m_cb c |} w.

(** [Cor::ptr Cor::GetThis()]. *)
Definition GetThis (w : World) : outcome (addr * World) :=
  match t_cor w with
  | Some p =>
      _ ← deref w p;   (* t_cor->shared_from_this() *)
      mret (p, w)
  | None =>
      let p := new_addr w in
      let w := ctor_main p w in
      _ ← EVENT_ASSERT (bool_decide (t_cor w = Some p));
      let w := set_t_thread_cor (Some p) w in
      mret (p, w)
  end.

(** [Cor::Cor(std::function<void()> cb, size_t stacksize)] run on the
    object at address [p]; [stack] is the block that
    [StackAllocator::Alloc] ([malloc]) hands out. *)
Definition ctor (p : addr) (cb : option Callback) (stacksize : Z)
    (stack : Z) (w : World) : World :=
  let '(i, w) := next_id w in
  let w := incr_count w in
  let size := wrap32 (if bool_decide (stacksize = 0)
                      then g_cor_stack_size w else stacksize) in
  store p
    {| m_id := i; m_stacksize := size; m_state := READY;
       m_ctx := uc_made stack size; m_stack := stack; m_cb := cb |} w.

(** [new Cor(cb, stacksize)]. *)
Definition new (cb : option Callback) (stacksize : Z) (stack : Z)
    (w : World) : addr * World :=
  let p := new_addr w in (p, ctor p cb stacksize stack w).

(** [void Cor::reset(std::function<void()> cb)]. *)
Definition reset (p : addr) (cb : option Callback) (w : World)
    : outcome World :=
  c ← deref w p;
  _ ← EVENT_ASSERT (negb (bool_decide (m_stack c = 0)));
  _ ← EVENT_ASSERT (bool_decide (m_state c = TERM));
  let c := set_cb cb c in
  let c := set_ctx (uc_made (m_stack c) (m_stacksize c)) c in
  let c := set_state READY c in
  mret (store p c w).

(** [swapcontext(&from->m_ctx, &to->m_ctx)] called at [s]: the running
    context is stored in [from], then the one held by [to] is activated.
    The call is taken to succeed. *)
Definition swapcontext (s : site) (from to : addr) (w : World)
    : outcome World :=
  cf ← deref w from;
  let w := store from (set_ctx (uc_saved s) cf) w in
  ct ← deref w to;
  mret (set_cpu (Some (to, m_ctx ct)) w).

(** [void Cor::resume()]. *)
Definition resume (p : addr) (w : World) : outcome World :=
  c ← deref w p;
  _ ← EVENT_ASSERT (negb (bool_decide (m_state c = TERM))
                    && negb (bool_decide (m_state c = RUNNING)));
  let w := SetThis (Some p) w in
  let w := store p (set_state RUNNING c) w in
  match t_thread_cor w with
  | Some main => swapcontext in_resume main p w
  | None => Undefined
  end.

(** The part of [yield()] that precedes the context switch.  The source
    spells the assertion macro [EVENT_ASEERT] and the tested member
    [m_stata]; they are read as [EVENT_ASSERT] and [m_state]. *)
Definition yield_prepare (p : addr) (w : World) : outcome World :=
  c ← deref w p;
  _ ← EVENT_ASSERT (bool_decide (m_state c = RUNNING)
                    || bool_decide (m_state c = TERM));
  let w := SetThis (t_thread_cor w) w in
  mret (if negb (bool_decide (m_state c = TERM))
        then store p (set_state READY c) w
        else w).

(** [void yield()]. *)
Definition yield (p : addr) (w : World) : outcome World :=
  w ← yield_prepare p w;
  match t_thread_cor w with
  | Some main => swapcontext in_yield p main w
  | None => Undefined
  end.

(** [Cor::MainFunc()] up to the call [cur->m_cb()]: the fiber it runs
    for and the function object it invokes.  Calling an empty
    [std::function] throws. *)
Definition MainFunc_enter (w : World) : outcome (addr * Callback * World) :=
  '(cur, w) ← GetThis w;
  c ← deref w cur;
  match m_cb c with
  | Some f => mret (cur, f, w)
  | None => Abort
  end.

(** [Cor::MainFunc()] after [cur->m_cb()] has returned. *)
Definition MainFunc_leave (cur : addr) (w : World) : outcome World :=
  c ← deref w cur;
  let w := store cur (set_cb None c) w in
  c ← deref w cur;
  let w := store cur (set_state TERM c) w in
  yield cur w.

(** [--e_cor_count]. *)
Definition decr_count (w : World) : World :=
  {| heap := heap w; e_cor_id := e_cor_id w;
     e_cor_count := wrap64 (e_cor_count w - 1);
     g_cor_stack_size := g_cor_stack_size w;
     t_cor := t_cor w; t_thread_cor := t_thread_cor w; cpu := cpu w |}.

(** [Cor::~Cor()] run on the object at [p]: the world afterwards and the
    block handed to [StackAllocator::Dealloc] ([free]), if any. *)
Definition dtor (p : addr) (w : World) : outcome (World * option (Z * Z)) :=
  c ← deref w p;
  let w := decr_count w in
  if negb (bool_decide (m_stack c = 0)) then
    _ ← EVENT_ASSERT (bool_decide (m_state c = TERM));
    mret (w, Some (m_stack c, m_stacksize c))
  else
    _ ← EVENT_ASSERT (negb (nonnull (m_cb c)));
    _ ← EVENT_ASSERT (bool_decide (m_state c = RUNNING));
    mret (if bool_decide (t_cor w = Some p) then SetThis None w else w,
          None).

(** The end of the object at [p], as the last [Cor::ptr] to it goes away:
    the destructor runs and the object is gone. *)
Definition destroy (p : addr) (w : World)
    : outcome (World * option (Z * Z)) :=
  '(w, freed) ← dtor p w;
  mret (set_heap (delete p (heap w)) w, freed).

(** *** Handles

    A [Cor] object lives as long as a [Cor::ptr] (a [std::shared_ptr])
    refers to it.  A map [u] of type [gmap addr nat] gives the
    [use_count()] of every object; an object without entry has none. *)

Definition use_count (u : gmap addr nat) (p : addr) : nat :=
  match u !! p with Some n => n | None => 0%nat end.

(** A [Cor::ptr] to [p] is copied. *)
Definition acquire (p : addr) (u : gmap addr nat) : gmap addr nat :=
  <[p := S (use_count u p)]> u.

(** A [Cor::ptr] to [p] is reset, assigned over or goes out of scope:
    the last one runs the destructor.  Releasing a handle that is not
    counted has no meaning. *)
Definition release (p : addr) (u : gmap addr nat) (w : World)
    : outcome (gmap addr nat * World) :=
  match use_count u p with
  | O => Undefined
  | S O => '(w, _) ← destroy p w; mret (delete p u, w)
  | S (S n) => mret (<[p := S n]> u, w)
  end.

(** The same for a handle that may be empty. *)
Definition release_ptr (h : option addr) (u : gmap addr nat) (w : World)
    : outcome (gmap addr nat * World) :=
  match h with
  | Some p => release p u w
  | None => mret (u, w)
  end.

(** [Cor::ptr cur = GetThis();] in the first line of [MainFunc] is a
    handle of the fiber to itself.  It is taken when the fiber is entered
    for the first time, stays on the fiber's stack while the fiber is
    suspended in a [yield()], and is given back by [cur.reset()] once
    the function object has returned.  Seen from the caller of
    [resume()]: [c] is the fiber before the call (it is entered for the
    first time when its context is the one [makecontext] built), [c']
    the fiber when control is back (its function object has returned
    when it is TERM).  Were [cur] the last handle, [cur.reset()] would
    run the destructor of the fiber that is executing, and the [yield()]
    behind it would use the freed object. *)
Definition MainFunc_cur (p : addr) (c c' : t) (u : gmap addr nat)
    : outcome (gmap addr nat) :=
  let u := match m_ctx c with
           | uc_made _ _ => acquire p u
           | _ => u
           end in
  if bool_decide (m_state c' = TERM) then
    match use_count u p with
    | S (S n) => mret (<[p := S n]> u)
    | _ => Undefined
    end
  else mret u.

(** [Cor::GetThis();] as a statement, its result dropped: a main fiber
    that the call has built is held by [t_thread_cor]. *)
Definition GetThis_held (u : gmap addr nat) (w : World)
    : outcome (addr * gmap addr nat * World) :=
  '(p, w') ← GetThis w;
  mret (p, if nonnull (t_cor w) then u else <[p := 1%nat]> u, w').

End Cor.

(** ** scheduler.h, scheduler.cpp *)

Module Scheduler.

(** [struct ScheduleTask]. *)
Record ScheduleTask : Type := mkTask {
  cor : option addr;
  cb : option Callback;
  thread : Z
}.

(** What [schedule] is instantiated with: a [Cor::ptr], a [Cor::ptr*]
    (whose pointee is moved into the task by [swap]) or a
    [std::function<void()>].  The three constructors of [ScheduleTask]
    leave the other handle empty. *)
Inductive CorOrCb : Type :=
| of_cor (c : option addr)
| of_cor_ptr (c : option addr)
| of_cb (f : option Callback).

Definition ScheduleTask_of (cc : CorOrCb) (thr : Z) : ScheduleTask :=
  match cc with
  | of_cor c => {| cor := c; cb := None; thread := thr |}
  | of_cor_ptr c => {| cor := c; cb := None; thread := thr |}
  | of_cb f => {| cor := None; cb := f; thread := thr |}
  end.

(** [ScheduleTask()] and [ScheduleTask::reset()]. *)
Definition ScheduleTask_empty : ScheduleTask :=
  {| cor := None; cb := None; thread := -1 |}.

(** [Thread::ptr]: a started OS thread with its id and its name. *)
Record Thread : Type := mkThread { th_id : Z; th_name : string }.

(** The data members of [class Scheduler].  [m_rootFiber] is the member
    that [stop()] tests; the header does not declare it and no
    constructor or member function assigns it. *)
Record t : Type := mk {
  m_name : string;
  m_threads : list Thread;
  m_tasks : list ScheduleTask;
  m_threadIds : list Z;
  m_threadCount : Z;
  m_activeThreadCount : Z;
  m_idleThreadCount : Z;
  m_useCaller : bool;
  m_rootCor : option addr;
  m_rootThread : Z;
  m_stopping : bool;
  m_rootFiber : option addr
}.

Definition set_tasks (q : list ScheduleTask) (s : t) : t :=
  {| m_name := m_name s; m_threads := m_threads s; m_tasks := q;
     m_threadIds := m_threadIds s; m_threadCount := m_threadCount s;
     m_activeThreadCount := m_activeThreadCount s;
     m_idleThreadCount := m_idleThreadCount s;
     m_useCaller := m_useCaller s; m_rootCor := m_rootCor s;
     m_rootThread := m_rootThread s; m_stopping := m_stopping s;
     m_rootFiber := m_rootFiber s |}.
Definition set_threads (ths : list Thread) (ids : list Z) (s : t) : t :=
  {| m_name := m_name s; m_threads := ths; m_tasks := m_tasks s;
     m_threadIds := ids; m_threadCount := m_threadCount s;
     m_activeThreadCount := m_activeThreadCount s;
     m_idleThreadCount := m_idleThreadCount s;
     m_useCaller := m_useCaller s; m_rootCor := m_rootCor s;
     m_rootThread := m_rootThread s; m_stopping := m_stopping s;
     m_rootFiber := m_rootFiber s |}.
Definition set_active (n : Z) (s : t) : t :=
  {| m_name := m_name s; m_threads := m_threads s; m_tasks := m_tasks s;
     m_threadIds := m_threadIds s; m_threadCount := m_threadCount s;
     m_activeThreadCount := n;
     m_idleThreadCount := m_idleThreadCount s;
     m_useCaller := m_useCaller s; m_rootCor := m_rootCor s;
     m_rootThread := m_rootThread s; m_stopping := m_stopping s;
     m_rootFiber := m_rootFiber s |}.
Definition set_idle (n : Z) (s : t) : t :=
  {| m_name := m_name s; m_threads := m_threads s; m_tasks := m_tasks s;
     m_threadIds := m_threadIds s; m_threadCount := m_threadCount s;
     m_activeThreadCount := m_activeThreadCount s;
     m_idleThreadCount := n;
     m_useCaller := m_useCaller s; m_rootCor := m_rootCor s;
     m_rootThread := m_rootThread s; m_stopping := m_stopping s;
     m_rootFiber := m_rootFiber s |}.
Definition set_stopping (b : bool) (s : t) : t :=
  {| m_name := m_name s; m_threads := m_threads s; m_tasks := m_tasks s;
     m_threadIds := m_threadIds s; m_threadCount := m_threadCount s;
     m_activeThreadCount := m_activeThreadCount s;
     m_idleThreadCount := m_idleThreadCount s;
     m_useCaller := m_useCaller s; m_rootCor := m_rootCor s;
     m_rootThread := m_rootThread s; m_stopping := b;
     m_rootFiber := m_rootFiber s |}.

(** Calls that leave the object: the virtual [tickle()], the
    constructor and [reset] of [Cor], the inline run of the caller's
    dispatch fiber, and [Thread::join]. *)
Inductive action : Type :=
| act_tickle
| act_new_cor (p : addr)
| act_reset_cor (p : addr)
| act_resume_root (p : addr)
| act_join (th : Thread).

Definition is_tickle (a : action) : bool :=
  match a with act_tickle => true | _ => false end.
Definition is_new_cor (a : action) : bool :=
  match a with act_new_cor _ => true | _ => false end.
Definition is_reset_cor (a : action) : bool :=
  match a with act_reset_cor _ => true | _ => false end.

(** [scheduleNoLock(cc, thread)]: the queue afterwards and the returned
    [need_tickle]. *)
Definition scheduleNoLock (cc : CorOrCb) (thr : Z) (s : t) : bool * t :=
  let need_tickle := bool_decide (m_tasks s = []) in
  let task := ScheduleTask_of cc thr in
  if nonnull (cor task) || nonnull (cb task)
  then (need_tickle, set_tasks (m_tasks s ++ [task]) s)
  else (need_tickle, s).

(** [schedule(cc, thread)]: [tickle()] is called when the queue was
    empty on entry. *)
Definition schedule (cc : CorOrCb) (thr : Z) (s : t) : t * list action :=
  let '(need_tickle, s) := scheduleNoLock cc thr s in
  (s, if need_tickle then [act_tickle] else []).

(** [bool Scheduler::stopping()]. *)
Definition stopping (s : t) : bool :=
  m_stopping s && bool_decide (m_tasks s = [])
  && bool_decide (m_activeThreadCount s = 0).

(** [Scheduler::Scheduler(threads, use_caller, name)] run on the object
    at [this].  [t_scheduler] is the thread-local of the calling thread
    and is returned updated; [stack] is the block [malloc] returns for
    the dispatch fiber; [rootFiber0] is whatever [m_rootFiber] holds
    when the object comes into being.  Left out: [Thread::SetName], and
    the assignment [t_scheduler_cor = m_rootThread.get()], which applies
    [.get()] to an [int] and whose target nothing modelled here reads.
    The third argument of [new Cor(..., 0, false)] has no counterpart in
    the constructor of [m_cor.cpp].  [event::GetCorId()] is declared
    outside the sources and is taken to forward to [Cor::GetCorId()]. *)
Definition ctor (this : addr) (threads : Z) (use_caller : bool)
    (name : string) (stack : Z) (rootFiber0 : option addr)
    (t_scheduler : option addr) (w : Cor.World)
    : outcome (t * option addr * Cor.World) :=
  _ ← EVENT_ASSERT (bool_decide (0 < threads));
  if use_caller then
    let threads := wrap64 (threads - 1) in
    '(_, w) ← Cor.GetThis w;
    _ ← EVENT_ASSERT (bool_decide (t_scheduler = None));
    let '(p, w) := Cor.new (Some (cb_run this)) 0 stack w in
    id ← Cor.GetCorId w;
    let root := to_int id in
    mret ({| m_name := name; m_threads := []; m_tasks := [];
             m_threadIds := [root]; m_threadCount := threads;
             m_activeThreadCount := 0; m_idleThreadCount := 0;
             m_useCaller := use_caller; m_rootCor := Some p;
             m_rootThread := root; m_stopping := false;
             m_rootFiber := rootFiber0 |}, Some this, w)
  else
    mret ({| m_name := name; m_threads := []; m_tasks := [];
             m_threadIds := []; m_threadCount := threads;
             m_activeThreadCount := 0; m_idleThreadCount := 0;
             m_useCaller := use_caller; m_rootCor := None;
             m_rootThread := -1; m_stopping := false;
             m_rootFiber := rootFiber0 |}, t_scheduler, w).

(** [void Scheduler::start()]; [spawn i] is the id of the [i]-th thread
    the operating system starts. *)
Definition start (spawn : nat → Z) (s : t) : outcome t :=
  if m_stopping s then mret s
  else
    _ ← EVENT_ASSERT (bool_decide (m_threads s = []));
    let ths :=
      (λ i : nat, {| th_id := spawn i;
                     th_name := m_name s +:+ "_" +:+ pretty i |})
        <$> seq 0 (Z.to_nat (m_threadCount s)) in
    mret (set_threads ths (m_threadIds s ++ (th_id <$> ths)) s).

(** [void Scheduler::stop()] called on the object at [this] by a thread
    whose [t_scheduler] is given.  The result is the list of the calls
    that [stop()] makes itself, in order, and how the call ends.

    [m_rootCor->resume()] runs [run()] inside the caller's dispatch
    fiber.  [resume()] stores the running context in
    [t_thread_cor->m_ctx] whoever calls it (m_cor.cpp, line 177), so the
    [resume()] calls that [run()] makes from inside the dispatch fiber
    store over the context [stop()] was suspended in; contexts carry no
    owner here, which leaves that run outside of what the definitions of
    [Cor] can follow.  It is the parameter [resume_root]: the scheduler
    that the run leaves behind if control comes back to [stop()], and
    [Abort] or [Undefined] if it does not. *)
Definition stop (this : addr) (t_scheduler : option addr)
    (resume_root : t → outcome t) (s : t) : list action * outcome t :=
  if stopping s then ([], Ret s)
  else
    let s := set_stopping true s in
    if negb (if m_useCaller s
             then bool_decide (t_scheduler = Some this)
             else negb (bool_decide (t_scheduler = Some this)))
    then ([], Abort)
    else
      let tickles := replicate (Z.to_nat (m_threadCount s)) act_tickle in
      let extra := if nonnull (m_rootFiber s) then [act_tickle] else [] in
      match m_rootCor s with
      | Some p =>
          match resume_root s with
          | Ret s =>
              (tickles ++ extra ++ [act_resume_root p]
                 ++ (act_join <$> m_threads s),
               Ret (set_threads [] (m_threadIds s) s))
          | Abort => (tickles ++ extra ++ [act_resume_root p], Abort)
          | Undefined => (tickles ++ extra ++ [act_resume_root p], Undefined)
          end
      | None =>
          (tickles ++ extra ++ (act_join <$> m_threads s),
           Ret (set_threads [] (m_threadIds s) s))
      end.

(** *** The dispatch loop [Scheduler::run()] *)

(** The scan of the queue under the mutex.  [before] holds the entries
    the iterator [it] has passed, [it] those from the iterator to the
    end; the result is the task taken (if any), the queue, the entries
    from [it] to the end after the loop, and [tickle_me]. *)
Fixpoint scan (tid : Z) (w : Cor.World) (before it : list ScheduleTask)
    (tickle_me : bool)
    : outcome (option ScheduleTask * list ScheduleTask
               * list ScheduleTask * bool) :=
  match it with
  | [] => mret (None, before, [], tickle_me)
  | x :: it' =>
      if negb (bool_decide (thread x = -1))
         && negb (bool_decide (thread x = tid))
      then scan tid w (before ++ [x]) it' true
      else
        _ ← EVENT_ASSERT (nonnull (cor x) || nonnull (cb x));
        _ ← match cor x with
            | Some p =>
                c ← Cor.deref w p;
                EVENT_ASSERT (bool_decide (Cor.getState c = Cor.READY))
            | None => mret tt
            end;
        mret (Some x, before ++ it', it', tickle_me)
  end.

(** The block of [run()] that holds the mutex: [task] as it is
    afterwards ([task.reset()] has emptied it before), the scheduler
    with the taken entry erased and the active count raised, and
    [tickle_me]. *)
Definition take (tid : Z) (w : Cor.World) (s : t)
    : outcome (ScheduleTask * t * bool) :=
  '(taken, q, it, tickle_me) ← scan tid w [] (m_tasks s) false;
  let s := set_tasks q s in
  let s := if nonnull taken
           then set_active (wrap64 (m_activeThreadCount s + 1)) s
           else s in
  let tickle_me := tickle_me || negb (bool_decide (it = [])) in
  mret (default ScheduleTask_empty taken, s, tickle_me).

(** What the body of a function object does once control is inside it:
    it returns, or the fiber it runs on calls [yield()]. *)
Inductive behaviour : Type := returns | yields.

(** [Scheduler::idle()] of the scheduler at [this] is
    [while (!stopping()) Cor::GetThis()->yield();].  Any other function
    object is code the scheduler does not know; [user] tells which way
    it goes, and its other effects are outside the model. *)
Definition body (user : Callback → behaviour) (this : addr) (s : t)
    (f : Callback) : behaviour :=
  match f with
  | cb_idle sched =>
      if bool_decide (sched = this)
      then (if stopping s then returns else yields)
      else user f
  | _ => user f
  end.

(** [p->resume()] as the dispatcher sees it: the switch into the fiber,
    what the fiber does until it switches back, and the return. *)
Definition run_fiber (user : Callback → behaviour) (this : addr) (s : t)
    (p : addr) (w : Cor.World) : outcome Cor.World :=
  w ← Cor.resume p w;
  match Cor.cpu w with
  | Some (q, Cor.uc_made _ _) =>
      (* a fresh context: Cor::MainFunc runs from its first line *)
      '(cur, f, w) ← Cor.MainFunc_enter w;
      match body user this s f with
      | returns => Cor.MainFunc_leave cur w
      | yields => '(me, w) ← Cor.GetThis w; Cor.yield me w
      end
  | Some (q, Cor.uc_saved Cor.in_yield) =>
      (* the fiber goes on behind the yield() it was suspended in *)
      c ← Cor.deref w q;
      match Cor.m_cb c with
      | Some f =>
          match body user this s f with
          | returns => Cor.MainFunc_leave q w
          | yields => '(me, w) ← Cor.GetThis w; Cor.yield me w
          end
      | None => Abort  (* MainFunc returns with uc_link = nullptr *)
      end
  | _ => Undefined
  end.

(** [p->resume()] with the handles: the [cur] of [Cor::MainFunc] is
    counted for the fiber that was resumed. *)
Definition run_fiber_held (user : Callback → behaviour) (this : addr)
    (s : t) (p : addr) (u : gmap addr nat) (w : Cor.World)
    : outcome (gmap addr nat * Cor.World) :=
  c ← Cor.deref w p;
  w ← run_fiber user this s p w;
  c' ← Cor.deref w p;
  u ← Cor.MainFunc_cur p c c' u;
  mret (u, w).

(** The local variables of [run()] that live across iterations. *)
Record Locals : Type := mkLocals { idle_cor : addr; cb_cor : option addr }.

(** The statements of [run()] before the loop.  [setThis()] stores
    [this] in [t_scheduler]; [idle_cor] is the one handle of the idle
    fiber. *)
Definition run_enter (this : addr) (tid : Z) (stack : Z) (s : t)
    (u : gmap addr nat) (w : Cor.World)
    : outcome (Locals * option addr * gmap addr nat * Cor.World) :=
  '(u, w) ← (if negb (bool_decide (tid = m_rootThread s))
             then '(_, u, w) ← Cor.GetThis_held u w; mret (u, w)
             else mret (u, w));
  let '(p, w) := Cor.new (Some (cb_idle this)) 0 stack w in
  mret ({| idle_cor := p; cb_cor := None |}, Some this,
        <[p := 1%nat]> u, w).

Inductive status : Type := continue | exit.

(** One pass through the body of [while (true)] in [run()], on the
    thread with id [tid] (the value of [event::GetThreadId()]).  The
    entry taken from the queue carries its handle into [task]: the copy
    and the erasure of the entry leave the count as it is.
    [task.reset()] and [cb_cor.reset()] release the handle of the fiber
    they hold, and the destructor runs if it was the last. *)
Definition run_iteration (user : Callback → behaviour) (stack : Z)
    (this : addr) (tid : Z) (st : t * Locals * gmap addr nat * Cor.World)
    : outcome (status * (t * Locals * gmap addr nat * Cor.World)
               * list action) :=
  let '(s, l, u, w) := st in
  '(task, s, tickle_me) ← take tid w s;
  let log := if (tickle_me : bool) then [act_tickle] else [] in
  match cor task, cb task with
  | Some p, _ =>
      '(u, w) ← run_fiber_held user this s p u w;
      let s := set_active (wrap64 (m_activeThreadCount s - 1)) s in
      '(u, w) ← Cor.release p u w;
      mret (continue, (s, l, u, w), log)
  | None, Some f =>
      '(c, u, w, log') ←
        match cb_cor l with
        | Some c =>
            w ← Cor.reset c (Some f) w;
            mret (c, u, w, log ++ [act_reset_cor c])
        | None =>
            let '(c, w) := Cor.new (Some f) 0 stack w in
            mret (c, <[c := 1%nat]> u, w, log ++ [act_new_cor c])
        end;
      '(u, w) ← run_fiber_held user this s c u w;
      let s := set_active (wrap64 (m_activeThreadCount s - 1)) s in
      '(u, w) ← Cor.release c u w;
      mret (continue,
            (s, {| idle_cor := idle_cor l; cb_cor := None |}, u, w), log')
  | None, None =>
      c ← Cor.deref w (idle_cor l);
      if bool_decide (Cor.getState c = Cor.TERM)
      then mret (exit, (s, l, u, w), log)
      else
        let s := set_idle (wrap64 (m_idleThreadCount s + 1)) s in
        '(u, w) ← run_fiber_held user this s (idle_cor l) u w;
        let s := set_idle (wrap64 (m_idleThreadCount s - 1)) s in
        mret (continue, (s, l, u, w), log)
  end.

(** At most [n] passes of the loop; [mallocs i] is the block [malloc]
    returns in pass [i] should a fiber be built there.  The result tells
    whether the loop was left ([exit]) or is still going. *)
Fixpoint run_loop (n : nat) (user : Callback → behaviour)
    (mallocs : nat → Z) (this : addr) (tid : Z)
    (st : t * Locals * gmap addr nat * Cor.World)
    : outcome (status * (t * Locals * gmap addr nat * Cor.World)
               * list action) :=
  match n with
  | O => mret (continue, st, [])
  | S n' =>
      '(b, st, log) ← run_iteration user (mallocs O) this tid st;
      match b with
      | exit => mret (exit, st, log)
      | continue =>
          '(b, st, log') ←
            run_loop n' user (λ i, mallocs (S i)) this tid st;
          mret (b, st, log ++ log')
      end
  end.

(** [Scheduler *Scheduler::GetThis()]. *)
Definition GetThis (t_scheduler : option addr) : option addr := t_scheduler.

(** [Scheduler::~Scheduler()] run on the object at [this]: the
    thread-local [t_scheduler] afterwards. *)
Definition dtor (this : addr) (t_scheduler : option addr) (s : t)
    : outcome (option addr) :=
  _ ← EVENT_ASSERT (m_stopping s);
  mret (if bool_decide (GetThis t_scheduler = Some this)
        then None else t_scheduler).

End Scheduler.

(** ** simple_cor_scheduler.cpp, first half: the single-threaded scheduler *)

Module SimpleScheduler.

(** [std::list<event::Cor::ptr> m_tasks]. *)
Definition t : Type := list (option addr).

(** [void schedule(event::Cor::ptr task)]. *)
Definition schedule (task : option addr) (q : t) : t := q ++ [task].

(** [task->resume()] as [run()] sees it: the switch into the fiber, what
    the fiber does until it switches back, and the return.  [user] tells
    whether the body of a function object returns or yields; the result
    lists the function objects that [Cor::MainFunc] has invoked. *)
Definition resume_task (user : Callback → Scheduler.behaviour)
    (p : addr) (w : Cor.World) : outcome (Cor.World * list Callback) :=
  w ← Cor.resume p w;
  match Cor.cpu w with
  | Some (q, Cor.uc_made _ _) =>
      '(cur, f, w) ← Cor.MainFunc_enter w;
      match user f with
      | Scheduler.returns => w ← Cor.MainFunc_leave cur w; mret (w, [f])
      | Scheduler.yields =>
          '(me, w) ← Cor.GetThis w; w ← Cor.yield me w; mret (w, [f])
      end
  | Some (q, Cor.uc_saved Cor.in_yield) =>
      c ← Cor.deref w q;
      match Cor.m_cb c with
      | Some f =>
          match user f with
          | Scheduler.returns => w ← Cor.MainFunc_leave q w; mret (w, [])
          | Scheduler.yields =>
              '(me, w) ← Cor.GetThis w; w ← Cor.yield me w; mret (w, [])
          end
      | None => Abort
      end
  | _ => Undefined
  end.

(** [task->resume()] with the handles: the [cur] of [Cor::MainFunc] is
    counted for the fiber that was resumed. *)
Definition resume_task_held (user : Callback → Scheduler.behaviour)
    (p : addr) (u : gmap addr nat) (w : Cor.World)
    : outcome (gmap addr nat * Cor.World * list Callback) :=
  c ← Cor.deref w p;
  '(w, out) ← resume_task user p w;
  c' ← Cor.deref w p;
  u ← Cor.MainFunc_cur p c c' u;
  mret (u, w, out).

(** The loop of [run()], entered with [task] holding the entry taken in
    the pass before (empty at first).  [task = *it] gives up the handle
    that [task] held, so the fiber of the pass before is destroyed here
    if nothing else refers to it; the handle of the entry moves from the
    list to [task] (copy, then [erase]).  When the list is exhausted the
    function returns and [task] goes out of scope.  The result is the
    list as it is left, the handles, the world, and the function objects
    invoked, in order. *)
Fixpoint run_from (user : Callback → Scheduler.behaviour)
    (task : option addr) (m_tasks : t) (u : gmap addr nat) (w : Cor.World)
    : outcome (t * gmap addr nat * Cor.World * list Callback) :=
  match m_tasks with
  | [] =>
      '(u, w) ← Cor.release_ptr task u w;
      mret ([], u, w, [])
  | it :: m_tasks =>
      '(u, w) ← Cor.release_ptr task u w;
      match it with
      | Some p =>
          '(u, w, out) ← resume_task_held user p u w;
          '(q, u, w, out') ← run_from user (Some p) m_tasks u w;
          mret (q, u, w, out ++ out')
      | None => Undefined
      end
  end.

(** [void run()]. *)
Definition run (user : Callback → Scheduler.behaviour) (m_tasks : t)
    (u : gmap addr nat) (w : Cor.World)
    : outcome (t * gmap addr nat * Cor.World * list Callback) :=
  run_from user None m_tasks u w.

(** The loop of [main()]: [n] fibers are built for [test_Cor] bound to
    [i], [i+1], ... and scheduled.  [mallocs j] is the block [malloc]
    returns for the [j]-th of them.  In each pass [cor] is the first
    handle of the new fiber, [schedule(cor)] puts a copy into the list,
    and [cor] goes out of scope: the list is left with the one
    handle. *)
Fixpoint spawn (n : nat) (i : nat) (mallocs : nat → Z) (q : t)
    (u : gmap addr nat) (w : Cor.World) : t * gmap addr nat * Cor.World :=
  match n with
  | O => (q, u, w)
  | S n =>
      let '(p, w) := Cor.new (Some (cb_user i)) 0 (mallocs O) w in
      spawn n (S i) (λ j, mallocs (S j)) (schedule (Some p) q)
        (<[p := 1%nat]> u) w
  end.

(** [int main()], up to the return of [sc.run()]: [test_Cor] prints its
    argument and returns. *)
Definition main (mallocs : nat → Z) (w : Cor.World)
    : outcome (t * gmap addr nat * Cor.World * list Callback) :=
  '(_, u, w) ← Cor.GetThis_held ∅ w;
  let '(q, u, w) := spawn 10 0 mallocs [] u w in
  run (λ _, Scheduler.returns) q u w.

End SimpleScheduler.

(** ** iomanager.cpp *)

Module IOManager.

(** Modelled from the spec: [enum Event] is declared in [iomanager.h],
    which is not among the sources.  The spec makes [READ] and [WRITE]
    two bits of the [events] mask; [addEvent] ors an [Event] into
    [epoll_event::events] unchanged, so they are the bits of [EPOLLIN]
    and [EPOLLOUT]. *)
Definition NONE : Z := 0.
Definition READ : Z := 1.
Definition WRITE : Z := 4.

(** Constants of [<sys/epoll.h>]. *)
Definition EPOLLET : Z := 2 ^ 31.
Definition EPOLL_CTL_ADD : Z := 1.
Definition EPOLL_CTL_DEL : Z := 2.
Definition EPOLL_CTL_MOD : Z := 3.

(** Modelled from the spec: [struct EventContext] and [struct FdContext]
    are declared in [iomanager.h].  Per the spec a slot holds a scheduler
    reference, a fiber handle and a callback, all three empty when the
    slot is inactive, and a context holds [fd], the [events] mask and
    the two slots [read] and [write]; a context that has just been
    created has an empty mask and empty slots.  The mutex is left out. *)
Record EventContext : Type := mkEventContext {
  scheduler : option addr;
  cor : option addr;
  cb : option Callback
}.

Record FdContext : Type := mkFdContext {
  read : EventContext;
  write : EventContext;
  fd : Z;
  events : Z
}.

Definition EventContext_empty : EventContext :=
  {| scheduler := None; cor := None; cb := None |}.

(** [!e.scheduler && !e.cor && !e.cb]. *)
Definition all_empty (e : EventContext) : bool :=
  negb (nonnull (scheduler e)) && negb (nonnull (cor e))
  && negb (nonnull (cb e)).

Definition set_scheduler (a : option addr) (e : EventContext)
    : EventContext :=
  {| scheduler := a; cor := cor e; cb := cb e |}.
Definition set_cor (p : option addr) (e : EventContext) : EventContext :=
  {| scheduler := scheduler e; cor := p; cb := cb e |}.
Definition set_cb (f : option Callback) (e : EventContext) : EventContext :=
  {| scheduler := scheduler e; cor := cor e; cb := f |}.

Definition FdContext_new : FdContext :=
  {| read := EventContext_empty; write := EventContext_empty;
     fd := 0; events := NONE |}.

Definition set_fd (i : Z) (c : FdContext) : FdContext :=
  {| read := read c; write := write c; fd := i; events := events c |}.
Definition set_events (e : Z) (c : FdContext) : FdContext :=
  {| read := read c; write := write c; fd := fd c; events := e |}.

(** The reference [getEventContext] returns, as the name of the member
    it refers to. *)
Inductive slot : Type := slot_read | slot_write.

Definition get_slot (k : slot) (c : FdContext) : EventContext :=
  match k with slot_read => read c | slot_write => write c end.
Definition set_slot (k : slot) (e : EventContext) (c : FdContext)
    : FdContext :=
  match k with
  | slot_read =>
      {| read := e; write := write c; fd := fd c; events := events c |}
  | slot_write =>
      {| read := read c; write := e; fd := fd c; events := events c |}
  end.

(** [FdContext::getEventContext(event)]: the [default] arm asserts
    [false], and the function throws behind the [switch]. *)
Definition getEventContext (event : Z) : outcome slot :=
  if bool_decide (event = READ) then mret slot_read
  else if bool_decide (event = WRITE) then mret slot_write
  else Abort.

(** [FdContext::resetEventContext(ctx)]. *)
Definition resetEventContext (ctx : EventContext) : EventContext :=
  {| scheduler := None; cor := None; cb := None |}.

(** [FdContext::triggerEvent(event)].  The schedulers that slots point
    to live in [σ]. *)
Definition triggerEvent (event : Z) (σ : gmap addr Scheduler.t)
    (c : FdContext)
    : outcome (gmap addr Scheduler.t * FdContext * list Scheduler.action) :=
  _ ← EVENT_ASSERT (negb (bool_decide (Z.land (events c) event = 0)));
  let c := set_events (Z.land (events c) (Z.lnot event)) c in
  k ← getEventContext event;
  let ctx := get_slot k c in
  '(σ, log) ←
    match scheduler ctx with
    | Some a =>
        match σ !! a with
        | Some s =>
            let '(s, log) :=
              if nonnull (cb ctx)
              then Scheduler.schedule (Scheduler.of_cb (cb ctx)) (-1) s
              else Scheduler.schedule (Scheduler.of_cor (cor ctx)) (-1) s in
            mret (<[a := s]> σ, log)
        | None => Undefined
        end
    | None => Undefined
    end;
  mret (σ, set_slot k (resetEventContext ctx) c, log).

(** Modelled from the spec: the data members of [class IOManager] are
    declared in [iomanager.h]: the readiness-wait handle, the self-pipe,
    the pending-event count and the vector of fd-context pointers
    indexed by fd.  The width of the counter is not known from the
    sources; it is a mathematical integer here.  The [Scheduler] base
    object and the read/write mutex are left out. *)
Record t : Type := mk {
  m_epfd : Z;
  m_tickleFds : Z * Z;
  m_pendingEventCount : Z;
  m_fdContexts : list (option FdContext)
}.

Definition set_fdContexts (v : list (option FdContext)) (io : t) : t :=
  {| m_epfd := m_epfd io; m_tickleFds := m_tickleFds io;
     m_pendingEventCount := m_pendingEventCount io; m_fdContexts := v |}.

(** [IOManager::contextResize(size)]. *)
Definition contextResize (size : Z) (v : list (option FdContext))
    : list (option FdContext) :=
  imap (λ i o,
          match o with
          | Some c => Some c
          | None => Some (set_fd (Z.of_nat i) FdContext_new)
          end)
       (resize (Z.to_nat size) None v).

(** [m_fdContexts[fd]] followed by a use of the pointer read. *)
Definition at_fd (v : list (option FdContext)) (fd : Z)
    : outcome FdContext :=
  if bool_decide (fd < 0) then Undefined
  else match v !! Z.to_nat fd with
       | Some (Some c) => Ret c
       | _ => Undefined
       end.

(** The parts of [IOManager::IOManager] that set the members above:
    [epoll_create], [pipe] and [fcntl] with the values they return, and
    [contextResize(32)]; the count starts at 0.  The base-class
    constructor, the registration of the pipe and [start()] act on the
    [Scheduler] part. *)
Definition ctor (epfd : Z) (pipe_rt : Z) (fds : Z * Z) (fcntl_rt : Z)
    : outcome t :=
  _ ← EVENT_ASSERT (bool_decide (0 < epfd));
  _ ← EVENT_ASSERT (bool_decide (pipe_rt = 0));
  _ ← EVENT_ASSERT (bool_decide (fcntl_rt = 0));
  mret {| m_epfd := epfd; m_tickleFds := fds; m_pendingEventCount := 0;
          m_fdContexts := contextResize 32 [] |}.

(** [IOManager::addEvent(fd, event, cb)].  [epoll_ctl epfd op fd events]
    is the value the system call returns; [t_scheduler] is what
    [Scheduler::GetThis()] returns on the calling thread. *)
Definition addEvent (epoll_ctl : Z → Z → Z → Z → Z)
    (t_scheduler : option addr) (fd : Z) (event : Z)
    (cb : option Callback) (io : t) (w : Cor.World)
    : outcome (Z * t * Cor.World) :=
  let v := if bool_decide (fd < to_int (Z.of_nat (length (m_fdContexts io))))
           then m_fdContexts io
           else contextResize (fd * 3 / 2) (m_fdContexts io) in
  fd_ctx ← at_fd v fd;
  _ ← EVENT_ASSERT (bool_decide (Z.land (events fd_ctx) event = 0));
  let op := if bool_decide (events fd_ctx = 0)
            then EPOLL_CTL_ADD else EPOLL_CTL_MOD in
  let epevents := Z.lor (Z.lor EPOLLET (events fd_ctx)) event in
  let rt := epoll_ctl (m_epfd io) op fd epevents in
  if negb (bool_decide (rt = 0)) then
    mret (-1, set_fdContexts v io, w)
  else
    let n := m_pendingEventCount io + 1 in
    let fd_ctx := set_events (Z.lor (events fd_ctx) event) fd_ctx in
    k ← getEventContext event;
    let event_ctx := get_slot k fd_ctx in
    _ ← EVENT_ASSERT (all_empty event_ctx);
    '(event_ctx, w) ←
      (if nonnull cb then
         mret (set_cb cb (set_scheduler t_scheduler event_ctx), w)
       else
         '(p, w) ← Cor.GetThis w;
         c ← Cor.deref w p;
         _ ← EVENT_ASSERT (bool_decide (Cor.getState c = Cor.RUNNING));
         mret (set_cor (Some p) (set_scheduler t_scheduler event_ctx), w));
    let v := <[Z.to_nat fd := Some (set_slot k event_ctx fd_ctx)]> v in
    mret (0, {| m_epfd := m_epfd io; m_tickleFds := m_tickleFds io;
                m_pendingEventCount := n; m_fdContexts := v |}, w).

(** [IOManager::delEvent(fd, event)]. *)
Definition delEvent (epoll_ctl : Z → Z → Z → Z → Z) (fd : Z) (event : Z)
    (io : t) : outcome (bool * t) :=
  if bool_decide (to_int (Z.of_nat (length (m_fdContexts io))) ≤ fd)
  then mret (false, io)
  else
    fd_ctx ← at_fd (m_fdContexts io) fd;
    if bool_decide (Z.land (events fd_ctx) event = 0)
    then mret (false, io)
    else
      let new_events := Z.land (events fd_ctx) (Z.lnot event) in
      let op := if bool_decide (new_events = 0)
                then EPOLL_CTL_DEL else EPOLL_CTL_MOD in
      let epevents := Z.lor EPOLLET new_events in
      let rt := epoll_ctl (m_epfd io) op fd epevents in
      if negb (bool_decide (rt = 0)) then mret (false, io)
      else
        let n := m_pendingEventCount io - 1 in
        let fd_ctx := set_events new_events fd_ctx in
        k ← getEventContext event;
        let event_ctx := get_slot k fd_ctx in
        let fd_ctx := set_slot k (resetEventContext event_ctx) fd_ctx in
        mret (true,
              {| m_epfd := m_epfd io; m_tickleFds := m_tickleFds io;
                 m_pendingEventCount := n;
                 m_fdContexts :=
                   <[Z.to_nat fd := Some fd_ctx]> (m_fdContexts io) |}).

(** More constants of [<sys/epoll.h>]. *)
Definition EPOLLIN : Z := 1.
Definition EPOLLPRI : Z := 2.
Definition EPOLLOUT : Z := 4.
Definition EPOLLERR : Z := 8.
Definition EPOLLHUP : Z := 16.
Definition EPOLLRDNORM : Z := 64.
Definition EPOLLRDBAND : Z := 128.
Definition EPOLLWRNORM : Z := 256.
Definition EPOLLWRBAND : Z := 512.
Definition EPOLLMSG : Z := 1024.
Definition EPOLLRDHUP : Z := 8192.
Definition EPOLLONESHOT : Z := 2 ^ 30.

(** [operator<<(std::ostream &, const EpollCtlOp &)]: what is appended to
    the stream that holds [os]. *)
Definition show_EpollCtlOp (os : string) (op : Z) : string :=
  if bool_decide (to_int op = EPOLL_CTL_ADD) then os +:+ "EPOLL_CTL_ADD"
  else if bool_decide (to_int op = EPOLL_CTL_MOD) then os +:+ "EPOLL_CTL_MOD"
  else if bool_decide (to_int op = EPOLL_CTL_DEL) then os +:+ "EPOLL_CTL_DEL"
  else os +:+ pretty (to_int op).

(** One expansion of the macro [XX(E)] in
    [operator<<(std::ostream &, EPOLL_EVENTS)]: the stream and [first]
    before and after. *)
Definition XX (events : Z) (st : string * bool) (E : Z * string)
    : string * bool :=
  let '(os, first) := st in
  if negb (bool_decide (Z.land events E.1 = 0))
  then ((if negb first then os +:+ "|" else os) +:+ E.2, false)
  else (os, first).

(** The flags the operator goes through, in the order of the source. *)
Definition EPOLL_flags : list (Z * string) :=
  [ (EPOLLIN, "EPOLLIN"); (EPOLLPRI, "EPOLLPRI"); (EPOLLOUT, "EPOLLOUT");
    (EPOLLRDNORM, "EPOLLRDNORM"); (EPOLLRDBAND, "EPOLLRDBAND");
    (EPOLLWRNORM, "EPOLLWRNORM"); (EPOLLWRBAND, "EPOLLWRBAND");
    (EPOLLMSG, "EPOLLMSG"); (EPOLLERR, "EPOLLERR"); (EPOLLHUP, "EPOLLHUP");
    (EPOLLRDHUP, "EPOLLRDHUP"); (EPOLLONESHOT, "EPOLLONESHOT");
    (EPOLLET, "EPOLLET") ].

(** [operator<<(std::ostream &, EPOLL_EVENTS)]. *)
Definition show_EPOLL_EVENTS (os : string) (events : Z) : string :=
  if bool_decide (events = 0) then os +:+ "0"
  else (foldl (XX events) (os, true) EPOLL_flags).1.

End IOManager.

(** * Vocabulary of the statements *)

(** The state [yield] leaves a fiber in. *)
Definition yielded_state (s : Cor.State) : Cor.State :=
  match s with Cor.RUNNING => Cor.READY | s => s end.


(** A fiber object with another id. *)
Definition with_id (i : Z) (c : Cor.t) : Cor.t :=
  {| Cor.m_id := i; Cor.m_stacksize := Cor.m_stacksize c;
     Cor.m_state := Cor.m_state c; Cor.m_ctx := Cor.m_ctx c;
     Cor.m_stack := Cor.m_stack c; Cor.m_cb := Cor.m_cb c |}.

(** A queue entry that the worker with thread id [tid] may take. *)
Definition eligible (tid : Z) (x : Scheduler.ScheduleTask) : bool :=
  bool_decide (Scheduler.thread x = -1)
  || bool_decide (Scheduler.thread x = tid).

(** A queue entry that passes the two assertions of the dispatch loop: it
    is not a null task, and a fiber it carries is alive and READY. *)
Definition dispatchable (w : Cor.World) (x : Scheduler.ScheduleTask) : Prop :=
  nonnull (Scheduler.cor x) || nonnull (Scheduler.cb x) = true
  ∧ ∀ p, Scheduler.cor x = Some p →
         ∃ c, Cor.heap w !! p = Some c ∧ Cor.m_state c = Cor.READY.

(** The number of [tickle()] calls in a trace of actions. *)
Definition tickles (log : list Scheduler.action) : nat :=
  length (List.filter Scheduler.is_tickle log).

(** The threads joined in a trace of actions, in order. *)
Definition joined (log : list Scheduler.action) : list Scheduler.Thread :=
  omap (λ a, match a with Scheduler.act_join th => Some th | _ => None end)
       log.

(** The numbers of [Cor] constructor calls and of [Cor::reset] calls in a
    trace of actions. *)
Definition constructions (log : list Scheduler.action) : nat :=
  length (List.filter Scheduler.is_new_cor log).
Definition resets (log : list Scheduler.action) : nat :=
  length (List.filter Scheduler.is_reset_cor log).

(** The queue entry that [schedule(f)] makes of a callback. *)
Definition callback_task (f : Callback) : Scheduler.ScheduleTask :=
  {| Scheduler.cor := None; Scheduler.cb := Some f; Scheduler.thread := -1 |}.

(** The number of bits set in a non-negative mask. *)
Fixpoint popcount_pos (p : positive) : Z :=
  match p with
  | xH => 1
  | xO p => popcount_pos p
  | xI p => 1 + popcount_pos p
  end.

Definition popcount (z : Z) : Z :=
  match z with
  | Zpos p => popcount_pos p
  | _ => 0
  end.

(** The sum over the fd contexts of the number of registered events. *)
Definition pending_sum (v : list (option IOManager.FdContext)) : Z :=
  foldr (λ o acc, from_option (λ c, popcount (IOManager.events c)) 0 o + acc)
        0 v.

(** The pending-event count agrees with the registrations. *)
Definition count_inv (io : IOManager.t) : Prop :=
  IOManager.m_pendingEventCount io = pending_sum (IOManager.m_fdContexts io).

(** Every entry of the table points to a context, and no mask is
    negative. *)
Definition table_wf (v : list (option IOManager.FdContext)) : Prop :=
  Forall (λ o, ∃ c, o = Some c ∧ 0 ≤ IOManager.events c) v.

(** The test [events & event] of the sources. *)
Definition bit_set (events event : Z) : bool :=
  negb (bool_decide (Z.land events event = 0)).

(** A slot that holds a scheduler and exactly one of a fiber and a
    callback. *)
Definition populated (e : IOManager.EventContext) : bool :=
  nonnull (IOManager.scheduler e)
  && xorb (nonnull (IOManager.cor e)) (nonnull (IOManager.cb e)).

(** In a context, each of the two bits is set exactly when its slot is
    populated. *)
Definition slots_inv (c : IOManager.FdContext) : Prop :=
  bit_set (IOManager.events c) IOManager.READ
    = populated (IOManager.read c)
  ∧ bit_set (IOManager.events c) IOManager.WRITE
    = populated (IOManager.write c).

Definition table_slots_inv (v : list (option IOManager.FdContext)) : Prop :=
  Forall (λ o, ∀ c, o = Some c → slots_inv c) v.

(** The context [addEvent] works on: the one the table holds for [fd],
    or the one [contextResize] creates for it. *)
Definition ctx_for (v : list (option IOManager.FdContext)) (fd : Z)
    : IOManager.FdContext :=
  match v !! Z.to_nat fd with
  | Some (Some c) => c
  | _ => IOManager.set_fd fd IOManager.FdContext_new
  end.

(** [m_fdContexts[fd]->triggerEvent(event)]: the table holds pointers, so
    the call changes the context the manager sees. *)
Definition trigger_at (fd : Z) (event : Z) (σ : gmap addr Scheduler.t)
    (io : IOManager.t)
    : outcome (gmap addr Scheduler.t * IOManager.t * list Scheduler.action) :=
  c ← IOManager.at_fd (IOManager.m_fdContexts io) fd;
  '(σ, c, log) ← IOManager.triggerEvent event σ c;
  mret (σ,
        IOManager.set_fdContexts
          (<[Z.to_nat fd := Some c]> (IOManager.m_fdContexts io)) io,
        log).

(** The table [addEvent] works on: the one it finds when [fd] is within
    it, else the one [contextResize(fd * 1.5)] makes. *)
Definition grown (v : list (option IOManager.FdContext)) (fd : Z)
    : list (option IOManager.FdContext) :=
  if bool_decide (fd < to_int (Z.of_nat (length v)))
  then v
  else IOManager.contextResize (fd * 3 / 2) v.

(** What [epoll_ctl] answers to the request [addEvent] makes for the
    context [c]. *)
Definition addEvent_rt (epoll_ctl : Z → Z → Z → Z → Z) (io : IOManager.t)
    (fd event : Z) (c : IOManager.FdContext) : Z :=
  epoll_ctl (IOManager.m_epfd io)
    (if bool_decide (IOManager.events c = 0)
     then IOManager.EPOLL_CTL_ADD else IOManager.EPOLL_CTL_MOD)
    fd
    (Z.lor (Z.lor IOManager.EPOLLET (IOManager.events c)) event).

(** What [epoll_ctl] answers to the request [delEvent] makes for the
    context [c]. *)
Definition delEvent_rt (epoll_ctl : Z → Z → Z → Z → Z) (io : IOManager.t)
    (fd event : Z) (c : IOManager.FdContext) : Z :=
  epoll_ctl (IOManager.m_epfd io)
    (if bool_decide (Z.land (IOManager.events c) (Z.lnot event) = 0)
     then IOManager.EPOLL_CTL_DEL else IOManager.EPOLL_CTL_MOD)
    fd
    (Z.lor IOManager.EPOLLET (Z.land (IOManager.events c) (Z.lnot event))).

(** The manager after a successful [addEvent] that put [ec] into slot
    [k] of the context [c] of [fd], in the table [v]. *)
Definition registered (io : IOManager.t)
    (v : list (option IOManager.FdContext)) (fd event : Z)
    (k : IOManager.slot) (ec : IOManager.EventContext)
    (c : IOManager.FdContext) : IOManager.t :=
  {| IOManager.m_epfd := IOManager.m_epfd io;
     IOManager.m_tickleFds := IOManager.m_tickleFds io;
     IOManager.m_pendingEventCount := IOManager.m_pendingEventCount io + 1;
     IOManager.m_fdContexts :=
       <[Z.to_nat fd :=
           Some (IOManager.set_slot k ec
                   (IOManager.set_events
                      (Z.lor (IOManager.events c) event) c))]> v |}.

(** The manager after a successful [delEvent] on the context [c] of
    [fd]. *)
Definition unregistered (io : IOManager.t) (fd event : Z)
    (k : IOManager.slot) (c : IOManager.FdContext) : IOManager.t :=
  {| IOManager.m_epfd := IOManager.m_epfd io;
     IOManager.m_tickleFds := IOManager.m_tickleFds io;
     IOManager.m_pendingEventCount := IOManager.m_pendingEventCount io - 1;
     IOManager.m_fdContexts :=
       <[Z.to_nat fd :=
           Some (IOManager.set_slot k IOManager.EventContext_empty
                   (IOManager.set_events
                      (Z.land (IOManager.events c) (Z.lnot event)) c))]>
         (IOManager.m_fdContexts io) |}.

(** What [triggerEvent] hands to [schedule] for a slot: its callback if
    it has one, else its fiber. *)
Definition occupant (e : IOManager.EventContext) : Scheduler.CorOrCb :=
  if nonnull (IOManager.cb e)
  then Scheduler.of_cb (IOManager.cb e)
  else Scheduler.of_cor (IOManager.cor e).

(** The context after [event] has been taken out of it. *)
Definition cleared (event : Z) (k : IOManager.slot)
    (c : IOManager.FdContext) : IOManager.FdContext :=
  IOManager.set_slot k IOManager.EventContext_empty
    (IOManager.set_events (Z.land (IOManager.events c) (Z.lnot event)) c).

(** A fiber object after its entry function has returned and the
    trampoline has yielded for the last time, and after a [yield()] from
    inside its entry function. *)
Definition finished (c : Cor.t) : Cor.t :=
  Cor.set_ctx (Cor.uc_saved Cor.in_yield)
    (Cor.set_state Cor.TERM (Cor.set_cb None c)).
Definition suspended (c : Cor.t) : Cor.t :=
  Cor.set_ctx (Cor.uc_saved Cor.in_yield) (Cor.set_state Cor.READY c).

(** The world once control is back in the main fiber [main] after the
    fiber [p] has been resumed and has become [c']. *)
Definition back_in_main (p main : addr) (c' cm : Cor.t) (w : Cor.World)
    : Cor.World :=
  {| Cor.heap :=
       <[p := c']>
         (<[main := Cor.set_ctx (Cor.uc_saved Cor.in_resume) cm]>
            (Cor.heap w));
     Cor.e_cor_id := Cor.e_cor_id w;
     Cor.e_cor_count := Cor.e_cor_count w;
     Cor.g_cor_stack_size := Cor.g_cor_stack_size w;
     Cor.t_cor := Some main;
     Cor.t_thread_cor := Cor.t_thread_cor w;
     Cor.cpu := Some (main, Cor.uc_saved Cor.in_resume) |}.

(** A fiber that [resume()] accepts and that will then run or go on
    running the function object [f]: READY, on a context made by the
    constructor or [reset], or stored by an earlier [yield()]. *)
Definition resumable (c : Cor.t) (f : Callback) : Prop :=
  Cor.m_state c = Cor.READY
  ∧ Cor.m_cb c = Some f
  ∧ ((∃ sp sz, Cor.m_ctx c = Cor.uc_made sp sz)
     ∨ Cor.m_ctx c = Cor.uc_saved Cor.in_yield).

(** The object [Cor::Cor()] makes of a thread's main fiber when the id
    counter stands at [i]. *)
Definition main_fiber_with_id (i : Z) : Cor.t :=
  {| Cor.m_id := i; Cor.m_stacksize := 0; Cor.m_state := Cor.RUNNING;
     Cor.m_ctx := Cor.uc_saved Cor.in_main_ctor; Cor.m_stack := 0;
     Cor.m_cb := None |}.

(** The ids of the fibers that exist lie below the id counter, and no two
    fibers share one. *)
Definition ids_inv (w : Cor.World) : Prop :=
  0 ≤ Cor.e_cor_id w
  ∧ (∀ p c, Cor.heap w !! p = Some c → 0 ≤ Cor.m_id c < Cor.e_cor_id w)
  ∧ (∀ p q c d, Cor.heap w !! p = Some c → Cor.heap w !! q = Some d →
                Cor.m_id c = Cor.m_id d → p = q).

(** Two worlds with the same counters, and with the same id at every
    address. *)
Definition same_ids (w w' : Cor.World) : Prop :=
  (Cor.e_cor_id w' = Cor.e_cor_id w
   ∧ Cor.e_cor_count w' = Cor.e_cor_count w)
  ∧ ∀ p, Cor.m_id <$> Cor.heap w' !! p = Cor.m_id <$> Cor.heap w !! p.

(** The counter of fibers agrees with the number of fiber objects that
    exist, up to the wrap-around of the counter. *)
Definition count_live (w : Cor.World) : Prop :=
  Cor.e_cor_count w = wrap64 (Z.of_nat (size (Cor.heap w))).

(** What a resumed fiber [c] has become when control is back in the main
    fiber: [finished] if its function object returns, [suspended] if it
    yields. *)
Definition ran (user : Callback → Scheduler.behaviour) (c : Cor.t) : Cor.t :=
  match Cor.m_cb c with
  | Some f =>
      match user f with
      | Scheduler.returns => finished c
      | Scheduler.yields => suspended c
      end
  | None => c
  end.

(** The function objects of the fibers of [ps] that have not run yet (their
    context is the one [makecontext] built), in the order of [ps]. *)
Definition first_calls (w : Cor.World) (ps : list addr) : list Callback :=
  flat_map (λ p, match Cor.heap w !! p with
                 | Some c =>
                     match Cor.m_ctx c, Cor.m_cb c with
                     | Cor.uc_made _ _, Some f => [f]
                     | _, _ => []
                     end
                 | None => []
                 end) ps.

(** A sequence of [schedule(cc, thread)] calls, with the [tickle()] calls
    they make. *)
Fixpoint schedule_all (ccs : list (Scheduler.CorOrCb * Z)) (s : Scheduler.t)
    : Scheduler.t * list Scheduler.action :=
  match ccs with
  | [] => (s, [])
  | (cc, thr) :: ccs =>
      let '(s, log) := Scheduler.schedule cc thr s in
      let '(s', log') := schedule_all ccs s in
      (s', log ++ log')
  end.

(** An argument of [schedule] that carries a fiber or a function
    object. *)
Definition carries_work (x : Scheduler.CorOrCb * Z) : bool :=
  nonnull (Scheduler.cor (Scheduler.ScheduleTask_of x.1 x.2))
  || nonnull (Scheduler.cb (Scheduler.ScheduleTask_of x.1 x.2)).

(** The ids of the threads a scheduler holds. *)
Definition th_ids (s : Scheduler.t) : list Z :=
  Scheduler.th_id <$> Scheduler.m_threads s.

(** The number of threads [start()] is to create for
    [Scheduler(threads, use_caller, _)]. *)
Definition workers (threads : Z) (use_caller : bool) : nat :=
  Z.to_nat (threads - if use_caller then 1 else 0).

(** The names of the flags of [flags] that are set in [events], in the
    order of [flags]. *)
Definition flag_names (events : Z) (flags : list (Z * string))
    : list string :=
  snd <$> List.filter (λ E, negb (bool_decide (Z.land events E.1 = 0))) flags.

(** Every context of the table records, as its [fd], the index it is
    stored at. *)
Definition fd_index_inv (v : list (option IOManager.FdContext)) : Prop :=
  ∀ i c, v !! i = Some (Some c) → IOManager.fd c = Z.of_nat i.

(** [v'] extends [v] and agrees with it everywhere but at [fd]. *)
Definition same_but_at (fd : Z) (v v' : list (option IOManager.FdContext))
    : Prop :=
  (length v ≤ length v')%nat
  ∧ ∀ i, i ≠ Z.to_nat fd → (i < length v)%nat → v' !! i = v !! i.

(** The handles a fiber holds to itself: the [cur] of [MainFunc], once
    the fiber has been entered. *)
Definition cur_held (c : Cor.t) : nat :=
  match Cor.m_ctx c with Cor.uc_made _ _ => 0 | _ => 1 end.

(** The handles after a [resume()] of the fiber [c] at [p] has come back,
    the function object having returned ([ret]) or yielded: [cur] is
    gone in the first case and there in the second. *)
Definition uses_ran (ret : bool) (c : Cor.t) (p : addr) (u : gmap addr nat)
    : gmap addr nat :=
  <[p := (Cor.use_count u p + (if ret then 0 else 1) - cur_held c)%nat]> u.

(** The world after the destructor of the fiber at [p] has run and the
    object is gone. *)
Definition destroyed (p : addr) (w : Cor.World) : Cor.World :=
  Cor.set_heap (delete p (Cor.heap w)) (Cor.decr_count w).

(** Whether user code returns. *)
Definition ends (b : Scheduler.behaviour) : bool :=
  match b with Scheduler.returns => true | Scheduler.yields => false end.

(** The passes of the loop of the single-threaded [run()] over the
    entries [l], entered with [task] holding the entry of the pass
    before: as [SimpleScheduler.run_from], but the entry of the last pass
    is returned, still held by [task]. *)
Fixpoint run_steps (user : Callback → Scheduler.behaviour)
    (task : option addr) (l : SimpleScheduler.t) (u : gmap addr nat)
    (w : Cor.World)
    : outcome (option addr * gmap addr nat * Cor.World * list Callback) :=
  match l with
  | [] => mret (task, u, w, [])
  | it :: l =>
      '(u, w) ← Cor.release_ptr task u w;
      match it with
      | Some p =>
          '(u, w, out) ← SimpleScheduler.resume_task_held user p u w;
          '(t, u, w, out') ← run_steps user (Some p) l u w;
          mret (t, u, w, out ++ out')
      | None => Undefined
      end
  end.

(** A fiber in the list of the single-threaded scheduler that [run()] can
    resume: ready, held by somebody besides itself (the list entry), and
    built on a stack. *)
Definition listed (u : gmap addr nat) (w : Cor.World) (p : addr) : Prop :=
  ∃ c f, Cor.heap w !! p = Some c ∧ resumable c f
         ∧ (cur_held c < Cor.use_count u p)%nat
         ∧ Cor.m_stack c ≠ 0.

(** The handles of the fiber [c], of which there were [n], once [run()]
    has resumed it and given up the handle of its list entry. *)
Definition left_over (user : Callback → Scheduler.behaviour) (c : Cor.t)
    (n : nat) : nat :=
  match Cor.m_cb c with
  | Some f => (n + (if ends (user f) then 0 else 1) - cur_held c - 1)%nat
  | None => n
  end.

(** What [run()] leaves of the fiber at [p]: it is gone when no handle
    is left over, and else it is [ran user c]. *)
Definition settled (user : Callback → Scheduler.behaviour)
    (u : gmap addr nat) (w : Cor.World) (u' : gmap addr nat)
    (w' : Cor.World) (p : addr) : Prop :=
  ∀ c, Cor.heap w !! p = Some c →
    Cor.use_count u' p = left_over user c (Cor.use_count u p)
    ∧ Cor.heap w' !! p
      = if bool_decide (left_over user c (Cor.use_count u p) = 0%nat)
        then None else Some (ran user c).

(** * Example states *)

Definition C10_world : Cor.World :=
  {| Cor.heap := {[ 5%nat := {| Cor.m_id := 7; Cor.m_stacksize := 0;
                                Cor.m_state := Cor.RUNNING;
                                Cor.m_ctx := Cor.uc_saved Cor.in_main_ctor;
                                Cor.m_stack := 0; Cor.m_cb := None |} ]};
     Cor.e_cor_id := 8; Cor.e_cor_count := 1;
     Cor.g_cor_stack_size := 128 * 1024;
     Cor.t_cor := Some 5%nat; Cor.t_thread_cor := Some 5%nat;
     Cor.cpu := None |}.


(** A thread whose main fiber (at address 0, id 0) has resumed the fiber
    at address 1 (id 1), which is running its entry function. *)
Definition main_fiber : Cor.t :=
  {| Cor.m_id := 0; Cor.m_stacksize := 0; Cor.m_state := Cor.RUNNING;
     Cor.m_ctx := Cor.uc_saved Cor.in_resume; Cor.m_stack := 0;
     Cor.m_cb := None |}.

Definition running_fiber : Cor.t :=
  {| Cor.m_id := 1; Cor.m_stacksize := 131072; Cor.m_state := Cor.RUNNING;
     Cor.m_ctx := Cor.uc_made 4096 131072; Cor.m_stack := 4096;
     Cor.m_cb := Some (cb_user 1) |}.

Definition world_running : Cor.World :=
  {| Cor.heap := <[1%nat := running_fiber]> (<[0%nat := main_fiber]> ∅);
     Cor.e_cor_id := 2; Cor.e_cor_count := 2;
     Cor.g_cor_stack_size := 128 * 1024;
     Cor.t_cor := Some 1%nat; Cor.t_thread_cor := Some 0%nat;
     Cor.cpu := Some (1%nat, Cor.uc_made 4096 131072) |}.

(** The same thread after the fiber at address 1 has run to its end and
    control is back in the main fiber. *)
Definition term_fiber : Cor.t :=
  {| Cor.m_id := 1; Cor.m_stacksize := 131072; Cor.m_state := Cor.TERM;
     Cor.m_ctx := Cor.uc_saved Cor.in_yield; Cor.m_stack := 4096;
     Cor.m_cb := None |}.

Definition world_term : Cor.World :=
  {| Cor.heap := <[1%nat := term_fiber]> (<[0%nat := main_fiber]> ∅);
     Cor.e_cor_id := 2; Cor.e_cor_count := 2;
     Cor.g_cor_stack_size := 128 * 1024;
     Cor.t_cor := Some 0%nat; Cor.t_thread_cor := Some 0%nat;
     Cor.cpu := Some (0%nat, Cor.uc_saved Cor.in_resume) |}.

(** A scheduler without caller thread whose queue holds three callbacks:
    the first pinned to thread 8, the second free, the third pinned to
    thread 7. *)
Definition task_for_8 : Scheduler.ScheduleTask :=
  {| Scheduler.cor := None; Scheduler.cb := Some (cb_user 1);
     Scheduler.thread := 8 |}.
Definition task_free : Scheduler.ScheduleTask :=
  {| Scheduler.cor := None; Scheduler.cb := Some (cb_user 2);
     Scheduler.thread := -1 |}.
Definition task_for_7 : Scheduler.ScheduleTask :=
  {| Scheduler.cor := None; Scheduler.cb := Some (cb_user 3);
     Scheduler.thread := 7 |}.

Definition sched_with (q : list Scheduler.ScheduleTask) : Scheduler.t :=
  {| Scheduler.m_name := "s"; Scheduler.m_threads := [];
     Scheduler.m_tasks := q; Scheduler.m_threadIds := [];
     Scheduler.m_threadCount := 2; Scheduler.m_activeThreadCount := 0;
     Scheduler.m_idleThreadCount := 0; Scheduler.m_useCaller := false;
     Scheduler.m_rootCor := None; Scheduler.m_rootThread := -1;
     Scheduler.m_stopping := false; Scheduler.m_rootFiber := None |}.

(** The operating system hands out thread ids from 7 on. *)
Definition spawn_from_7 (i : nat) : Z := 7 + Z.of_nat i.

(** [Scheduler sc(threads, use_caller, "s")] built at address 100 in a
    fresh process with [m_rootFiber] holding [rootFiber0], then
    [sc.start()] and [sc.schedule(cb)] for a user callback. *)
Definition started_scheduler (threads : Z) (use_caller : bool)
    (rootFiber0 : option addr)
    : outcome (Scheduler.t * option addr * Cor.World) :=
  '(s, t_scheduler, w) ←
    Scheduler.ctor 100%nat threads use_caller "s" 4096 rootFiber0 None
      Cor.World0;
  s ← Scheduler.start spawn_from_7 s;
  mret ((Scheduler.schedule (Scheduler.of_cb (Some (cb_user 1))) (-1) s).1,
        t_scheduler, w).

(** A worker thread that has entered [run()] of the scheduler at address
    100: its main fiber at address 0 and the idle fiber at address 1. *)
Definition idle_fiber : Cor.t :=
  {| Cor.m_id := 1; Cor.m_stacksize := 131072; Cor.m_state := Cor.READY;
     Cor.m_ctx := Cor.uc_made 4096 131072; Cor.m_stack := 4096;
     Cor.m_cb := Some (cb_idle 100%nat) |}.

Definition world_dispatch : Cor.World :=
  {| Cor.heap := <[1%nat := idle_fiber]> (<[0%nat := main_fiber]> ∅);
     Cor.e_cor_id := 2; Cor.e_cor_count := 2;
     Cor.g_cor_stack_size := 128 * 1024;
     Cor.t_cor := Some 0%nat; Cor.t_thread_cor := Some 0%nat;
     Cor.cpu := None |}.

Definition locals_dispatch : Scheduler.Locals :=
  {| Scheduler.idle_cor := 1%nat; Scheduler.cb_cor := None |}.

(** The handles on that thread: [t_thread_cor] holds the main fiber and
    [idle_cor] the idle fiber. *)
Definition uses_dispatch : gmap addr nat :=
  <[1%nat := 1%nat]> (<[0%nat := 1%nat]> ∅).

(** User code that always runs to its end, and a [malloc] that hands out
    a new block each time. *)
Definition user_returns (f : Callback) : Scheduler.behaviour :=
  Scheduler.returns.
Definition malloc_fresh (i : nat) : Z := 8192 + 4096 * Z.of_nat i.

(** An IO manager as its constructor leaves it (epoll handle 5, pipe
    6/7), a kernel that accepts every [epoll_ctl] and one that refuses
    every [epoll_ctl], and the scheduler part of the manager at address
    100 with an empty queue. *)
Definition io_fresh : IOManager.t :=
  {| IOManager.m_epfd := 5; IOManager.m_tickleFds := (6, 7);
     IOManager.m_pendingEventCount := 0;
     IOManager.m_fdContexts := IOManager.contextResize 32 [] |}.

Definition epoll_ok (epfd op fd events : Z) : Z := 0.
Definition epoll_refuses (epfd op fd events : Z) : Z := -1.

Definition schedulers_100 : gmap addr Scheduler.t :=
  {[ 100%nat := sched_with [] ]}.

(** The slot and the manager after [addEvent(3, READ, cb)] on a thread
    whose current scheduler is the manager at address 100. *)
Definition slot_cb_100 : IOManager.EventContext :=
  {| IOManager.scheduler := Some 100%nat; IOManager.cor := None;
     IOManager.cb := Some (cb_user 1) |}.

Definition io_read_3 : IOManager.t :=
  registered io_fresh (IOManager.m_fdContexts io_fresh) 3 IOManager.READ
    IOManager.slot_read slot_cb_100
    (IOManager.set_fd 3 IOManager.FdContext_new).

(** The context of fd 3 in [io_read_3], and what [triggerEvent(READ)]
    makes of it and of the schedulers. *)
Definition ctx_read_3 : IOManager.FdContext :=
  {| IOManager.read := slot_cb_100;
     IOManager.write := IOManager.EventContext_empty;
     IOManager.fd := 3; IOManager.events := 1 |}.

Definition ctx_triggered_3 : IOManager.FdContext :=
  {| IOManager.read := IOManager.EventContext_empty;
     IOManager.write := IOManager.EventContext_empty;
     IOManager.fd := 3; IOManager.events := 0 |}.

Definition schedulers_100_after : gmap addr Scheduler.t :=
  <[100%nat := sched_with [callback_task (cb_user 1)]]> schedulers_100.

(** The thread of [world_dispatch] and a fiber at address 2 that has been
    built for a user function and has not run yet. *)
Definition fresh_fiber : Cor.t :=
  {| Cor.m_id := 2; Cor.m_stacksize := 131072; Cor.m_state := Cor.READY;
     Cor.m_ctx := Cor.uc_made 8192 131072; Cor.m_stack := 8192;
     Cor.m_cb := Some (cb_user 5) |}.

Definition world_fresh : Cor.World :=
  {| Cor.heap := <[2%nat := fresh_fiber]>
                   (<[1%nat := idle_fiber]> (<[0%nat := main_fiber]> ∅));
     Cor.e_cor_id := 3; Cor.e_cor_count := 3;
     Cor.g_cor_stack_size := 128 * 1024;
     Cor.t_cor := Some 0%nat; Cor.t_thread_cor := Some 0%nat;
     Cor.cpu := None |}.

Definition uses_twice : gmap addr nat :=
  <[2%nat := 1%nat]> (<[1%nat := 2%nat]> (<[0%nat := 1%nat]> ∅)).

(** User code that always yields. *)
Definition user_yields (f : Callback) : Scheduler.behaviour :=
  Scheduler.yields.

(** * Properties *)

(** ** Fibers *)

Lemma deref_Some (w : Cor.World) (p : addr) (c : Cor.t) :
  Cor.heap w !! p = Some c → Cor.deref w p = Ret c.
Proof. intros H. unfold Cor.deref. by rewrite H. Qed.

Lemma new_addr_fresh (w : Cor.World) : Cor.heap w !! Cor.new_addr w = None.
Proof.
  unfold Cor.new_addr. apply not_elem_of_dom. apply is_fresh.
Qed.

(** C10: on a thread whose current-fiber pointer designates a fiber,
    [GetCorId] returns the id of that fiber; when the pointer is null it
    returns 0; and 0 is also the id that the global counter, still at its
    initial value, gives to the first fiber ever created, be it a thread's
    main fiber or a fiber with a stack. *)
Theorem C10_GetCorId (w : Cor.World) (p : addr) (c : Cor.t)
    (f : option Callback) (stacksize stack : Z) :
  (Cor.t_cor w = Some p → Cor.heap w !! p = Some c →
   Cor.GetCorId w = Ret (Cor.getId c))
  ∧ (Cor.t_cor w = None → Cor.GetCorId w = Ret 0)
  ∧ (Cor.e_cor_id w = 0 → Cor.t_cor w = None →
     ∃ q w', Cor.GetThis w = Ret (q, w')
             ∧ Cor.getId <$> Cor.heap w' !! q = Some 0
             ∧ Cor.t_cor w' = Some q
             ∧ Cor.GetCorId w' = Ret 0)
  ∧ (Cor.e_cor_id w = 0 →
     Cor.getId <$> Cor.heap (Cor.new f stacksize stack w).2
                     !! (Cor.new f stacksize stack w).1 = Some 0).
Proof.
  repeat split.
  - intros Ht Hc. unfold Cor.GetCorId. rewrite Ht.
    by rewrite (deref_Some _ _ _ Hc).
  - intros Ht. unfold Cor.GetCorId. by rewrite Ht.
  - intros Hid Ht. unfold Cor.GetThis. rewrite Ht.
    eexists _, _. split.
    + cbn. rewrite bool_decide_eq_true_2 by reflexivity. reflexivity.
    + simpl. rewrite !lookup_insert_eq. simpl. unfold Cor.getId. simpl.
      rewrite Hid.
      repeat split; try done.
      unfold Cor.GetCorId, Cor.deref. simpl.
      rewrite lookup_insert_eq. simpl. unfold Cor.getId. simpl.
      by rewrite ?Hid.
  - intros Hid. simpl. rewrite lookup_insert_eq. simpl.
    unfold Cor.getId. simpl. by rewrite Hid.
Qed.

Lemma C10_GetCorId_witness :
  Cor.GetCorId C10_world = Ret 7
  ∧ Cor.GetCorId Cor.World0 = Ret 0
  ∧ Cor.getId <$> Cor.heap (Cor.new None 0 4096 Cor.World0).2
                    !! (Cor.new None 0 4096 Cor.World0).1 = Some 0.
Proof.
  split; [|split].
  - apply (proj1 (C10_GetCorId C10_world 5%nat
                    {| Cor.m_id := 7; Cor.m_stacksize := 0;
                       Cor.m_state := Cor.RUNNING;
                       Cor.m_ctx := Cor.uc_saved Cor.in_main_ctor;
                       Cor.m_stack := 0; Cor.m_cb := None |} None 0 0));
      reflexivity.
  - apply (proj1 (proj2 (C10_GetCorId Cor.World0 0%nat Cor.default None 0 0)));
      reflexivity.
  - apply (proj2 (proj2 (proj2
             (C10_GetCorId Cor.World0 0%nat Cor.default None 0 4096))));
      reflexivity.
Defined.

(** ** The task queue *)

(** C9: [schedule] called with a null task, whether an empty fiber handle,
    a pointer to an empty fiber handle or an empty function object, leaves
    the scheduler and in particular its task queue as they were: nothing
    is appended.  (The call still tickles when the queue was empty.) *)
Theorem C9_schedule_null (s : Scheduler.t) (thr : Z) :
  Scheduler.schedule (Scheduler.of_cor None) thr s
    = (s, if bool_decide (Scheduler.m_tasks s = [])
          then [Scheduler.act_tickle] else [])
  ∧ Scheduler.schedule (Scheduler.of_cor_ptr None) thr s
    = (s, if bool_decide (Scheduler.m_tasks s = [])
          then [Scheduler.act_tickle] else [])
  ∧ Scheduler.schedule (Scheduler.of_cb None) thr s
    = (s, if bool_decide (Scheduler.m_tasks s = [])
          then [Scheduler.act_tickle] else [])
  ∧ Scheduler.m_tasks (Scheduler.schedule (Scheduler.of_cor None) thr s).1
    = Scheduler.m_tasks s
  ∧ Scheduler.m_tasks (Scheduler.schedule (Scheduler.of_cor_ptr None) thr s).1
    = Scheduler.m_tasks s
  ∧ Scheduler.m_tasks (Scheduler.schedule (Scheduler.of_cb None) thr s).1
    = Scheduler.m_tasks s.
Proof. repeat split. Qed.

(** ** Switching between fibers *)

(** C7: for a fiber [p] in state RUNNING or TERM on a thread that has a
    main fiber, [yield] first makes the main fiber the current fiber of
    the thread and turns the state of [p] into READY exactly when it was
    RUNNING (TERM stays TERM), nothing else about the fiber changing; then
    it stores the running context in [p] and activates the context held
    by the main fiber. *)
Theorem C7_yield (w : Cor.World) (p main : addr) (c cm : Cor.t) :
  Cor.heap w !! p = Some c →
  Cor.m_state c = Cor.RUNNING ∨ Cor.m_state c = Cor.TERM →
  Cor.t_thread_cor w = Some main →
  Cor.heap w !! main = Some cm →
  ∃ w1 w2,
    Cor.yield_prepare p w = Ret w1
    ∧ Cor.t_cor w1 = Some main
    ∧ Cor.heap w1 !! p
      = Some (Cor.set_state (yielded_state (Cor.m_state c)) c)
    ∧ (Cor.m_state c = Cor.RUNNING →
       Cor.m_state <$> Cor.heap w1 !! p = Some Cor.READY)
    ∧ (Cor.m_state c = Cor.TERM →
       Cor.m_state <$> Cor.heap w1 !! p = Some Cor.TERM)
    ∧ Cor.cpu w1 = Cor.cpu w
    ∧ Cor.yield p w = Ret w2
    ∧ w2 = Cor.set_cpu
             (Some (main, if bool_decide (p = main)
                          then Cor.uc_saved Cor.in_yield else Cor.m_ctx cm))
             (Cor.store p
                (Cor.set_ctx (Cor.uc_saved Cor.in_yield)
                   (Cor.set_state (yielded_state (Cor.m_state c)) c)) w1)
    ∧ Cor.t_cor w2 = Some main
    ∧ Cor.m_state <$> Cor.heap w2 !! p
      = Some (yielded_state (Cor.m_state c)).
Proof.
  intros Hp Hst Hmain Hcm.
  assert (Hprep : Cor.yield_prepare p w
    = Ret (if negb (bool_decide (Cor.m_state c = Cor.TERM))
           then Cor.store p (Cor.set_state Cor.READY c)
                  (Cor.SetThis (Cor.t_thread_cor w) w)
           else Cor.SetThis (Cor.t_thread_cor w) w)).
  { unfold Cor.yield_prepare. rewrite (deref_Some _ _ _ Hp). simpl.
    destruct Hst as [-> | ->]; reflexivity. }
  set (w1 := if negb (bool_decide (Cor.m_state c = Cor.TERM))
             then Cor.store p (Cor.set_state Cor.READY c)
                    (Cor.SetThis (Cor.t_thread_cor w) w)
             else Cor.SetThis (Cor.t_thread_cor w) w) in *.
  assert (Hp1 : Cor.heap w1 !! p
                = Some (Cor.set_state (yielded_state (Cor.m_state c)) c)).
  { subst w1. destruct Hst as [Hs | Hs]; rewrite Hs; simpl.
    - by rewrite lookup_insert_eq.
    - rewrite Hp. f_equal. destruct c; simpl in *; by subst. }
  assert (Ht1 : Cor.t_thread_cor w1 = Some main).
  { subst w1. by destruct (negb _). }
  assert (Hc1 : Cor.t_cor w1 = Some main).
  { subst w1. by destruct (negb _). }
  assert (Hm1 : p ≠ main → Cor.heap w1 !! main = Some cm).
  { intros Hne. subst w1. destruct (negb _); simpl; [|done].
    by rewrite lookup_insert_ne. }
  exists w1. eexists. split; [exact Hprep|].
  split; [exact Hc1|]. split; [exact Hp1|].
  split; [intros Hs; rewrite Hp1; simpl; by rewrite Hs|].
  split; [intros Hs; rewrite Hp1; simpl; by rewrite Hs|].
  split; [subst w1; by destruct (negb _)|].
  assert (Hy : Cor.yield p w = Ret (Cor.set_cpu
             (Some (main, if bool_decide (p = main)
                          then Cor.uc_saved Cor.in_yield else Cor.m_ctx cm))
             (Cor.store p
                (Cor.set_ctx (Cor.uc_saved Cor.in_yield)
                   (Cor.set_state (yielded_state (Cor.m_state c)) c)) w1))).
  { unfold Cor.yield. rewrite Hprep. simpl. rewrite Ht1.
    unfold Cor.swapcontext. rewrite (deref_Some _ _ _ Hp1). simpl.
    unfold Cor.deref. simpl.
    destruct (decide (p = main)) as [-> | Hne].
    - rewrite lookup_insert_eq. simpl.
      by rewrite bool_decide_eq_true_2.
    - rewrite lookup_insert_ne by done. rewrite (Hm1 Hne). simpl.
      by rewrite bool_decide_eq_false_2. }
  split; [exact Hy|]. split; [reflexivity|].
  split; [exact Hc1|].
  simpl. by rewrite lookup_insert_eq.
Qed.

Lemma C7_yield_witness :
  ∃ w1 w2,
    Cor.yield_prepare 1%nat world_running = Ret w1
    ∧ Cor.t_cor w1 = Some 0%nat
    ∧ Cor.m_state <$> Cor.heap w1 !! 1%nat = Some Cor.READY
    ∧ Cor.yield 1%nat world_running = Ret w2
    ∧ Cor.cpu w2 = Some (0%nat, Cor.uc_saved Cor.in_resume).
Proof.
  destruct (C7_yield world_running 1%nat 0%nat running_fiber main_fiber)
    as (w1 & w2 & H1 & H2 & H3 & H4 & H5 & H6 & H7 & H8 & H9 & H10).
  - reflexivity.
  - left. reflexivity.
  - reflexivity.
  - reflexivity.
  - exists w1, w2. split; [exact H1|]. split; [exact H2|].
    split; [apply H4; reflexivity|]. split; [exact H7|].
    rewrite H8. reflexivity.
Defined.

Lemma resume_ready (w : Cor.World) (p main : addr) (c cm : Cor.t) :
  Cor.heap w !! p = Some c →
  Cor.m_state c = Cor.READY →
  Cor.t_thread_cor w = Some main →
  Cor.heap w !! main = Some cm →
  main ≠ p →
  Cor.resume p w
  = Ret (Cor.set_cpu (Some (p, Cor.m_ctx c))
           (Cor.store main (Cor.set_ctx (Cor.uc_saved Cor.in_resume) cm)
              (Cor.store p (Cor.set_state Cor.RUNNING c)
                 (Cor.SetThis (Some p) w)))).
Proof.
  intros Hp Hst Hmain Hcm Hne.
  unfold Cor.resume. rewrite (deref_Some _ _ _ Hp). simpl. rewrite Hst. simpl.
  rewrite Hmain. unfold Cor.swapcontext, Cor.deref. simpl.
  rewrite lookup_insert_ne by done. rewrite Hcm. simpl.
  rewrite lookup_insert_ne by done. rewrite lookup_insert_eq. reflexivity.
Qed.

(** C8: on a fiber [p] with a stack and in state TERM, [reset(f)] keeps
    the stack pointer and the stack size, makes the state READY, points
    the context at the trampoline on that stack and binds [f]; the object
    then agrees in every member but its id with a fiber freshly
    constructed for [f] on the same stack, and [resume] of either one
    makes it the current fiber in state RUNNING, stores the main fiber's
    context, activates the trampoline context on that stack, and the
    trampoline invokes [f]. *)
Theorem C8_reset_as_fresh (w : Cor.World) (p q main : addr) (c cm : Cor.t)
    (f : Callback) (stacksize : Z) :
  Cor.heap w !! p = Some c →
  Cor.m_state c = Cor.TERM →
  Cor.m_stack c ≠ 0 →
  Cor.t_thread_cor w = Some main →
  Cor.heap w !! main = Some cm →
  main ≠ p →
  Cor.heap w !! q = None →
  wrap32 (if bool_decide (stacksize = 0)
          then Cor.g_cor_stack_size w else stacksize) = Cor.m_stacksize c →
  let wf := Cor.ctor q (Some f) stacksize (Cor.m_stack c) w in
  let uc := Cor.uc_made (Cor.m_stack c) (Cor.m_stacksize c) in
  ∃ wr cr cf wr' wf',
    Cor.reset p (Some f) w = Ret wr
    ∧ Cor.heap wr !! p = Some cr
    ∧ Cor.heap wf !! q = Some cf
    ∧ Cor.m_stack cr = Cor.m_stack c
    ∧ Cor.m_stacksize cr = Cor.m_stacksize c
    ∧ Cor.m_state cr = Cor.READY
    ∧ Cor.m_ctx cr = uc
    ∧ Cor.m_cb cr = Some f
    ∧ cr = with_id (Cor.m_id c) cf
    ∧ Cor.resume p wr = Ret wr'
    ∧ Cor.resume q wf = Ret wf'
    ∧ Cor.cpu wr' = Some (p, uc) ∧ Cor.cpu wf' = Some (q, uc)
    ∧ Cor.t_cor wr' = Some p ∧ Cor.t_cor wf' = Some q
    ∧ Cor.heap wr' !! p = Some (Cor.set_state Cor.RUNNING cr)
    ∧ Cor.heap wf' !! q = Some (Cor.set_state Cor.RUNNING cf)
    ∧ Cor.heap wr' !! main = Cor.heap wf' !! main
    ∧ Cor.MainFunc_enter wr' = Ret (p, f, wr')
    ∧ Cor.MainFunc_enter wf' = Ret (q, f, wf').
Proof.
  intros Hp Hst Hstack Hmain Hcm Hne Hq Hsize wf uc.
  assert (Hqm : main ≠ q) by (intros ->; congruence).
  set (cr := Cor.set_state Cor.READY
               (Cor.set_ctx uc (Cor.set_cb (Some f) c))).
  set (cf := with_id (Cor.e_cor_id w) cr).
  assert (Hreset : Cor.reset p (Some f) w = Ret (Cor.store p cr w)).
  { unfold Cor.reset. rewrite (deref_Some _ _ _ Hp). simpl.
    rewrite (bool_decide_eq_false_2 _ Hstack). simpl.
    rewrite (bool_decide_eq_true_2 _ Hst). reflexivity. }
  assert (Hwf : Cor.heap wf !! q = Some cf).
  { subst wf. unfold Cor.ctor. simpl. rewrite lookup_insert_eq.
    rewrite Hsize. reflexivity. }
  assert (Hwfm : Cor.heap wf !! main = Some cm).
  { subst wf. unfold Cor.ctor. simpl. by rewrite lookup_insert_ne. }
  assert (Hwft : Cor.t_thread_cor wf = Some main) by exact Hmain.
  assert (Hrp : Cor.heap (Cor.store p cr w) !! p = Some cr)
    by (simpl; apply lookup_insert_eq).
  assert (Hrm : Cor.heap (Cor.store p cr w) !! main = Some cm)
    by (simpl; by rewrite lookup_insert_ne).
  pose proof (resume_ready (Cor.store p cr w) p main cr cm
                Hrp eq_refl Hmain Hrm Hne) as Hres1.
  pose proof (resume_ready wf q main cf cm Hwf eq_refl Hwft Hwfm Hqm)
    as Hres2.
  eexists _, cr, cf, _, _.
  split; [exact Hreset|]. split; [exact Hrp|]. split; [exact Hwf|].
  do 5 (split; [reflexivity|]).
  split; [subst cf; destruct c; reflexivity|].
  split; [exact Hres1|]. split; [exact Hres2|].
  do 4 (split; [reflexivity|]).
  split. { simpl. rewrite lookup_insert_ne by done. apply lookup_insert_eq. }
  split. { simpl. rewrite lookup_insert_ne by done. apply lookup_insert_eq. }
  split. { simpl. by rewrite !lookup_insert_eq. }
  split.
  - unfold Cor.MainFunc_enter, Cor.GetThis, Cor.deref. simpl.
    rewrite lookup_insert_ne by done. rewrite lookup_insert_eq. simpl.
    rewrite lookup_insert_ne by done. rewrite lookup_insert_eq. reflexivity.
  - unfold Cor.MainFunc_enter, Cor.GetThis, Cor.deref. simpl.
    rewrite lookup_insert_ne by done. rewrite lookup_insert_eq. simpl.
    rewrite lookup_insert_ne by done. rewrite lookup_insert_eq. reflexivity.
Qed.

Lemma C8_reset_as_fresh_witness :
  ∃ wr cr cf wr' wf',
    Cor.reset 1%nat (Some (cb_user 2)) world_term = Ret wr
    ∧ Cor.heap wr !! 1%nat = Some cr
    ∧ Cor.heap (Cor.ctor 2%nat (Some (cb_user 2)) 0 4096 world_term) !! 2%nat
      = Some cf
    ∧ cr = with_id 1 cf
    ∧ Cor.resume 1%nat wr = Ret wr'
    ∧ Cor.resume 2%nat (Cor.ctor 2%nat (Some (cb_user 2)) 0 4096 world_term)
      = Ret wf'
    ∧ Cor.cpu wr' = Some (1%nat, Cor.uc_made 4096 131072)
    ∧ Cor.cpu wf' = Some (2%nat, Cor.uc_made 4096 131072)
    ∧ Cor.MainFunc_enter wr' = Ret (1%nat, cb_user 2, wr')
    ∧ Cor.MainFunc_enter wf' = Ret (2%nat, cb_user 2, wf').
Proof.
  destruct (C8_reset_as_fresh world_term 1%nat 2%nat 0%nat term_fiber
              main_fiber (cb_user 2) 0)
    as (wr & cr & cf & wr' & wf' & H).
  - reflexivity.
  - reflexivity.
  - discriminate.
  - reflexivity.
  - reflexivity.
  - discriminate.
  - reflexivity.
  - reflexivity.
  - exists wr, cr, cf, wr', wf'. tauto.
Defined.

(** ** The dispatch loop *)

Lemma scan_split (tid : Z) (w : Cor.World)
    (pre post before : list Scheduler.ScheduleTask)
    (x : Scheduler.ScheduleTask) (tickle_me : bool) :
  Forall (λ y, eligible tid y = false) pre →
  eligible tid x = true →
  dispatchable w x →
  Scheduler.scan tid w before (pre ++ x :: post) tickle_me
  = Ret (Some x, (before ++ pre) ++ post, post,
         tickle_me || negb (bool_decide (pre = []))).
Proof.
  intros Hpre Hx [Hnn Hready]. revert before tickle_me.
  induction Hpre as [| y pre Hy Hpre IH]; intros before tickle_me.
  - simpl. unfold eligible in Hx.
    replace (negb (bool_decide (Scheduler.thread x = -1))
             && negb (bool_decide (Scheduler.thread x = tid))) with false
      by (rewrite <- negb_orb, Hx; reflexivity).
    rewrite Hnn. simpl. rewrite app_nil_r, orb_false_r.
    destruct (Scheduler.cor x) as [p|] eqn:Hcor; [|reflexivity].
    destruct (Hready p eq_refl) as (c & Hc & Hst).
    rewrite (deref_Some _ _ _ Hc). simpl. unfold Cor.getState.
    rewrite (bool_decide_eq_true_2 _ Hst). reflexivity.
  - simpl. unfold eligible in Hy.
    replace (negb (bool_decide (Scheduler.thread y = -1))
             && negb (bool_decide (Scheduler.thread y = tid))) with true
      by (rewrite <- negb_orb, Hy; reflexivity).
    rewrite IH. rewrite orb_true_r. simpl.
    by rewrite <- !app_assoc.
Qed.

Lemma scan_none (tid : Z) (w : Cor.World)
    (q before : list Scheduler.ScheduleTask) (tickle_me : bool) :
  Forall (λ y, eligible tid y = false) q →
  Scheduler.scan tid w before q tickle_me
  = Ret (None, before ++ q, [], tickle_me || negb (bool_decide (q = []))).
Proof.
  intros Hq. revert before tickle_me.
  induction Hq as [| y q Hy Hq IH]; intros before tickle_me.
  - simpl. by rewrite app_nil_r, orb_false_r.
  - simpl. unfold eligible in Hy.
    replace (negb (bool_decide (Scheduler.thread y = -1))
             && negb (bool_decide (Scheduler.thread y = tid))) with true
      by (rewrite <- negb_orb, Hy; reflexivity).
    rewrite IH. rewrite orb_true_r. simpl. by rewrite <- !app_assoc.
Qed.

(** C6: whatever the queue and the worker, when [x] is the first entry in
    queue order that is pinned to -1 or to the worker's thread id (and it
    passes the assertions of the loop), one pass of the dispatch loop takes
    exactly [x], leaves the other entries in the order they had, raises the
    active count, and notes a tickle exactly when it stepped over an entry
    pinned elsewhere or entries follow the one removed, that is, when the
    queue is not empty afterwards.  When no entry is eligible the queue is
    untouched, no task is taken, and a tickle is noted exactly when the
    queue is not empty. *)
Theorem C6_take_first_eligible (tid : Z) (w : Cor.World) (s : Scheduler.t)
    (pre post : list Scheduler.ScheduleTask) (x : Scheduler.ScheduleTask) :
  (Scheduler.m_tasks s = pre ++ x :: post →
   Forall (λ y, eligible tid y = false) pre →
   eligible tid x = true →
   dispatchable w x →
   Scheduler.take tid w s
   = Ret (x,
          Scheduler.set_active
            (wrap64 (Scheduler.m_activeThreadCount s + 1))
            (Scheduler.set_tasks (pre ++ post) s),
          negb (bool_decide (pre = [])) || negb (bool_decide (post = [])))
   ∧ (negb (bool_decide (pre = [])) || negb (bool_decide (post = []))
      = negb (bool_decide (pre ++ post = []))))
  ∧ (Forall (λ y, eligible tid y = false) (Scheduler.m_tasks s) →
     Scheduler.take tid w s
     = Ret (Scheduler.ScheduleTask_empty, s,
            negb (bool_decide (Scheduler.m_tasks s = [])))).
Proof.
  split.
  - intros Hq Hpre Hx Hd. split.
    + unfold Scheduler.take. rewrite Hq.
      rewrite (scan_split tid w pre post [] x false Hpre Hx Hd).
      reflexivity.
    + destruct pre, post; reflexivity.
  - intros Hq. unfold Scheduler.take.
    rewrite (scan_none tid w _ [] false Hq). simpl.
    rewrite orb_false_r. by destruct s.
Qed.

Lemma C6_take_first_eligible_witness :
  Scheduler.take 7 Cor.World0 (sched_with [task_for_8; task_free; task_for_7])
  = Ret (task_free,
         Scheduler.set_active 1 (sched_with [task_for_8; task_for_7]),
         true)
  ∧ Scheduler.take 7 Cor.World0 (sched_with [task_for_8])
    = Ret (Scheduler.ScheduleTask_empty, sched_with [task_for_8], true).
Proof.
  split.
  - apply (proj1 (C6_take_first_eligible 7 Cor.World0
                    (sched_with [task_for_8; task_free; task_for_7])
                    [task_for_8] [task_for_7] task_free)).
    + reflexivity.
    + repeat constructor.
    + reflexivity.
    + split; [reflexivity | discriminate].
  - apply (proj2 (C6_take_first_eligible 7 Cor.World0
                    (sched_with [task_for_8]) [] [] task_free)).
    repeat constructor.
Defined.

(** ** Stopping the scheduler *)

Lemma tickles_app (l1 l2 : list Scheduler.action) :
  tickles (l1 ++ l2) = (tickles l1 + tickles l2)%nat.
Proof. unfold tickles. by rewrite List.filter_app, length_app. Qed.

Lemma tickles_replicate (n : nat) :
  tickles (replicate n Scheduler.act_tickle) = n.
Proof.
  unfold tickles. induction n as [|n IH]; [reflexivity|].
  simpl. by rewrite IH.
Qed.

Lemma tickles_join (ths : list Scheduler.Thread) :
  tickles (Scheduler.act_join <$> ths) = 0%nat.
Proof.
  unfold tickles. induction ths as [|th ths IH]; [reflexivity|exact IH].
Qed.

Lemma joined_app (l1 l2 : list Scheduler.action) :
  joined (l1 ++ l2) = joined l1 ++ joined l2.
Proof. unfold joined. apply omap_app. Qed.

Lemma joined_replicate (n : nat) :
  joined (replicate n Scheduler.act_tickle) = [].
Proof. induction n as [|n IH]; [reflexivity|exact IH]. Qed.

Lemma joined_join (ths : list Scheduler.Thread) :
  joined (Scheduler.act_join <$> ths) = ths.
Proof.
  induction ths as [|th ths IH]; [reflexivity|].
  unfold joined in *. simpl. f_equal. exact IH.
Qed.

(** What a call of [stop()] that gets past its two guards does, whether
    or not it returns: the number of tickles is the configured thread
    count plus one exactly when [m_rootFiber] is set, whatever
    [m_useCaller] and [m_rootCor] are, and a dispatch fiber in [m_rootCor]
    is resumed.  When there is no dispatch fiber, or when control comes
    back from it, the threads in [m_threads] are joined and the call
    returns. *)
Lemma stop_actions (this : addr) (t_scheduler : option addr)
    (resume_root : Scheduler.t → outcome Scheduler.t) (s : Scheduler.t) :
  Scheduler.stopping s = false →
  (if Scheduler.m_useCaller s
   then t_scheduler = Some this else t_scheduler ≠ Some this) →
  tickles (Scheduler.stop this t_scheduler resume_root s).1
  = (Z.to_nat (Scheduler.m_threadCount s)
     + if nonnull (Scheduler.m_rootFiber s) then 1 else 0)%nat
  ∧ match Scheduler.m_rootCor s with
    | Some p =>
        In (Scheduler.act_resume_root p)
           (Scheduler.stop this t_scheduler resume_root s).1
        ∧ ∀ s2, resume_root (Scheduler.set_stopping true s) = Ret s2 →
                (Scheduler.stop this t_scheduler resume_root s).2
                = Ret (Scheduler.set_threads [] (Scheduler.m_threadIds s2) s2)
                ∧ joined (Scheduler.stop this t_scheduler resume_root s).1
                  = Scheduler.m_threads s2
    | None =>
        (Scheduler.stop this t_scheduler resume_root s).2
        = Ret (Scheduler.set_threads [] (Scheduler.m_threadIds s)
                 (Scheduler.set_stopping true s))
        ∧ joined (Scheduler.stop this t_scheduler resume_root s).1
          = Scheduler.m_threads s
    end.
Proof.
  intros Hstop Hthis. unfold Scheduler.stop. rewrite Hstop.
  assert (Hassert :
    (if Scheduler.m_useCaller (Scheduler.set_stopping true s)
     then bool_decide (t_scheduler = Some this)
     else negb (bool_decide (t_scheduler = Some this))) = true).
  { simpl. destruct (Scheduler.m_useCaller s).
    - by apply bool_decide_eq_true_2.
    - by rewrite bool_decide_eq_false_2. }
  rewrite Hassert.
  change (Scheduler.m_rootCor (Scheduler.set_stopping true s))
    with (Scheduler.m_rootCor s).
  change (Scheduler.m_rootFiber (Scheduler.set_stopping true s))
    with (Scheduler.m_rootFiber s).
  change (Scheduler.m_threadCount (Scheduler.set_stopping true s))
    with (Scheduler.m_threadCount s).
  cbn [negb].
  destruct (Scheduler.m_rootCor s) as [p|].
  - split; [|split].
    + destruct (resume_root (Scheduler.set_stopping true s)) as [s2| |];
        cbn [fst]; rewrite !tickles_app, ?tickles_replicate, ?tickles_join;
        destruct (nonnull (Scheduler.m_rootFiber s)); unfold tickles; simpl;
        lia.
    + destruct (resume_root (Scheduler.set_stopping true s)) as [s2| |];
        cbn [fst]; rewrite !in_app_iff; right; right;
        first [left; by left | by left].
    + intros s2 ->. cbn [fst snd]. split; [reflexivity|].
      rewrite !joined_app, joined_replicate, joined_join.
      by destruct (nonnull (Scheduler.m_rootFiber s)).
  - cbn [fst snd]. split; [|split; [reflexivity|]].
    + rewrite !tickles_app, tickles_replicate, tickles_join.
      destruct (nonnull (Scheduler.m_rootFiber s)); unfold tickles; simpl;
        lia.
    + rewrite !joined_app, joined_replicate, joined_join.
      by destruct (nonnull (Scheduler.m_rootFiber s)).
Qed.

(** C2, the code at two inputs.  A scheduler built with [use_caller] and
    two threads has one worker thread and a caller dispatch fiber; with
    [m_rootFiber] null, [stop()] emits one tickle, not two, although it
    goes on to resume the dispatch fiber (and joins the worker if control
    comes back from there).  A scheduler built without [use_caller] has no
    dispatch fiber; with [m_rootFiber] not null, [stop()] emits three
    tickles for its two workers. *)
Theorem C2_stop_tickles_on_m_rootFiber
    (resume_root : Scheduler.t → outcome Scheduler.t) :
  (∃ s t_scheduler w root,
     started_scheduler 2 true None = Ret (s, t_scheduler, w)
     ∧ Scheduler.m_threadCount s = 1
     ∧ Scheduler.m_rootCor s = Some root
     ∧ tickles (Scheduler.stop 100%nat t_scheduler resume_root s).1 = 1%nat
     ∧ In (Scheduler.act_resume_root root)
          (Scheduler.stop 100%nat t_scheduler resume_root s).1
     ∧ ∀ s2, resume_root (Scheduler.set_stopping true s) = Ret s2 →
             ∃ s',
               (Scheduler.stop 100%nat t_scheduler resume_root s).2 = Ret s'
               ∧ length (joined (Scheduler.stop 100%nat t_scheduler
                                   resume_root s).1)
                 = length (Scheduler.m_threads s2))
  ∧ (∃ s t_scheduler w s' log,
       started_scheduler 2 false (Some 9%nat) = Ret (s, t_scheduler, w)
       ∧ Scheduler.m_threadCount s = 2
       ∧ Scheduler.m_rootCor s = None
       ∧ Scheduler.stop 100%nat t_scheduler resume_root s = (log, Ret s')
       ∧ tickles log = 3%nat
       ∧ length (joined log) = 2%nat).
Proof.
  split.
  - eexists _, _, _, _.
    split; [vm_compute; reflexivity|].
    split; [reflexivity|]. split; [reflexivity|].
    match goal with
    | |- tickles (Scheduler.stop ?a ?ts _ ?s).1 = _ ∧ _ =>
        destruct (stop_actions a ts resume_root s eq_refl eq_refl)
          as (Htk & Hin & Hret)
    end.
    split; [exact Htk|]. split; [exact Hin|].
    intros s2 Hs2. destruct (Hret s2 Hs2) as [Hr Hj].
    eexists. split; [exact Hr|]. by rewrite Hj.
  - eexists _, _, _, _, _.
    split; [vm_compute; reflexivity|].
    split; [reflexivity|]. split; [reflexivity|].
    split; [reflexivity|].
    split; reflexivity.
Qed.

(** ** Resuming a fiber and coming back *)

Lemma world_eq (w1 w2 : Cor.World) :
  Cor.heap w1 = Cor.heap w2 →
  Cor.e_cor_id w1 = Cor.e_cor_id w2 →
  Cor.e_cor_count w1 = Cor.e_cor_count w2 →
  Cor.g_cor_stack_size w1 = Cor.g_cor_stack_size w2 →
  Cor.t_cor w1 = Cor.t_cor w2 →
  Cor.t_thread_cor w1 = Cor.t_thread_cor w2 →
  Cor.cpu w1 = Cor.cpu w2 →
  w1 = w2.
Proof. destruct w1, w2; simpl; intros; by subst. Qed.

(** What the caller of [resume()] finds when control is back: the fiber is
    [finished] if its function object returned, [suspended] if it
    yielded; the main fiber holds the context stored by [resume]; no other
    fiber and no counter has changed. *)
Lemma resume_task_back (user : Callback → Scheduler.behaviour)
    (w : Cor.World) (p main : addr) (c cm : Cor.t) (f : Callback) :
  Cor.heap w !! p = Some c →
  resumable c f →
  Cor.t_thread_cor w = Some main →
  Cor.heap w !! main = Some cm →
  main ≠ p →
  SimpleScheduler.resume_task user p w
  = Ret (back_in_main p main
           (match user f with
            | Scheduler.returns => finished c
            | Scheduler.yields => suspended c
            end) cm w,
         match Cor.m_ctx c with Cor.uc_made _ _ => [f] | _ => [] end).
Proof.
  intros Hp (Hst & Hcb & Hctx) Hmain Hcm Hne.
  unfold SimpleScheduler.resume_task.
  rewrite (resume_ready w p main c cm Hp Hst Hmain Hcm Hne).
  assert (Hheap : ∀ c1 c3 c3' : Cor.t,
    c3 = c3' →
    <[p := c3]>
      (<[main := Cor.set_ctx (Cor.uc_saved Cor.in_resume) cm]>
         (<[p := c1]> (Cor.heap w)))
    = <[p := c3']>
        (<[main := Cor.set_ctx (Cor.uc_saved Cor.in_resume) cm]>
           (Cor.heap w))).
  { intros c1 c3 c3' <-.
    rewrite (insert_insert_ne (Cor.heap w) main p) by done.
    by rewrite insert_insert_eq. }
  destruct Hctx as [(sp & sz & Hctx) | Hctx]; rewrite Hctx; simpl.
  - unfold Cor.MainFunc_enter, Cor.GetThis, Cor.deref. simpl.
    rewrite lookup_insert_ne by done. rewrite lookup_insert_eq. simpl.
    rewrite lookup_insert_ne by done. rewrite lookup_insert_eq. simpl.
    rewrite Hcb. simpl.
    destruct (user f).
    + unfold Cor.MainFunc_leave, Cor.deref. simpl.
      rewrite lookup_insert_ne by done. rewrite lookup_insert_eq. simpl.
      rewrite lookup_insert_eq. simpl.
      unfold Cor.yield, Cor.yield_prepare, Cor.deref. simpl.
      rewrite lookup_insert_eq. simpl. rewrite Hmain.
      unfold Cor.swapcontext, Cor.deref. simpl.
      rewrite lookup_insert_eq. simpl.
      do 3 (rewrite lookup_insert_ne by done).
      rewrite lookup_insert_eq. simpl.
      do 2 f_equal. apply world_eq; try reflexivity. simpl.
      rewrite !insert_insert_eq. apply Hheap. by destruct c.
    + unfold Cor.yield, Cor.yield_prepare, Cor.deref. simpl.
      rewrite lookup_insert_ne by done. rewrite lookup_insert_eq. simpl.
      rewrite lookup_insert_ne by done. rewrite lookup_insert_eq. simpl.
      rewrite Hmain.
      unfold Cor.swapcontext, Cor.deref. simpl.
      rewrite lookup_insert_eq. simpl.
      do 2 (rewrite lookup_insert_ne by done).
      rewrite lookup_insert_eq. simpl.
      do 2 f_equal. apply world_eq; try reflexivity. simpl.
      rewrite !insert_insert_eq. apply Hheap. by destruct c.
  - unfold Cor.deref. simpl.
    rewrite lookup_insert_ne by done. rewrite lookup_insert_eq. simpl.
    rewrite Hcb.
    destruct (user f).
    + unfold Cor.MainFunc_leave, Cor.deref. simpl.
      rewrite lookup_insert_ne by done. rewrite lookup_insert_eq. simpl.
      rewrite lookup_insert_eq. simpl.
      unfold Cor.yield, Cor.yield_prepare, Cor.deref. simpl.
      rewrite lookup_insert_eq. simpl. rewrite Hmain.
      unfold Cor.swapcontext, Cor.deref. simpl.
      rewrite lookup_insert_eq. simpl.
      do 3 (rewrite lookup_insert_ne by done).
      rewrite lookup_insert_eq. simpl.
      do 2 f_equal. apply world_eq; try reflexivity. simpl.
      rewrite !insert_insert_eq. apply Hheap. by destruct c.
    + unfold Cor.GetThis, Cor.yield, Cor.yield_prepare, Cor.deref. simpl.
      rewrite lookup_insert_ne by done. rewrite lookup_insert_eq. simpl.
      rewrite lookup_insert_ne by done. rewrite lookup_insert_eq. simpl.
      rewrite Hmain.
      unfold Cor.swapcontext, Cor.deref. simpl.
      rewrite lookup_insert_eq. simpl.
      do 2 (rewrite lookup_insert_ne by done).
      rewrite lookup_insert_eq. simpl.
      do 2 f_equal. apply world_eq; try reflexivity. simpl.
      rewrite !insert_insert_eq. apply Hheap. by destruct c.
Qed.

(** The dispatcher of the N:M scheduler resumes a fiber exactly as the
    simple scheduler does, with [idle] known to it. *)
Lemma run_fiber_resume_task (user : Callback → Scheduler.behaviour)
    (this : addr) (s : Scheduler.t) (p : addr) (w : Cor.World) :
  Scheduler.run_fiber user this s p w
  = SimpleScheduler.resume_task (Scheduler.body user this s) p w
    ≫= λ r, mret r.1.
Proof.
  unfold Scheduler.run_fiber, SimpleScheduler.resume_task.
  destruct (Cor.resume p w) as [w1| |]; [|reflexivity..]. simpl.
  destruct (Cor.cpu w1) as [[q [|[]|]]|]; try reflexivity.
  - destruct (Cor.deref w1 q) as [c| |]; [|reflexivity..]. simpl.
    destruct (Cor.m_cb c) as [f|]; [|reflexivity].
    destruct (Scheduler.body user this s f).
    + by destruct (Cor.MainFunc_leave q w1).
    + destruct (Cor.GetThis w1) as [[me w2]| |]; [|reflexivity..]. simpl.
      by destruct (Cor.yield me w2).
  - destruct (Cor.MainFunc_enter w1) as [[[cur f] w2]| |]; [|reflexivity..].
    simpl. destruct (Scheduler.body user this s f).
    + by destruct (Cor.MainFunc_leave cur w2).
    + destruct (Cor.GetThis w2) as [[me w3]| |]; [|reflexivity..]. simpl.
      by destruct (Cor.yield me w3).
Qed.

Lemma run_fiber_back (user : Callback → Scheduler.behaviour)
    (this : addr) (s : Scheduler.t)
    (w : Cor.World) (p main : addr) (c cm : Cor.t) (f : Callback) :
  Cor.heap w !! p = Some c →
  resumable c f →
  Cor.t_thread_cor w = Some main →
  Cor.heap w !! main = Some cm →
  main ≠ p →
  Scheduler.run_fiber user this s p w
  = Ret (back_in_main p main
           (match Scheduler.body user this s f with
            | Scheduler.returns => finished c
            | Scheduler.yields => suspended c
            end) cm w).
Proof.
  intros Hp Hr Hmain Hcm Hne. rewrite run_fiber_resume_task.
  by rewrite (resume_task_back _ w p main c cm f Hp Hr Hmain Hcm Hne).
Qed.

(** ** Handles *)

Lemma use_count_insert (u : gmap addr nat) (p : addr) (n : nat) :
  Cor.use_count (<[p := n]> u) p = n.
Proof. unfold Cor.use_count. by rewrite lookup_insert_eq. Qed.

Lemma use_count_insert_ne (u : gmap addr nat) (p q : addr) (n : nat) :
  p ≠ q → Cor.use_count (<[p := n]> u) q = Cor.use_count u q.
Proof. intros H. unfold Cor.use_count. by rewrite lookup_insert_ne. Qed.

Lemma use_count_delete_ne (u : gmap addr nat) (p q : addr) :
  p ≠ q → Cor.use_count (delete p u) q = Cor.use_count u q.
Proof. intros H. unfold Cor.use_count. by rewrite lookup_delete_ne. Qed.

Lemma use_count_pos (u : gmap addr nat) (p : addr) :
  (0 < Cor.use_count u p)%nat → u !! p = Some (Cor.use_count u p).
Proof. unfold Cor.use_count. destruct (u !! p); [done|lia]. Qed.

Lemma uses_ran_count (ret : bool) (c : Cor.t) (p : addr) (u : gmap addr nat) :
  Cor.use_count (uses_ran ret c p u) p
  = (Cor.use_count u p + (if ret then 0 else 1) - cur_held c)%nat.
Proof. apply use_count_insert. Qed.

Lemma uses_ran_count_ne (ret : bool) (c : Cor.t) (p q : addr)
    (u : gmap addr nat) :
  p ≠ q → Cor.use_count (uses_ran ret c p u) q = Cor.use_count u q.
Proof. apply use_count_insert_ne. Qed.

(** The [cur] of [MainFunc], for a fiber that somebody else holds. *)
Lemma MainFunc_cur_back (p : addr) (c : Cor.t) (f : Callback)
    (u : gmap addr nat) (b : Scheduler.behaviour) :
  resumable c f →
  (cur_held c < Cor.use_count u p)%nat →
  Cor.MainFunc_cur p c
    (match b with
     | Scheduler.returns => finished c
     | Scheduler.yields => suspended c
     end) u
  = Ret (uses_ran (ends b) c p u).
Proof.
  intros (_ & _ & Hctx) Hu. unfold Cor.MainFunc_cur, uses_ran, cur_held in *.
  destruct Hctx as [(sp & sz & Hctx) | Hctx]; rewrite Hctx in *.
  - destruct b; simpl.
    + unfold Cor.acquire. rewrite use_count_insert.
      destruct (Cor.use_count u p) as [|n] eqn:Hn; [lia|].
      rewrite insert_insert_eq. do 2 f_equal. lia.
    + unfold Cor.acquire. do 2 f_equal. lia.
  - destruct b; simpl.
    + destruct (Cor.use_count u p) as [|[|n]] eqn:Hn; [lia..|].
      do 2 f_equal. lia.
    + f_equal. symmetry. apply insert_id.
      rewrite use_count_pos by lia. f_equal. lia.
Qed.

Lemma back_in_main_lookup (p main : addr) (c' cm : Cor.t) (w : Cor.World) :
  Cor.heap (back_in_main p main c' cm w) !! p = Some c'.
Proof. simpl. apply lookup_insert_eq. Qed.

(** [p->resume()] with the handles, for a fiber that is ready to be
    resumed and that somebody else holds. *)
Lemma run_fiber_held_back (user : Callback → Scheduler.behaviour)
    (this : addr) (s : Scheduler.t) (u : gmap addr nat)
    (w : Cor.World) (p main : addr) (c cm : Cor.t) (f : Callback) :
  Cor.heap w !! p = Some c →
  resumable c f →
  Cor.t_thread_cor w = Some main →
  Cor.heap w !! main = Some cm →
  main ≠ p →
  (cur_held c < Cor.use_count u p)%nat →
  Scheduler.run_fiber_held user this s p u w
  = Ret (uses_ran (ends (Scheduler.body user this s f)) c p u,
         back_in_main p main
           (match Scheduler.body user this s f with
            | Scheduler.returns => finished c
            | Scheduler.yields => suspended c
            end) cm w).
Proof.
  intros Hp Hr Hmain Hcm Hne Hu. unfold Scheduler.run_fiber_held.
  rewrite (deref_Some _ _ _ Hp).
  change (Ret c ≫= ?k) with (k c). cbv beta.
  rewrite (run_fiber_back user this s w p main c cm f Hp Hr Hmain Hcm Hne).
  change (Ret ?x ≫= ?k) with (k x). cbv beta.
  rewrite (deref_Some _ _ _ (back_in_main_lookup _ _ _ _ _)).
  change (Ret ?x ≫= ?k) with (k x). cbv beta.
  by rewrite (MainFunc_cur_back p c f u _ Hr Hu).
Qed.

Lemma resume_task_held_back (user : Callback → Scheduler.behaviour)
    (u : gmap addr nat) (w : Cor.World) (p main : addr) (c cm : Cor.t)
    (f : Callback) :
  Cor.heap w !! p = Some c →
  resumable c f →
  Cor.t_thread_cor w = Some main →
  Cor.heap w !! main = Some cm →
  main ≠ p →
  (cur_held c < Cor.use_count u p)%nat →
  SimpleScheduler.resume_task_held user p u w
  = Ret (uses_ran (ends (user f)) c p u,
         back_in_main p main
           (match user f with
            | Scheduler.returns => finished c
            | Scheduler.yields => suspended c
            end) cm w,
         match Cor.m_ctx c with Cor.uc_made _ _ => [f] | _ => [] end).
Proof.
  intros Hp Hr Hmain Hcm Hne Hu. unfold SimpleScheduler.resume_task_held.
  rewrite (deref_Some _ _ _ Hp).
  change (Ret c ≫= ?k) with (k c). cbv beta.
  rewrite (resume_task_back user w p main c cm f Hp Hr Hmain Hcm Hne).
  change (Ret ?x ≫= ?k) with (k x). cbv beta iota.
  rewrite (deref_Some _ _ _ (back_in_main_lookup _ _ _ _ _)).
  change (Ret ?x ≫= ?k) with (k x). cbv beta.
  by rewrite (MainFunc_cur_back p c f u _ Hr Hu).
Qed.

(** The last handle of a fiber with a stack that has run to its end: the
    destructor passes its assertion and the object is gone. *)
Lemma release_last (p : addr) (u : gmap addr nat) (w : Cor.World) (c : Cor.t) :
  Cor.use_count u p = 1%nat →
  Cor.heap w !! p = Some c →
  Cor.m_stack c ≠ 0 →
  Cor.m_state c = Cor.TERM →
  Cor.release p u w = Ret (delete p u, destroyed p w).
Proof.
  intros Hu Hp Hst Hterm. unfold Cor.release, Cor.destroy, Cor.dtor.
  rewrite Hu, (deref_Some _ _ _ Hp).
  change (Ret c ≫= ?k) with (k c). cbv beta.
  rewrite (bool_decide_eq_false_2 _ Hst),
    (bool_decide_eq_true_2 _ Hterm).
  reflexivity.
Qed.

(** A handle that is not the last. *)
Lemma release_shared (p : addr) (u : gmap addr nat) (w : Cor.World) (n : nat) :
  Cor.use_count u p = S (S n) →
  Cor.release p u w = Ret (<[p := S n]> u, w).
Proof. intros Hu. unfold Cor.release. by rewrite Hu. Qed.

(** ** Callbacks in the dispatch loop *)

Lemma constructions_app (l1 l2 : list Scheduler.action) :
  constructions (l1 ++ l2) = (constructions l1 + constructions l2)%nat.
Proof. unfold constructions. by rewrite List.filter_app, length_app. Qed.

Lemma resets_app (l1 l2 : list Scheduler.action) :
  resets (l1 ++ l2) = (resets l1 + resets l2)%nat.
Proof. unfold resets. by rewrite List.filter_app, length_app. Qed.

(** One pass of the loop over a queue headed by a callback that runs to
    its end, entered with an empty [cb_cor]: a fiber is built on the
    block [malloc] returned and runs the callback; [cb_cor.reset()] is
    its last handle, so it is destroyed again; no fiber is reset, and
    [cb_cor] is empty afterwards. *)
Lemma run_iteration_callback (user : Callback → Scheduler.behaviour)
    (stack : Z) (this : addr) (tid : Z) (s : Scheduler.t)
    (l : Scheduler.Locals) (u : gmap addr nat) (w : Cor.World)
    (f : Callback) (q : list Scheduler.ScheduleTask) (main : addr)
    (cm : Cor.t) :
  Scheduler.m_tasks s = callback_task f :: q →
  Scheduler.cb_cor l = None →
  Cor.t_thread_cor w = Some main →
  Cor.heap w !! main = Some cm →
  (∀ s', Scheduler.body user this s' f = Scheduler.returns) →
  stack ≠ 0 →
  ∃ w',
    Scheduler.run_iteration user stack this tid (s, l, u, w)
    = Ret (Scheduler.continue,
           (Scheduler.set_active
              (wrap64 (wrap64 (Scheduler.m_activeThreadCount s + 1) - 1))
              (Scheduler.set_active
                 (wrap64 (Scheduler.m_activeThreadCount s + 1))
                 (Scheduler.set_tasks q s)),
            l, delete (Cor.new_addr w) u, w'),
           (if bool_decide (q = []) then [] else [Scheduler.act_tickle])
             ++ [Scheduler.act_new_cor (Cor.new_addr w)])
    ∧ Cor.heap w'
      = <[main := Cor.set_ctx (Cor.uc_saved Cor.in_resume) cm]> (Cor.heap w)
    ∧ Cor.t_thread_cor w' = Some main
    ∧ Cor.t_cor w' = Some main
    ∧ Cor.e_cor_id w' = wrap64 (Cor.e_cor_id w + 1)
    ∧ Cor.e_cor_count w' = wrap64 (wrap64 (Cor.e_cor_count w + 1) - 1).
Proof.
  intros Hq Hl Hmain Hcm Hbody Hstack.
  destruct l as [il cl]. simpl in Hl. subst cl.
  unfold Scheduler.run_iteration, Scheduler.take. rewrite Hq.
  change (callback_task f :: q) with ([] ++ callback_task f :: q).
  rewrite (scan_split tid w [] q [] (callback_task f) false);
    [| constructor | reflexivity | split; [reflexivity | discriminate] ].
  simpl.
  assert (Hfresh := new_addr_fresh w).
  assert (Hne : main ≠ Cor.new_addr w) by (intros ->; congruence).
  set (c := Cor.new_addr w) in *.
  set (w1 := Cor.ctor c (Some f) 0 stack w).
  set (s1 := Scheduler.set_active
               (wrap64 (Scheduler.m_activeThreadCount s + 1))
               (Scheduler.set_tasks q s)).
  set (c0 := {| Cor.m_id := Cor.e_cor_id w;
                Cor.m_stacksize := wrap32 (Cor.g_cor_stack_size w);
                Cor.m_state := Cor.READY;
                Cor.m_ctx := Cor.uc_made stack
                               (wrap32 (Cor.g_cor_stack_size w));
                Cor.m_stack := stack; Cor.m_cb := Some f |}).
  assert (Hrun := run_fiber_held_back user this s1 (<[c := 1%nat]> u) w1 c
                    main c0 cm f).
  rewrite Hbody in Hrun.
  assert (Hu1 : uses_ran true c0 c (<[c := 1%nat]> u) = <[c := 1%nat]> u).
  { unfold uses_ran. rewrite use_count_insert. simpl.
    by rewrite insert_insert_eq. }
  simpl in Hrun. rewrite Hu1 in Hrun.
  unfold mret, outcome_ret. simpl. fold w1. rewrite Hrun; cycle 1.
  { subst w1. simpl. apply lookup_insert_eq. }
  { split; [done|]. split; [done|]. left. by eexists _, _. }
  { exact Hmain. }
  { subst w1. simpl. by rewrite lookup_insert_ne. }
  { exact Hne. }
  { rewrite use_count_insert. unfold cur_held. simpl. lia. }
  simpl.
  rewrite (release_last c (<[c := 1%nat]> u) _ (finished c0));
    [| apply use_count_insert | apply back_in_main_lookup | exact Hstack
     | reflexivity].
  simpl. rewrite delete_insert_eq.
  exists (destroyed c (back_in_main c main (finished c0) cm w1)). split.
  { by destruct (bool_decide (q = [])). }
  simpl. split.
  { rewrite delete_insert_eq.
    rewrite delete_insert_ne by done. rewrite delete_insert_eq.
    f_equal. by apply delete_id. }
  by split_and!.
Qed.

Lemma run_loop_S (n : nat) (user : Callback → Scheduler.behaviour)
    (mallocs : nat → Z) (this : addr) (tid : Z)
    (st : Scheduler.t * Scheduler.Locals * gmap addr nat * Cor.World) :
  Scheduler.run_loop (S n) user mallocs this tid st
  = Scheduler.run_iteration user (mallocs O) this tid st
    ≫= λ '(b, st, log),
         match b with
         | Scheduler.exit => mret (Scheduler.exit, st, log)
         | Scheduler.continue =>
             Scheduler.run_loop n user (λ i, mallocs (S i)) this tid st
             ≫= λ '(b, st, log'), mret (b, st, log ++ log')
         end.
Proof. reflexivity. Qed.

(** C3, what the code does: a worker that enters the loop with an empty
    [cb_cor] and finds [N] callbacks queued, each of which runs to its
    end, constructs a fiber for every one of them, [N] in all, and never
    calls [Cor::reset]: [cb_cor.reset()] at the end of each pass empties
    the handle, so the branch that would reuse the fiber is never taken.
    Each fiber, built on the block [malloc] returned, is destroyed at the
    end of its pass, so that no fiber other than the thread's main fiber
    has changed when the queue is empty. *)
Theorem C3_callback_fiber_per_task (user : Callback → Scheduler.behaviour)
    (mallocs : nat → Z) (this : addr) (tid : Z) (s : Scheduler.t)
    (l : Scheduler.Locals) (u : gmap addr nat) (w : Cor.World)
    (fs : list Callback) (main : addr) (cm : Cor.t) :
  Scheduler.m_tasks s = callback_task <$> fs →
  Scheduler.cb_cor l = None →
  Cor.t_thread_cor w = Some main →
  Cor.heap w !! main = Some cm →
  Forall (λ f, ∀ s', Scheduler.body user this s' f = Scheduler.returns) fs →
  (∀ i, mallocs i ≠ 0) →
  ∃ s' u' w' log,
    Scheduler.run_loop (length fs) user mallocs this tid (s, l, u, w)
    = Ret (Scheduler.continue, (s', l, u', w'), log)
    ∧ Scheduler.m_tasks s' = []
    ∧ constructions log = length fs
    ∧ resets log = 0%nat
    ∧ (∀ p, p ≠ main → Cor.heap w' !! p = Cor.heap w !! p).
Proof.
  intros Hq Hl Hmain Hcm Hfs Hmalloc.
  revert s u w mallocs cm Hq Hmain Hcm Hmalloc.
  induction Hfs as [| f fs Hf Hfs IH];
    intros s u w mallocs cm Hq Hmain Hcm Hmalloc.
  - simpl. eexists _, _, _, _. split; [reflexivity|].
    split; [by rewrite Hq|]. split; [reflexivity|]. split; [reflexivity|].
    done.
  - simpl in Hq.
    destruct (run_iteration_callback user (mallocs O) this tid s l u w f
                (callback_task <$> fs) main cm Hq Hl Hmain Hcm Hf
                (Hmalloc O))
      as (w1 & Hit & Hh1 & Ht1 & _).
    assert (Hm1 : Cor.heap w1 !! main
                  = Some (Cor.set_ctx (Cor.uc_saved Cor.in_resume) cm))
      by (rewrite Hh1; apply lookup_insert_eq).
    match type of Hit with
    | _ = Ret (_, (?s1, _, ?u1, _), ?log1) =>
        destruct (IH s1 u1 w1 (λ i, mallocs (S i)) _ eq_refl Ht1 Hm1
                    (λ i, Hmalloc (S i)))
          as (s2 & u2 & w2 & log2 & Hloop & Hq2 & Hc2 & Hr2 & Hfr2)
    end.
    change (length (f :: fs)) with (S (length fs)).
    rewrite run_loop_S, Hit. simpl. rewrite Hloop. simpl.
    eexists _, _, _, _. split; [reflexivity|].
    split; [exact Hq2|].
    rewrite !constructions_app, !resets_app, Hc2, Hr2.
    split; [by destruct (bool_decide _)|].
    split; [by destruct (bool_decide _)|].
    intros p Hp. rewrite Hfr2 by done. rewrite Hh1.
    by rewrite lookup_insert_ne.
Qed.

Lemma C3_callback_fiber_per_task_witness :
  ∃ s' u' w' log,
    Scheduler.run_loop 2 user_returns malloc_fresh 100%nat 7
      (sched_with [callback_task (cb_user 1); callback_task (cb_user 2)],
       locals_dispatch, uses_dispatch, world_dispatch)
    = Ret (Scheduler.continue, (s', locals_dispatch, u', w'), log)
    ∧ Scheduler.m_tasks s' = []
    ∧ constructions log = 2%nat
    ∧ resets log = 0%nat
    ∧ (∀ p, p ≠ 0%nat →
            Cor.heap w' !! p = Cor.heap world_dispatch !! p).
Proof.
  apply (C3_callback_fiber_per_task user_returns malloc_fresh 100%nat 7
           (sched_with [callback_task (cb_user 1); callback_task (cb_user 2)])
           locals_dispatch uses_dispatch world_dispatch
           [cb_user 1; cb_user 2] 0%nat main_fiber).
  - reflexivity.
  - reflexivity.
  - reflexivity.
  - reflexivity.
  - repeat constructor.
  - intros i. unfold malloc_fresh. lia.
Defined.

(** The same run, evaluated: two callbacks, two fibers built one after
    the other (the second at the address the first has left), no reset;
    two ids are used up, and the two fibers of the thread are the only
    ones that exist afterwards. *)
Example run_two_callbacks :
  ∃ s' w',
    Scheduler.run_loop 2 user_returns malloc_fresh 100%nat 7
      (sched_with [callback_task (cb_user 1); callback_task (cb_user 2)],
       locals_dispatch, uses_dispatch, world_dispatch)
    = Ret (Scheduler.continue, (s', locals_dispatch, uses_dispatch, w'),
           [Scheduler.act_tickle; Scheduler.act_new_cor 2%nat;
            Scheduler.act_new_cor 2%nat])
    ∧ Cor.e_cor_id w' = 4
    ∧ Cor.e_cor_count w' = 2
    ∧ size (Cor.heap w') = 2%nat.
Proof. eexists _, _. split; [vm_compute; reflexivity|]. by vm_compute. Qed.

(** Whatever the queue holds and whatever user code does, a pass entered
    with an empty [cb_cor] calls no [Cor::reset] and leaves [cb_cor]
    empty; so no pass of a worker's loop ever takes the reuse branch. *)
Lemma run_iteration_never_resets (user : Callback → Scheduler.behaviour)
    (stack : Z) (this : addr) (tid : Z) (s s' : Scheduler.t)
    (l l' : Scheduler.Locals) (u u' : gmap addr nat) (w w' : Cor.World)
    (b : Scheduler.status) (log : list Scheduler.action) :
  Scheduler.cb_cor l = None →
  Scheduler.run_iteration user stack this tid (s, l, u, w)
    = Ret (b, (s', l', u', w'), log) →
  Scheduler.cb_cor l' = None ∧ resets log = 0%nat.
Proof.
  intros Hl. unfold Scheduler.run_iteration.
  destruct (Scheduler.take tid w s) as [[[task s1] tickle_me]| |];
    [|discriminate..].
  simpl. destruct (Scheduler.cor task) as [p|].
  - destruct (Scheduler.run_fiber_held user this s1 p u w) as [[u1 w1]| |];
      [|discriminate..].
    simpl. destruct (Cor.release p u1 w1) as [[u2 w2]| |]; [|discriminate..].
    simpl. intros [= <- <- <- <- <- <-]. split; [exact Hl|].
    by destruct tickle_me.
  - destruct (Scheduler.cb task) as [f|].
    + rewrite Hl. simpl.
      destruct (Scheduler.run_fiber_held user this s1 _ _ _)
        as [[u1 w1]| |]; [|discriminate..].
      simpl. destruct (Cor.release _ u1 w1) as [[u2 w2]| |];
        [|discriminate..].
      simpl. intros [= <- <- <- <- <- <-]. split; [reflexivity|].
      rewrite resets_app. by destruct tickle_me.
    + destruct (Cor.deref w (Scheduler.idle_cor l)) as [c| |];
        [|discriminate..].
      simpl. destruct (bool_decide (Cor.getState c = Cor.TERM)).
      * intros [= <- <- <- <- <- <-]. split; [exact Hl|].
        by destruct tickle_me.
      * destruct (Scheduler.run_fiber_held user this _ _ u w)
          as [[u1 w1]| |]; [|discriminate..].
        simpl. intros [= <- <- <- <- <- <-]. split; [exact Hl|].
        by destruct tickle_me.
Qed.

Lemma run_loop_never_resets (n : nat) (user : Callback → Scheduler.behaviour)
    (mallocs : nat → Z) (this : addr) (tid : Z) (s s' : Scheduler.t)
    (l l' : Scheduler.Locals) (u u' : gmap addr nat) (w w' : Cor.World)
    (b : Scheduler.status) (log : list Scheduler.action) :
  Scheduler.cb_cor l = None →
  Scheduler.run_loop n user mallocs this tid (s, l, u, w)
    = Ret (b, (s', l', u', w'), log) →
  Scheduler.cb_cor l' = None ∧ resets log = 0%nat.
Proof.
  revert mallocs s l u w log s' l' u' w' b.
  induction n as [|n IH]; intros mallocs s l u w log s' l' u' w' b Hl.
  - simpl. intros [= <- <- <- <- <- <-]. by split.
  - rewrite run_loop_S.
    destruct (Scheduler.run_iteration user (mallocs O) this tid (s, l, u, w))
      as [[[b1 [[[s1 l1] u1] w1]] log1]| |] eqn:Hit; [|discriminate..].
    destruct (run_iteration_never_resets _ _ _ _ _ _ _ _ _ _ _ _ _ _ Hl Hit)
      as [Hl1 Hr1].
    simpl. destruct b1.
    + destruct (Scheduler.run_loop n user _ this tid (s1, l1, u1, w1))
        as [[[b2 [[[s2 l2] u2] w2]] log2]| |] eqn:Hloop; [|discriminate..].
      destruct (IH _ _ _ _ _ _ _ _ _ _ _ Hl1 Hloop) as [Hl2 Hr2].
      simpl. intros [= <- <- <- <- <- <-]. split; [exact Hl2|].
      rewrite resets_app. lia.
    + intros [= <- <- <- <- <- <-]. by split.
Qed.

(** ** Event masks *)

Lemma land_pow2_testbit (z i : Z) :
  0 ≤ i → Z.land z (2 ^ i) = 0 ↔ Z.testbit z i = false.
Proof.
  intros Hi. split.
  - intros H.
    assert (Hb : Z.testbit (Z.land z (2 ^ i)) i = false)
      by (rewrite H; apply Z.bits_0).
    rewrite Z.land_spec, Z.pow2_bits_true, andb_true_r in Hb by lia.
    exact Hb.
  - intros H. apply Z.bits_inj'. intros n Hn.
    rewrite Z.land_spec, Z.bits_0, Z.pow2_bits_eqb by lia.
    destruct (Z.eqb_spec i n) as [-> | Hne].
    + by rewrite H.
    + apply andb_false_r.
Qed.

Lemma bit_set_READ (e : Z) : bit_set e IOManager.READ = Z.testbit e 0.
Proof.
  unfold bit_set. pose proof (land_pow2_testbit e 0 (Z.le_refl 0)) as H.
  change (2 ^ 0) with IOManager.READ in H.
  destruct (Z.testbit e 0).
  - rewrite bool_decide_eq_false_2; [reflexivity|].
    intros E. apply H in E. discriminate.
  - rewrite bool_decide_eq_true_2; [reflexivity|]. by apply H.
Qed.

Lemma bit_set_WRITE (e : Z) : bit_set e IOManager.WRITE = Z.testbit e 2.
Proof.
  unfold bit_set.
  assert (H02 : 0 ≤ 2) by lia.
  pose proof (land_pow2_testbit e 2 H02) as H.
  change (2 ^ 2) with IOManager.WRITE in H.
  destruct (Z.testbit e 2).
  - rewrite bool_decide_eq_false_2; [reflexivity|].
    intros E. apply H in E. discriminate.
  - rewrite bool_decide_eq_true_2; [reflexivity|]. by apply H.
Qed.

Lemma popcount_set (e event : Z) :
  0 ≤ e →
  event = IOManager.READ ∨ event = IOManager.WRITE →
  Z.land e event = 0 →
  popcount (Z.lor e event) = popcount e + 1 ∧ 0 ≤ Z.lor e event.
Proof.
  intros He Hev Hland.
  split; [| apply Z.lor_nonneg; split; [lia | destruct Hev; subst; done]].
  destruct e as [|p|p]; [destruct Hev; subst; reflexivity | | lia].
  destruct Hev; subst event.
  - destruct p as [p|p|]; simpl in *; try discriminate; lia.
  - destruct p as [[[p|p|]|[p|p|]|]|[[p|p|]|[p|p|]|]|];
      simpl in *; try discriminate; lia.
Qed.

Lemma popcount_clear (e event : Z) :
  0 ≤ e →
  event = IOManager.READ ∨ event = IOManager.WRITE →
  Z.land e event ≠ 0 →
  popcount (Z.land e (Z.lnot event)) = popcount e - 1
  ∧ 0 ≤ Z.land e (Z.lnot event).
Proof.
  intros He Hev Hland.
  split; [| apply Z.land_nonneg; left; lia].
  destruct e as [|p|p]; [destruct Hev; subst; done | | lia].
  destruct Hev; subst event.
  - destruct p as [p|p|]; simpl in *; try done; lia.
  - destruct p as [[[p|p|]|[p|p|]|]|[[p|p|]|[p|p|]|]|];
      simpl in *; try done; lia.
Qed.

(** ** The table of fd contexts *)

Lemma getEventContext_Ret (event : Z) (k : IOManager.slot) :
  IOManager.getEventContext event = Ret k →
  (event = IOManager.READ ∧ k = IOManager.slot_read)
  ∨ (event = IOManager.WRITE ∧ k = IOManager.slot_write).
Proof.
  unfold IOManager.getEventContext.
  destruct (bool_decide_reflect (event = IOManager.READ)) as [-> | _].
  - intros [= <-]. by left.
  - destruct (bool_decide_reflect (event = IOManager.WRITE)) as [-> | _].
    + intros [= <-]. by right.
    + discriminate.
Qed.

Lemma to_int_small (z : Z) : 0 ≤ z < 2 ^ 31 → to_int z = z.
Proof.
  intros Hz. unfold to_int. rewrite Z.mod_small; lia.
Qed.

Lemma pending_sum_app (v1 v2 : list (option IOManager.FdContext)) :
  pending_sum (v1 ++ v2) = pending_sum v1 + pending_sum v2.
Proof.
  unfold pending_sum. induction v1 as [|o v1 IH]; simpl; [lia|].
  rewrite IH. lia.
Qed.

Lemma pending_sum_insert (v : list (option IOManager.FdContext)) (i : nat)
    (c c' : IOManager.FdContext) :
  v !! i = Some (Some c) →
  pending_sum (<[i := Some c']> v)
  = pending_sum v - popcount (IOManager.events c)
    + popcount (IOManager.events c').
Proof.
  revert i. induction v as [|o v IH]; intros i Hi; [done|].
  destruct i as [|i]; simpl in *.
  - injection Hi as ->. unfold pending_sum. simpl. lia.
  - unfold pending_sum in *. simpl. rewrite (IH i Hi). lia.
Qed.

Lemma imap_all_Some (F : nat → option IOManager.FdContext
                           → option IOManager.FdContext)
    (v : list (option IOManager.FdContext)) :
  (∀ i c, F i (Some c) = Some c) →
  Forall (λ o, ∃ c, o = Some c) v →
  imap F v = v.
Proof.
  intros HF Hv. revert F HF.
  induction Hv as [| o v [c ->] Hv IH]; intros F HF; [reflexivity|].
  simpl. rewrite HF. f_equal. apply IH. intros i c'. apply HF.
Qed.

(** Growing the table appends contexts that have just been created and
    leaves the ones that exist alone. *)
Lemma contextResize_grow (v : list (option IOManager.FdContext)) (n : Z) :
  table_wf v →
  Z.of_nat (length v) ≤ n →
  ∃ T,
    IOManager.contextResize n v = v ++ T
    ∧ Z.of_nat (length v + length T) = n
    ∧ ∀ i, (i < length T)%nat →
           T !! i = Some (Some (IOManager.set_fd
                                  (Z.of_nat (length v + i))
                                  IOManager.FdContext_new)).
Proof.
  intros Hwf Hn. unfold IOManager.contextResize.
  rewrite resize_ge by lia. rewrite imap_app.
  rewrite imap_all_Some; [| done |].
  2: { eapply Forall_impl; [exact Hwf|]. intros o (c & -> & _). eauto. }
  eexists. split; [reflexivity|].
  rewrite length_imap, length_replicate. split; [lia|].
  intros i Hi. rewrite list_lookup_imap.
  rewrite lookup_replicate_2 by lia. reflexivity.
Qed.

Lemma fresh_tail_sum (T : list (option IOManager.FdContext)) (k : nat) :
  (∀ i, (i < length T)%nat →
        T !! i = Some (Some (IOManager.set_fd (Z.of_nat (k + i))
                               IOManager.FdContext_new))) →
  pending_sum T = 0 ∧ table_wf T ∧ table_slots_inv T.
Proof.
  revert k. induction T as [|o T IH]; intros k HT.
  - repeat split; constructor.
  - assert (Ho := HT O ltac:(simpl; lia)). simpl in Ho.
    injection Ho as ->.
    destruct (IH (S k)) as (Hs & Hw & Hi).
    { intros i Hi. specialize (HT (S i) ltac:(simpl; lia)). simpl in HT.
      rewrite HT. do 3 f_equal. lia. }
    split; [| split].
    + unfold pending_sum in *. simpl. rewrite Hs. reflexivity.
    + constructor; [|exact Hw]. eexists. split; [reflexivity|]. simpl.
      unfold IOManager.NONE. lia.
    + constructor; [|exact Hi]. intros c [= <-]. split; reflexivity.
Qed.

(** The table [addEvent] goes on with, when [fd] is not negative and the
    size of the table fits an [int]. *)
Lemma grown_spec (v : list (option IOManager.FdContext)) (fd : Z) :
  table_wf v →
  Z.of_nat (length v) < 2 ^ 31 →
  0 ≤ fd →
  ∃ T,
    grown v fd = v ++ T
    ∧ pending_sum (grown v fd) = pending_sum v
    ∧ table_wf (grown v fd)
    ∧ (table_slots_inv v → table_slots_inv (grown v fd))
    ∧ ((Z.to_nat fd < length (grown v fd))%nat →
       grown v fd !! Z.to_nat fd = Some (Some (ctx_for v fd))).
Proof.
  intros Hwf Hlen Hfd. unfold grown.
  rewrite to_int_small by lia.
  destruct (bool_decide_reflect (fd < Z.of_nat (length v))) as [Hin | Hout].
  - exists []. rewrite app_nil_r. repeat split; try done.
    intros Hlt. unfold ctx_for.
    destruct (lookup_lt_is_Some_2 v (Z.to_nat fd) Hlt) as [o Ho].
    rewrite Ho.
    destruct (proj1 (Forall_lookup _ _) Hwf _ _ Ho) as (c & -> & _).
    reflexivity.
  - assert (Hn : Z.of_nat (length v) ≤ fd * 3 / 2).
    { assert (fd ≤ fd * 3 / 2) by (apply Z.div_le_lower_bound; lia). lia. }
    destruct (contextResize_grow v (fd * 3 / 2) Hwf Hn) as (T & -> & HlT & HT).
    destruct (fresh_tail_sum T (length v) HT) as (Hs & Hw & Hi).
    exists T. split; [reflexivity|].
    split; [rewrite pending_sum_app; lia|].
    split; [by apply Forall_app|].
    split; [intros Hv; by apply Forall_app|].
    rewrite length_app. intros Hlt.
    rewrite lookup_app_r by lia.
    rewrite HT by lia. unfold ctx_for.
    rewrite lookup_ge_None_2 by lia.
    do 3 f_equal. lia.
Qed.

(** ** addEvent and delEvent, case by case *)

Lemma at_fd_Ret (v : list (option IOManager.FdContext)) (fd : Z)
    (c : IOManager.FdContext) :
  IOManager.at_fd v fd = Ret c ↔ 0 ≤ fd ∧ v !! Z.to_nat fd = Some (Some c).
Proof.
  unfold IOManager.at_fd.
  destruct (bool_decide_reflect (fd < 0)) as [Hneg | Hpos].
  - split; [discriminate | lia].
  - destruct (v !! Z.to_nat fd) as [[c'|]|].
    + split; [intros [= ->]; split; [lia | done] | intros [_ [= ->]]; done].
    + split; [discriminate | intros [_ [=]]].
    + split; [discriminate | intros [_ [=]]].
Qed.

(** Every way in which [addEvent] returns. *)
Lemma addEvent_Ret (epoll_ctl : Z → Z → Z → Z → Z)
    (t_scheduler : option addr) (fd event : Z) (cb : option Callback)
    (io io' : IOManager.t) (w w' : Cor.World) (r : Z) :
  table_wf (IOManager.m_fdContexts io) →
  Z.of_nat (length (IOManager.m_fdContexts io)) < 2 ^ 31 →
  IOManager.addEvent epoll_ctl t_scheduler fd event cb io w
    = Ret (r, io', w') →
  let v := grown (IOManager.m_fdContexts io) fd in
  let c := ctx_for (IOManager.m_fdContexts io) fd in
  0 ≤ fd
  ∧ v !! Z.to_nat fd = Some (Some c)
  ∧ Z.land (IOManager.events c) event = 0
  ∧ ((r = -1 ∧ addEvent_rt epoll_ctl io fd event c ≠ 0
      ∧ io' = IOManager.set_fdContexts v io ∧ w' = w)
     ∨ (r = 0 ∧ addEvent_rt epoll_ctl io fd event c = 0
        ∧ ∃ k ec,
            IOManager.getEventContext event = Ret k
            ∧ IOManager.all_empty (IOManager.get_slot k c) = true
            ∧ io' = registered io v fd event k ec c
            ∧ ((∃ f, cb = Some f ∧ w' = w
                     ∧ ec = IOManager.set_cb (Some f)
                              (IOManager.set_scheduler t_scheduler
                                 (IOManager.get_slot k c)))
               ∨ (cb = None
                  ∧ ∃ p cc, Cor.GetThis w = Ret (p, w')
                            ∧ Cor.heap w' !! p = Some cc
                            ∧ Cor.m_state cc = Cor.RUNNING
                            ∧ ec = IOManager.set_cor (Some p)
                                     (IOManager.set_scheduler t_scheduler
                                        (IOManager.get_slot k c)))))).
Proof.
  intros Hwf Hlen Hret v c.
  unfold IOManager.addEvent in Hret.
  fold (grown (IOManager.m_fdContexts io) fd) in Hret. fold v in Hret.
  destruct (IOManager.at_fd v fd) as [c0| |] eqn:Hat; [|discriminate..].
  apply at_fd_Ret in Hat as [Hfd Hlook].
  destruct (grown_spec _ fd Hwf Hlen Hfd) as (T & _ & _ & _ & _ & Hctx).
  fold v c in Hctx.
  assert (Hv : v !! Z.to_nat fd = Some (Some c)).
  { apply Hctx. eapply lookup_lt_Some. exact Hlook. }
  rewrite Hv in Hlook. injection Hlook as <-.
  simpl in Hret.
  destruct (bool_decide_reflect (Z.land (IOManager.events c) event = 0))
    as [Hland | _]; [|discriminate].
  simpl in Hret.
  fold (addEvent_rt epoll_ctl io fd event c) in Hret.
  split; [exact Hfd|]. split; [exact Hv|]. split; [exact Hland|].
  destruct (bool_decide_reflect (addEvent_rt epoll_ctl io fd event c = 0))
    as [Hrt | Hrt]; simpl in Hret.
  - right.
    destruct (IOManager.getEventContext event) as [k| |] eqn:Hk;
      [|discriminate..].
    simpl in Hret.
    replace (IOManager.get_slot k
               (IOManager.set_events (Z.lor (IOManager.events c) event) c))
      with (IOManager.get_slot k c) in Hret by (by destruct k).
    destruct (IOManager.all_empty (IOManager.get_slot k c)) eqn:Hempty;
      [|discriminate].
    simpl in Hret.
    split; [| split; [exact Hrt|]].
    + destruct cb as [f|]; simpl in Hret.
      * by injection Hret.
      * destruct (Cor.GetThis w) as [[p w1]| |]; [|discriminate..].
        simpl in Hret.
        destruct (Cor.deref w1 p) as [cc| |]; [|discriminate..].
        simpl in Hret.
        destruct (bool_decide (Cor.getState cc = Cor.RUNNING));
          [|discriminate].
        simpl in Hret. by injection Hret.
    + exists k.
      destruct cb as [f|]; simpl in Hret.
      * injection Hret as _ <- <-. eexists. split; [reflexivity|].
        split; [exact Hempty|]. split; [reflexivity|].
        left. eauto.
      * destruct (Cor.GetThis w) as [[p w1]| |] eqn:Hthis; [|discriminate..].
        simpl in Hret. unfold Cor.deref in Hret.
        destruct (Cor.heap w1 !! p) as [cc|] eqn:Hcc; [|discriminate].
        simpl in Hret.
        destruct (bool_decide_reflect (Cor.getState cc = Cor.RUNNING))
          as [Hrun|_]; [|discriminate].
        simpl in Hret. injection Hret as _ <- <-.
        eexists. split; [reflexivity|].
        split; [exact Hempty|]. split; [reflexivity|].
        right. split; [reflexivity|]. eauto 10.
  - left. injection Hret as <- <- <-. done.
Qed.

(** Every way in which [delEvent] returns. *)
Lemma delEvent_Ret (epoll_ctl : Z → Z → Z → Z → Z) (fd event : Z)
    (io io' : IOManager.t) (b : bool) :
  IOManager.delEvent epoll_ctl fd event io = Ret (b, io') →
  (b = false ∧ io' = io)
  ∨ (b = true
     ∧ ∃ c k,
         0 ≤ fd
         ∧ IOManager.m_fdContexts io !! Z.to_nat fd = Some (Some c)
         ∧ Z.land (IOManager.events c) event ≠ 0
         ∧ delEvent_rt epoll_ctl io fd event c = 0
         ∧ IOManager.getEventContext event = Ret k
         ∧ io' = unregistered io fd event k c).
Proof.
  unfold IOManager.delEvent. intros Hret.
  destruct (bool_decide _); [injection Hret as <- <-; by left|].
  destruct (IOManager.at_fd (IOManager.m_fdContexts io) fd)
    as [c| |] eqn:Hat; [|discriminate..].
  apply at_fd_Ret in Hat as [Hfd Hlook]. simpl in Hret.
  destruct (bool_decide_reflect (Z.land (IOManager.events c) event = 0))
    as [_ | Hland]; [injection Hret as <- <-; by left|].
  fold (delEvent_rt epoll_ctl io fd event c) in Hret.
  destruct (bool_decide_reflect (delEvent_rt epoll_ctl io fd event c = 0))
    as [Hrt | _]; simpl in Hret; [|injection Hret as <- <-; by left].
  destruct (IOManager.getEventContext event) as [k| |] eqn:Hk;
    [|discriminate..].
  simpl in Hret. injection Hret as <- <-. right.
  split; [reflexivity|]. exists c, k. by repeat split.
Qed.

(** Every way in which [triggerEvent] returns. *)
Lemma triggerEvent_Ret (event : Z) (σ σ' : gmap addr Scheduler.t)
    (c c' : IOManager.FdContext) (log : list Scheduler.action) :
  IOManager.triggerEvent event σ c = Ret (σ', c', log) →
  Z.land (IOManager.events c) event ≠ 0
  ∧ ∃ k a s,
      IOManager.getEventContext event = Ret k
      ∧ IOManager.scheduler (IOManager.get_slot k c) = Some a
      ∧ σ !! a = Some s
      ∧ c' = cleared event k c
      ∧ σ' = <[a := (Scheduler.schedule
                       (occupant (IOManager.get_slot k c)) (-1) s).1]> σ
      ∧ log = (Scheduler.schedule
                 (occupant (IOManager.get_slot k c)) (-1) s).2.
Proof.
  unfold IOManager.triggerEvent. intros Hret.
  destruct (bool_decide_reflect (Z.land (IOManager.events c) event = 0))
    as [_ | Hland]; [discriminate|].
  simpl in Hret.
  destruct (IOManager.getEventContext event) as [k| |] eqn:Hk;
    [|discriminate..].
  simpl in Hret.
  replace (IOManager.get_slot k
             (IOManager.set_events
                (Z.land (IOManager.events c) (Z.lnot event)) c))
    with (IOManager.get_slot k c) in Hret by (by destruct k).
  destruct (IOManager.scheduler (IOManager.get_slot k c)) as [a|] eqn:Ha;
    [|discriminate].
  destruct (σ !! a) as [s|] eqn:Hs; [|discriminate].
  split; [exact Hland|]. exists k, a, s.
  unfold occupant.
  destruct (nonnull (IOManager.cb (IOManager.get_slot k c)));
    simpl in Hret.
  - destruct (Scheduler.schedule _ _ s) as [s' lg] eqn:Hsch.
    simpl in Hret. injection Hret as <- <- <-. by repeat split.
  - destruct (Scheduler.schedule _ _ s) as [s' lg] eqn:Hsch.
    simpl in Hret. injection Hret as <- <- <-. by repeat split.
Qed.

(** ** The pending-event count *)

Lemma events_set_slot (k : IOManager.slot) (e : IOManager.EventContext)
    (c : IOManager.FdContext) :
  IOManager.events (IOManager.set_slot k e c) = IOManager.events c.
Proof. by destruct k. Qed.

Lemma table_wf_insert (v : list (option IOManager.FdContext)) (i : nat)
    (c : IOManager.FdContext) :
  table_wf v → 0 ≤ IOManager.events c → table_wf (<[i := Some c]> v).
Proof.
  intros Hwf Hc. apply Forall_insert; [exact Hwf|]. eauto.
Qed.

Lemma table_wf_lookup (v : list (option IOManager.FdContext)) (i : nat)
    (c : IOManager.FdContext) :
  table_wf v → v !! i = Some (Some c) → 0 ≤ IOManager.events c.
Proof.
  intros Hwf Hi.
  destruct (proj1 (Forall_lookup _ _) Hwf _ _ Hi) as (c' & [= <-] & Hc).
  exact Hc.
Qed.

Lemma ctx_for_lookup (v : list (option IOManager.FdContext)) (fd : Z)
    (c : IOManager.FdContext) :
  v !! Z.to_nat fd = Some (Some c) → ctx_for v fd = c.
Proof. intros H. unfold ctx_for. by rewrite H. Qed.

(** C1, as the code has it: the constructor leaves the pending-event
    count equal to the sum over the fd contexts of the bits set in their
    masks; [addEvent] keeps the equality (returning 0 it raises the count
    by one and sets one bit, returning -1 it changes neither) and so does
    [delEvent] (returning true it lowers the count by one and clears one
    bit, returning false it changes nothing); [triggerEvent] clears one
    bit and leaves the count alone, so that after it the count is one
    above the sum. *)
Theorem C1_pending_count (epoll_ctl : Z → Z → Z → Z → Z)
    (t_scheduler : option addr) (fd event : Z) (cb : option Callback)
    (io io' : IOManager.t) (w w' : Cor.World) (r : Z) (b : bool)
    (σ σ' : gmap addr Scheduler.t) (log : list Scheduler.action)
    (epfd pipe_rt fcntl_rt : Z) (fds : Z * Z) :
  (IOManager.ctor epfd pipe_rt fds fcntl_rt = Ret io →
   count_inv io ∧ table_wf (IOManager.m_fdContexts io)
   ∧ length (IOManager.m_fdContexts io) = 32%nat)
  ∧ (table_wf (IOManager.m_fdContexts io) →
     Z.of_nat (length (IOManager.m_fdContexts io)) < 2 ^ 31 →
     count_inv io →
     IOManager.addEvent epoll_ctl t_scheduler fd event cb io w
       = Ret (r, io', w') →
     count_inv io' ∧ table_wf (IOManager.m_fdContexts io')
     ∧ (r = 0 ∨ r = -1)
     ∧ (r = 0 →
        IOManager.m_pendingEventCount io'
          = IOManager.m_pendingEventCount io + 1
        ∧ popcount (IOManager.events
                      (ctx_for (IOManager.m_fdContexts io') fd))
          = popcount (IOManager.events
                        (ctx_for (IOManager.m_fdContexts io) fd)) + 1)
     ∧ (r = -1 →
        IOManager.m_pendingEventCount io' = IOManager.m_pendingEventCount io
        ∧ IOManager.events (ctx_for (IOManager.m_fdContexts io') fd)
          = IOManager.events (ctx_for (IOManager.m_fdContexts io) fd)))
  ∧ (table_wf (IOManager.m_fdContexts io) →
     count_inv io →
     IOManager.delEvent epoll_ctl fd event io = Ret (b, io') →
     count_inv io' ∧ table_wf (IOManager.m_fdContexts io')
     ∧ (b = true →
        IOManager.m_pendingEventCount io'
          = IOManager.m_pendingEventCount io - 1
        ∧ popcount (IOManager.events
                      (ctx_for (IOManager.m_fdContexts io') fd))
          = popcount (IOManager.events
                        (ctx_for (IOManager.m_fdContexts io) fd)) - 1)
     ∧ (b = false → io' = io))
  ∧ (table_wf (IOManager.m_fdContexts io) →
     count_inv io →
     trigger_at fd event σ io = Ret (σ', io', log) →
     table_wf (IOManager.m_fdContexts io')
     ∧ IOManager.m_pendingEventCount io' = IOManager.m_pendingEventCount io
     ∧ popcount (IOManager.events (ctx_for (IOManager.m_fdContexts io') fd))
       = popcount (IOManager.events
                     (ctx_for (IOManager.m_fdContexts io) fd)) - 1
     ∧ IOManager.m_pendingEventCount io'
       = pending_sum (IOManager.m_fdContexts io') + 1).
Proof.
  split; [| split; [| split]].
  - unfold IOManager.ctor. intros Hret.
    destruct (bool_decide (0 < epfd)); [|discriminate].
    destruct (bool_decide (pipe_rt = 0)); [|discriminate].
    destruct (bool_decide (fcntl_rt = 0)); [|discriminate].
    simpl in Hret. injection Hret as <-. unfold count_inv. simpl.
    split; [reflexivity|]. split; [|reflexivity].
    repeat (constructor; [eexists; split; [reflexivity|simpl; done]|]).
    constructor.
  - intros Hwf Hlen Hinv Hret.
    destruct (grown_spec _ fd Hwf Hlen
                (proj1 (addEvent_Ret _ _ _ _ _ _ _ _ _ _ Hwf Hlen Hret)))
      as (T & _ & Hsum & Hwf1 & _ & _).
    destruct (addEvent_Ret _ _ _ _ _ _ _ _ _ _ Hwf Hlen Hret)
      as (Hfd & Hv & Hland & [(-> & Hrt & -> & ->) | (-> & Hrt & Hok)]).
    + simpl. unfold count_inv in *. simpl. rewrite Hsum.
      split; [exact Hinv|]. split; [exact Hwf1|]. split; [by right|].
      split; [discriminate|]. intros _. split; [reflexivity|].
      by rewrite (ctx_for_lookup _ _ _ Hv).
    + destruct Hok as (k & ec & Hk & Hempty & -> & _).
      pose proof (table_wf_lookup _ _ _ Hwf1 Hv) as Hnonneg.
      assert (Hev : event = IOManager.READ ∨ event = IOManager.WRITE)
        by (destruct (getEventContext_Ret _ _ Hk) as [[? _]|[? _]]; auto).
      destruct (popcount_set _ _ Hnonneg Hev Hland) as [Hpop Hnn].
      unfold count_inv in *. simpl.
      rewrite (pending_sum_insert _ _ _ _ Hv), events_set_slot. simpl.
      rewrite Hpop, Hsum.
      split; [lia|].
      split; [apply table_wf_insert; [exact Hwf1|];
              by rewrite events_set_slot|].
      split; [by left|].
      split; [|discriminate]. intros _. split; [reflexivity|].
      unfold ctx_for at 1. rewrite list_lookup_insert_eq
        by (eapply lookup_lt_Some; exact Hv).
      rewrite events_set_slot. exact Hpop.
  - intros Hwf Hinv Hret.
    destruct (delEvent_Ret _ _ _ _ _ _ Hret)
      as [[-> ->] | (-> & c & k & Hfd & Hv & Hland & Hrt & Hk & ->)].
    + split; [exact Hinv|]. split; [exact Hwf|]. split; [discriminate|done].
    + pose proof (table_wf_lookup _ _ _ Hwf Hv) as Hnonneg.
      assert (Hev : event = IOManager.READ ∨ event = IOManager.WRITE)
        by (destruct (getEventContext_Ret _ _ Hk) as [[? _]|[? _]]; auto).
      destruct (popcount_clear _ _ Hnonneg Hev Hland) as [Hpop Hnn].
      unfold count_inv in *. simpl.
      rewrite (pending_sum_insert _ _ _ _ Hv), events_set_slot. simpl.
      rewrite Hpop.
      split; [lia|].
      split; [apply table_wf_insert; [exact Hwf|];
              by rewrite events_set_slot|].
      split; [|discriminate]. intros _. split; [reflexivity|].
      unfold ctx_for at 1. rewrite list_lookup_insert_eq
        by (eapply lookup_lt_Some; exact Hv).
      rewrite events_set_slot, (ctx_for_lookup _ _ _ Hv). exact Hpop.
  - intros Hwf Hinv Hret. unfold trigger_at in Hret.
    destruct (IOManager.at_fd (IOManager.m_fdContexts io) fd)
      as [c| |] eqn:Hat; [|discriminate..].
    apply at_fd_Ret in Hat as [Hfd Hv]. simpl in Hret.
    destruct (IOManager.triggerEvent event σ c) as [[[σ1 c1] log1]| |]
      eqn:Htrig; [|discriminate..].
    simpl in Hret. injection Hret as <- <- <-.
    destruct (triggerEvent_Ret _ _ _ _ _ _ Htrig)
      as (Hland & k & a & s & Hk & _ & _ & -> & _ & _).
    pose proof (table_wf_lookup _ _ _ Hwf Hv) as Hnonneg.
    assert (Hev : event = IOManager.READ ∨ event = IOManager.WRITE)
      by (destruct (getEventContext_Ret _ _ Hk) as [[? _]|[? _]]; auto).
    destruct (popcount_clear _ _ Hnonneg Hev Hland) as [Hpop Hnn].
    unfold count_inv in *. simpl.
    rewrite (pending_sum_insert _ _ _ _ Hv). unfold cleared.
    rewrite events_set_slot. simpl. rewrite Hpop.
    split; [apply table_wf_insert; [exact Hwf|];
            by rewrite events_set_slot|].
    split; [reflexivity|].
    split; [|lia].
    unfold ctx_for at 1. rewrite list_lookup_insert_eq
      by (eapply lookup_lt_Some; exact Hv).
    rewrite events_set_slot, (ctx_for_lookup _ _ _ Hv). exact Hpop.
Qed.

Lemma C1_pending_count_witness :
  count_inv io_fresh
  ∧ count_inv io_read_3
  ∧ ∃ σ' io' log,
      trigger_at 3 IOManager.READ schedulers_100 io_read_3
        = Ret (σ', io', log)
      ∧ IOManager.m_pendingEventCount io'
        = pending_sum (IOManager.m_fdContexts io') + 1.
Proof.
  destruct (C1_pending_count epoll_ok (Some 100%nat) 3 IOManager.READ
              (Some (cb_user 1)) io_fresh io_read_3 Cor.World0 Cor.World0
              0 true schedulers_100 schedulers_100 [] 5 0 0 (6, 7))
    as (Hctor & Hadd & _ & _).
  destruct (Hctor eq_refl) as (Hinv0 & Hwf0 & Hlen0).
  assert (Hlen : Z.of_nat (length (IOManager.m_fdContexts io_fresh)) < 2 ^ 31)
    by (rewrite Hlen0; reflexivity).
  destruct (Hadd Hwf0 Hlen Hinv0 eq_refl) as (Hinv1 & Hwf1 & _).
  split; [exact Hinv0|]. split; [exact Hinv1|].
  destruct (C1_pending_count epoll_ok None 3 IOManager.READ None
              io_read_3
              (IOManager.set_fdContexts
                 (<[3%nat := Some (cleared IOManager.READ IOManager.slot_read
                                     (ctx_for (IOManager.m_fdContexts
                                                 io_read_3) 3))]>
                    (IOManager.m_fdContexts io_read_3)) io_read_3)
              Cor.World0 Cor.World0 0 true schedulers_100
              (<[100%nat := sched_with [callback_task (cb_user 1)]]>
                 schedulers_100)
              [Scheduler.act_tickle] 5 0 0 (6, 7))
    as (_ & _ & _ & Htrig).
  destruct (Htrig Hwf1 Hinv1 eq_refl) as (_ & _ & _ & Hcount).
  eexists _, _, _. split; [reflexivity|]. exact Hcount.
Defined.

(** C1 as stated fails for [triggerEvent]: on the manager that holds one
    registration (READ on fd 3), where count and sum are both 1, the call
    clears the bit and keeps the count, leaving count 1 against sum 0. *)
Lemma C1_counterexample :
  ∃ σ' io' log,
    count_inv io_read_3
    ∧ IOManager.addEvent epoll_ok (Some 100%nat) 3 IOManager.READ
        (Some (cb_user 1)) io_fresh Cor.World0
      = Ret (0, io_read_3, Cor.World0)
    ∧ trigger_at 3 IOManager.READ schedulers_100 io_read_3
      = Ret (σ', io', log)
    ∧ IOManager.m_pendingEventCount io' = 1
    ∧ pending_sum (IOManager.m_fdContexts io') = 0
    ∧ ¬ count_inv io'.
Proof.
  eexists _, _, _.
  split; [reflexivity|]. split; [reflexivity|].
  split; [vm_compute; reflexivity|].
  split; [reflexivity|]. split; [reflexivity|].
  unfold count_inv. vm_compute. discriminate.
Qed.

(** ** Registration failures *)

Lemma grown_length (v : list (option IOManager.FdContext)) (fd : Z) :
  table_wf v →
  (2 ≤ length v)%nat →
  Z.of_nat (length v) < 2 ^ 31 →
  0 ≤ fd →
  (Z.to_nat fd < length (grown v fd))%nat.
Proof.
  intros Hwf H2 Hlen Hfd. unfold grown. rewrite to_int_small by lia.
  destruct (bool_decide_reflect (fd < Z.of_nat (length v))) as [Hin | Hout];
    [lia|].
  assert (Hgrow : fd + 1 ≤ fd * 3 / 2)
    by (apply Z.div_le_lower_bound; lia).
  assert (Hn : Z.of_nat (length v) ≤ fd * 3 / 2) by lia.
  destruct (contextResize_grow v (fd * 3 / 2) Hwf Hn) as (T & -> & HlT & _).
  rewrite length_app. lia.
Qed.

Lemma bit_set_after_lor (e event : Z) :
  event = IOManager.READ ∨ event = IOManager.WRITE →
  bit_set (Z.lor e event) event = true.
Proof.
  intros [-> | ->].
  - rewrite bit_set_READ, Z.lor_spec. apply orb_true_r.
  - rewrite bit_set_WRITE, Z.lor_spec. apply orb_true_r.
Qed.

Lemma all_empty_eq (e : IOManager.EventContext) :
  IOManager.all_empty e = true → e = IOManager.EventContext_empty.
Proof.
  destruct e as [[?|] [?|] [?|]]; simpl; try discriminate. reflexivity.
Qed.

(** C4: for every descriptor [fd] and event whose bit is not yet set in
    the mask of [fd], when the [epoll_ctl] call inside [addEvent] fails,
    [addEvent] returns -1; the pending-event count, the epoll handle and
    the fiber world are as before, every context that existed is
    untouched, and the context of [fd] is the one it was, with the mask
    and the slots it had, so that an empty slot stays empty.  When the call
    succeeds for READ or WRITE with an empty slot, [addEvent] returns 0,
    the count is one higher, the bit is set in the mask of [fd], and the
    slot holds what [Scheduler::GetThis()] returns on the calling thread
    together with the callback, or, if none was given, with the current
    fiber, which must be RUNNING; the slot is populated exactly when the
    calling thread has a current scheduler. *)
Theorem C4_addEvent_failure_leaves_state (epoll_ctl : Z → Z → Z → Z → Z)
    (t_scheduler : option addr) (fd event : Z) (cb : option Callback)
    (io : IOManager.t) (w : Cor.World) (k : IOManager.slot) :
  let v := IOManager.m_fdContexts io in
  let c := ctx_for v fd in
  table_wf v →
  (2 ≤ length v)%nat →
  Z.of_nat (length v) < 2 ^ 31 →
  0 ≤ fd →
  bit_set (IOManager.events c) event = false →
  (addEvent_rt epoll_ctl io fd event c ≠ 0 →
   ∃ io',
     IOManager.addEvent epoll_ctl t_scheduler fd event cb io w
       = Ret (-1, io', w)
     ∧ IOManager.m_pendingEventCount io' = IOManager.m_pendingEventCount io
     ∧ IOManager.m_epfd io' = IOManager.m_epfd io
     ∧ IOManager.m_tickleFds io' = IOManager.m_tickleFds io
     ∧ v `prefix_of` IOManager.m_fdContexts io'
     ∧ IOManager.m_fdContexts io' !! Z.to_nat fd = Some (Some c)
     ∧ (IOManager.get_slot k c = IOManager.EventContext_empty →
        ∀ c', IOManager.m_fdContexts io' !! Z.to_nat fd = Some (Some c') →
              IOManager.events c' = IOManager.events c
              ∧ IOManager.get_slot k c' = IOManager.EventContext_empty))
  ∧ (addEvent_rt epoll_ctl io fd event c = 0 →
     IOManager.getEventContext event = Ret k →
     IOManager.get_slot k c = IOManager.EventContext_empty →
     (∀ f, cb = Some f →
        ∃ io' c',
          IOManager.addEvent epoll_ctl t_scheduler fd event cb io w
            = Ret (0, io', w)
          ∧ IOManager.m_pendingEventCount io'
            = IOManager.m_pendingEventCount io + 1
          ∧ IOManager.m_fdContexts io' !! Z.to_nat fd = Some (Some c')
          ∧ IOManager.events c' = Z.lor (IOManager.events c) event
          ∧ bit_set (IOManager.events c') event = true
          ∧ IOManager.get_slot k c'
            = {| IOManager.scheduler := t_scheduler;
                 IOManager.cor := None; IOManager.cb := Some f |}
          ∧ populated (IOManager.get_slot k c') = nonnull t_scheduler)
     ∧ (cb = None →
        ∀ p cc, Cor.t_cor w = Some p → Cor.heap w !! p = Some cc →
                Cor.m_state cc = Cor.RUNNING →
        ∃ io' c',
          IOManager.addEvent epoll_ctl t_scheduler fd event cb io w
            = Ret (0, io', w)
          ∧ IOManager.m_pendingEventCount io'
            = IOManager.m_pendingEventCount io + 1
          ∧ IOManager.m_fdContexts io' !! Z.to_nat fd = Some (Some c')
          ∧ IOManager.events c' = Z.lor (IOManager.events c) event
          ∧ bit_set (IOManager.events c') event = true
          ∧ IOManager.get_slot k c'
            = {| IOManager.scheduler := t_scheduler;
                 IOManager.cor := Some p; IOManager.cb := None |}
          ∧ populated (IOManager.get_slot k c') = nonnull t_scheduler)).
Proof.
  intros v c Hwf H2 Hlen Hfd Hbit.
  destruct (grown_spec v fd Hwf Hlen Hfd) as (T & HT & _ & _ & _ & Hctx).
  specialize (Hctx (grown_length v fd Hwf H2 Hlen Hfd)).
  fold c in Hctx.
  assert (Hat : IOManager.at_fd (grown v fd) fd = Ret c)
    by (apply at_fd_Ret; by split).
  assert (Hland : Z.land (IOManager.events c) event = 0).
  { unfold bit_set in Hbit. apply negb_false_iff in Hbit.
    by apply bool_decide_eq_true_1 in Hbit. }
  assert (Hfail :
    addEvent_rt epoll_ctl io fd event c ≠ 0 →
    IOManager.addEvent epoll_ctl t_scheduler fd event cb io w
    = Ret (-1, IOManager.set_fdContexts (grown v fd) io, w)).
  { intros Hrt. unfold IOManager.addEvent.
    fold v. fold (grown v fd). rewrite Hat. simpl.
    rewrite (bool_decide_eq_true_2 _ Hland). simpl.
    fold (addEvent_rt epoll_ctl io fd event c).
    by rewrite (bool_decide_eq_false_2 _ Hrt). }
  assert (Hok :
    addEvent_rt epoll_ctl io fd event c = 0 →
    IOManager.getEventContext event = Ret k →
    IOManager.get_slot k c = IOManager.EventContext_empty →
    IOManager.addEvent epoll_ctl t_scheduler fd event cb io w
    = ('(event_ctx, w') ←
         (if nonnull cb
          then mret (IOManager.set_cb cb
                       (IOManager.set_scheduler t_scheduler
                          IOManager.EventContext_empty), w)
          else
            '(p, w') ← Cor.GetThis w;
            cc ← Cor.deref w' p;
            _ ← EVENT_ASSERT (bool_decide (Cor.getState cc = Cor.RUNNING));
            mret (IOManager.set_cor (Some p)
                    (IOManager.set_scheduler t_scheduler
                       IOManager.EventContext_empty), w'));
       mret (0, registered io (grown v fd) fd event k event_ctx c, w'))).
  { intros Hrt Hk Hslot. unfold IOManager.addEvent.
    fold v. fold (grown v fd). rewrite Hat. simpl.
    rewrite (bool_decide_eq_true_2 _ Hland). simpl.
    fold (addEvent_rt epoll_ctl io fd event c).
    rewrite (bool_decide_eq_true_2 _ Hrt). simpl.
    rewrite Hk. simpl.
    replace (IOManager.get_slot k
               (IOManager.set_events (Z.lor (IOManager.events c) event) c))
      with (IOManager.get_slot k c) by (by destruct k).
    rewrite Hslot. reflexivity. }
  split.
  - intros Hrt. eexists. split; [exact (Hfail Hrt)|].
    simpl. split; [reflexivity|]. split; [reflexivity|].
    split; [reflexivity|].
    split; [rewrite HT; by apply prefix_app_r|].
    split; [exact Hctx|].
    intros Hslot c' Hc'. rewrite Hctx in Hc'. injection Hc' as <-. by split.
  - intros Hrt Hk Hslot.
    assert (Hev : event = IOManager.READ ∨ event = IOManager.WRITE)
      by (destruct (getEventContext_Ret _ _ Hk) as [[? _]|[? _]]; auto).
    split.
    + intros f ->. eexists _, _. split; [exact (Hok Hrt Hk Hslot)|].
      simpl. split; [reflexivity|].
      split; [apply list_lookup_insert_eq; eapply lookup_lt_Some;
              exact Hctx|].
      rewrite events_set_slot. simpl. split; [reflexivity|].
      split; [by apply bit_set_after_lor|].
      assert (Hs : ∀ e d, IOManager.get_slot k (IOManager.set_slot k e d) = e)
        by (intros e d; by destruct k).
      rewrite Hs. split; [reflexivity|].
      unfold populated. simpl. by destruct t_scheduler.
    + intros -> p cc Hp Hcc Hrun. eexists _, _. split.
      * rewrite (Hok Hrt Hk Hslot). simpl.
        unfold Cor.GetThis. rewrite Hp.
        rewrite (deref_Some _ _ _ Hcc). simpl.
        rewrite (deref_Some _ _ _ Hcc). simpl.
        unfold Cor.getState. rewrite (bool_decide_eq_true_2 _ Hrun).
        reflexivity.
      * simpl. split; [reflexivity|].
        split; [apply list_lookup_insert_eq; eapply lookup_lt_Some;
                exact Hctx|].
        rewrite events_set_slot. simpl. split; [reflexivity|].
        split; [by apply bit_set_after_lor|].
        assert (Hs : ∀ e d,
                  IOManager.get_slot k (IOManager.set_slot k e d) = e)
          by (intros e d; by destruct k).
        rewrite Hs. split; [reflexivity|].
        unfold populated. simpl. by destruct t_scheduler.
Qed.

Lemma io_fresh_wf : table_wf (IOManager.m_fdContexts io_fresh).
Proof.
  unfold table_wf. simpl.
  repeat (constructor; [eexists; split; [reflexivity|simpl; done]|]).
  constructor.
Qed.

Lemma C4_addEvent_failure_leaves_state_witness :
  (∃ io',
     IOManager.addEvent epoll_refuses (Some 100%nat) 40 IOManager.WRITE
       (Some (cb_user 1)) io_fresh Cor.World0
     = Ret (-1, io', Cor.World0)
     ∧ IOManager.m_pendingEventCount io' = 0
     ∧ IOManager.m_fdContexts io' !! 40%nat
       = Some (Some (IOManager.set_fd 40 IOManager.FdContext_new)))
  ∧ (∃ io' c',
       IOManager.addEvent epoll_ok (Some 100%nat) 3 IOManager.READ
         (Some (cb_user 1)) io_fresh Cor.World0
       = Ret (0, io', Cor.World0)
       ∧ IOManager.m_pendingEventCount io' = 1
       ∧ IOManager.m_fdContexts io' !! 3%nat = Some (Some c')
       ∧ IOManager.events c' = 1
       ∧ IOManager.read c' = slot_cb_100
       ∧ populated (IOManager.read c') = true).
Proof.
  assert (H2 : (2 ≤ length (IOManager.m_fdContexts io_fresh))%nat)
    by (simpl; lia).
  assert (Hlen : Z.of_nat (length (IOManager.m_fdContexts io_fresh)) < 2 ^ 31)
    by reflexivity.
  split.
  - destruct (C4_addEvent_failure_leaves_state epoll_refuses (Some 100%nat)
                40 IOManager.WRITE (Some (cb_user 1)) io_fresh Cor.World0
                IOManager.slot_write io_fresh_wf H2 Hlen
                ltac:(discriminate) eq_refl)
      as [Hfail _].
    destruct Hfail as (io' & H1 & H3 & _ & _ & _ & H5 & _);
      [discriminate|].
    exists io'. split; [exact H1|]. split; [exact H3|]. exact H5.
  - destruct (C4_addEvent_failure_leaves_state epoll_ok (Some 100%nat)
                3 IOManager.READ (Some (cb_user 1)) io_fresh Cor.World0
                IOManager.slot_read io_fresh_wf H2 Hlen
                ltac:(discriminate) eq_refl)
      as [_ Hok].
    destruct (proj1 (Hok eq_refl eq_refl eq_refl) (cb_user 1) eq_refl)
      as (io' & c' & H1 & H3 & H4 & H5 & _ & H6 & H7).
    exists io', c'. split; [exact H1|]. split; [exact H3|].
    split; [exact H4|]. split; [exact H5|]. split; [exact H6 | exact H7].
Defined.

(** C4, where the claim is too strong: on a thread that has no current
    scheduler, [addEvent] for WRITE on descriptor 3 of a fresh manager,
    with a kernel that accepts the request, returns 0 and sets the bit,
    and the slot it has written holds no scheduler: it is not
    populated. *)
Lemma C4_counterexample :
  ∃ io' c',
    IOManager.addEvent epoll_ok None 3 IOManager.WRITE (Some (cb_user 1))
      io_fresh Cor.World0
    = Ret (0, io', Cor.World0)
    ∧ IOManager.m_fdContexts io' !! 3%nat = Some (Some c')
    ∧ bit_set (IOManager.events c') IOManager.WRITE = true
    ∧ IOManager.scheduler (IOManager.write c') = None
    ∧ populated (IOManager.write c') = false.
Proof.
  eexists _, _. split; [vm_compute; reflexivity|].
  split; [reflexivity|]. split; [reflexivity|]. split; reflexivity.
Qed.

(** ** Bits and slots *)

Lemma bit_set_lor_other (e ev ev' : Z) :
  (ev = IOManager.READ ∧ ev' = IOManager.WRITE)
  ∨ (ev = IOManager.WRITE ∧ ev' = IOManager.READ) →
  bit_set (Z.lor e ev) ev' = bit_set e ev'.
Proof.
  intros [[-> ->] | [-> ->]].
  - rewrite !bit_set_WRITE, Z.lor_spec. apply orb_false_r.
  - rewrite !bit_set_READ, Z.lor_spec. apply orb_false_r.
Qed.

Lemma bit_set_clear (e ev : Z) :
  ev = IOManager.READ ∨ ev = IOManager.WRITE →
  bit_set (Z.land e (Z.lnot ev)) ev = false.
Proof.
  intros [-> | ->].
  - rewrite bit_set_READ, Z.land_spec. apply andb_false_r.
  - rewrite bit_set_WRITE, Z.land_spec. apply andb_false_r.
Qed.

Lemma bit_set_clear_other (e ev ev' : Z) :
  (ev = IOManager.READ ∧ ev' = IOManager.WRITE)
  ∨ (ev = IOManager.WRITE ∧ ev' = IOManager.READ) →
  bit_set (Z.land e (Z.lnot ev)) ev' = bit_set e ev'.
Proof.
  intros [[-> ->] | [-> ->]].
  - rewrite !bit_set_WRITE, Z.land_spec. apply andb_true_r.
  - rewrite !bit_set_READ, Z.land_spec. apply andb_true_r.
Qed.

(** Replacing the mask and the slot of one event keeps the other event's
    bit and slot in step. *)
Lemma slots_inv_update (event e' : Z) (k : IOManager.slot)
    (ec : IOManager.EventContext) (c : IOManager.FdContext) :
  IOManager.getEventContext event = Ret k →
  slots_inv c →
  bit_set e' event = populated ec →
  (∀ ev', (event = IOManager.READ ∧ ev' = IOManager.WRITE)
          ∨ (event = IOManager.WRITE ∧ ev' = IOManager.READ) →
          bit_set e' ev' = bit_set (IOManager.events c) ev') →
  slots_inv (IOManager.set_slot k ec (IOManager.set_events e' c)).
Proof.
  intros Hk [Hr Hw] Hbit Hother.
  destruct (getEventContext_Ret _ _ Hk) as [[-> ->] | [-> ->]];
    split; simpl.
  - exact Hbit.
  - rewrite Hother by (left; done). exact Hw.
  - rewrite Hother by (right; done). exact Hr.
  - exact Hbit.
Qed.

Lemma table_slots_inv_insert (v : list (option IOManager.FdContext))
    (i : nat) (c : IOManager.FdContext) :
  table_slots_inv v → slots_inv c → table_slots_inv (<[i := Some c]> v).
Proof.
  intros Hv Hc. apply Forall_insert; [exact Hv|]. by intros c' [= <-].
Qed.

Lemma table_slots_inv_lookup (v : list (option IOManager.FdContext))
    (i : nat) (c : IOManager.FdContext) :
  table_slots_inv v → v !! i = Some (Some c) → slots_inv c.
Proof.
  intros Hv Hi. exact (proj1 (Forall_lookup _ _) Hv _ _ Hi c eq_refl).
Qed.

Lemma io_fresh_slots_inv : table_slots_inv (IOManager.m_fdContexts io_fresh).
Proof.
  unfold table_slots_inv. simpl.
  repeat (constructor; [intros c [= <-]; split; reflexivity|]).
  constructor.
Qed.

Lemma populated_after_add (t_scheduler : option addr)
    (e ec : IOManager.EventContext) (cb : option Callback) (p : addr) :
  IOManager.all_empty e = true →
  (∃ f, cb = Some f
        ∧ ec = IOManager.set_cb (Some f)
                 (IOManager.set_scheduler t_scheduler e))
  ∨ ec = IOManager.set_cor (Some p) (IOManager.set_scheduler t_scheduler e) →
  populated ec = nonnull t_scheduler.
Proof.
  intros He Hec. rewrite (all_empty_eq _ He) in Hec.
  destruct Hec as [(f & _ & ->) | ->]; unfold populated; simpl;
    by destruct t_scheduler.
Qed.

Lemma schedule_occupant (e : IOManager.EventContext) (s : Scheduler.t) :
  populated e = true →
  Scheduler.m_tasks (Scheduler.schedule (occupant e) (-1) s).1
  = Scheduler.m_tasks s ++ [Scheduler.ScheduleTask_of (occupant e) (-1)]
  ∧ (Scheduler.ScheduleTask_of (occupant e) (-1)
     = {| Scheduler.cor := IOManager.cor e; Scheduler.cb := IOManager.cb e;
          Scheduler.thread := -1 |}).
Proof.
  destruct e as [sch [p|] [f|]]; unfold populated, occupant; simpl;
    destruct sch; simpl; try discriminate; intros _; split; reflexivity.
Qed.

(** C5, as the code has it: the constructor builds contexts in which each
    bit is set exactly when its slot is populated; [addEvent] called on a
    thread that has a current scheduler keeps this so, and returning 0 it
    has set the bit and populated the slot; [delEvent] keeps it so, and
    returning true it has cleared the bit and emptied the slot;
    [triggerEvent] keeps it so, clears the bit, appends the occupant of
    the slot to the queue of the slot's scheduler and empties the slot. *)
Theorem C5_bits_and_slots (epoll_ctl : Z → Z → Z → Z → Z)
    (t_scheduler : option addr) (fd event : Z) (cb : option Callback)
    (io io' : IOManager.t) (w w' : Cor.World) (r : Z) (b : bool)
    (σ σ' : gmap addr Scheduler.t) (log : list Scheduler.action)
    (c c' : IOManager.FdContext)
    (epfd pipe_rt fcntl_rt : Z) (fds : Z * Z) :
  (IOManager.ctor epfd pipe_rt fds fcntl_rt = Ret io →
   table_slots_inv (IOManager.m_fdContexts io))
  ∧ (table_wf (IOManager.m_fdContexts io) →
     Z.of_nat (length (IOManager.m_fdContexts io)) < 2 ^ 31 →
     table_slots_inv (IOManager.m_fdContexts io) →
     nonnull t_scheduler = true →
     IOManager.addEvent epoll_ctl t_scheduler fd event cb io w
       = Ret (r, io', w') →
     table_slots_inv (IOManager.m_fdContexts io')
     ∧ (r = 0 →
        ∃ k c1,
          IOManager.getEventContext event = Ret k
          ∧ IOManager.m_fdContexts io' !! Z.to_nat fd = Some (Some c1)
          ∧ bit_set (IOManager.events
                       (ctx_for (IOManager.m_fdContexts io) fd)) event
            = false
          ∧ bit_set (IOManager.events c1) event = true
          ∧ populated (IOManager.get_slot k c1) = true))
  ∧ (table_slots_inv (IOManager.m_fdContexts io) →
     IOManager.delEvent epoll_ctl fd event io = Ret (b, io') →
     table_slots_inv (IOManager.m_fdContexts io')
     ∧ (b = true →
        ∃ k c0 c1,
          IOManager.getEventContext event = Ret k
          ∧ IOManager.m_fdContexts io !! Z.to_nat fd = Some (Some c0)
          ∧ IOManager.m_fdContexts io' !! Z.to_nat fd = Some (Some c1)
          ∧ bit_set (IOManager.events c0) event = true
          ∧ bit_set (IOManager.events c1) event = false
          ∧ IOManager.get_slot k c1 = IOManager.EventContext_empty))
  ∧ (slots_inv c →
     IOManager.triggerEvent event σ c = Ret (σ', c', log) →
     slots_inv c'
     ∧ ∃ k a s s',
         IOManager.getEventContext event = Ret k
         ∧ bit_set (IOManager.events c) event = true
         ∧ bit_set (IOManager.events c') event = false
         ∧ IOManager.get_slot k c' = IOManager.EventContext_empty
         ∧ IOManager.scheduler (IOManager.get_slot k c) = Some a
         ∧ σ !! a = Some s
         ∧ σ' !! a = Some s'
         ∧ Scheduler.m_tasks s'
           = Scheduler.m_tasks s
             ++ [{| Scheduler.cor := IOManager.cor (IOManager.get_slot k c);
                    Scheduler.cb := IOManager.cb (IOManager.get_slot k c);
                    Scheduler.thread := -1 |}]).
Proof.
  split; [| split; [| split]].
  - unfold IOManager.ctor. intros Hret.
    destruct (bool_decide (0 < epfd)); [|discriminate].
    destruct (bool_decide (pipe_rt = 0)); [|discriminate].
    destruct (bool_decide (fcntl_rt = 0)); [|discriminate].
    simpl in Hret. injection Hret as <-. exact io_fresh_slots_inv.
  - intros Hwf Hlen Hinv Hts Hret.
    destruct (grown_spec _ fd Hwf Hlen
                (proj1 (addEvent_Ret _ _ _ _ _ _ _ _ _ _ Hwf Hlen Hret)))
      as (T & _ & _ & _ & Hinv1 & _).
    specialize (Hinv1 Hinv).
    destruct (addEvent_Ret _ _ _ _ _ _ _ _ _ _ Hwf Hlen Hret)
      as (Hfd & Hv & Hland & [(-> & Hrt & -> & ->) | (-> & Hrt & Hok)]).
    + split; [exact Hinv1 | discriminate].
    + destruct Hok as (k & ec & Hk & Hempty & -> & Hec).
      assert (Hev : event = IOManager.READ ∨ event = IOManager.WRITE)
        by (destruct (getEventContext_Ret _ _ Hk) as [[? _]|[? _]]; auto).
      assert (Hpop : populated ec = true).
      { destruct Hec as [(f & Hcb & _ & Hec) | (_ & p & cc & _ & _ & _ & Hec)].
        - rewrite (populated_after_add t_scheduler _ ec cb 0%nat Hempty);
            [exact Hts | left; eauto].
        - rewrite (populated_after_add t_scheduler _ ec cb p Hempty);
            [exact Hts | right; exact Hec]. }
      simpl. split.
      * apply table_slots_inv_insert; [exact Hinv1|].
        apply (slots_inv_update event _ k ec _ Hk
                 (table_slots_inv_lookup _ _ _ Hinv1 Hv)).
        -- by rewrite Hpop, bit_set_after_lor.
        -- intros ev' Hev'. by apply bit_set_lor_other.
      * intros _. eexists k, _. split; [exact Hk|].
        split; [apply list_lookup_insert_eq; eapply lookup_lt_Some;
                exact Hv|].
        split; [unfold bit_set; by rewrite (bool_decide_eq_true_2 _ Hland)|].
        rewrite events_set_slot. simpl.
        split; [by apply bit_set_after_lor|]. by destruct k.
  - intros Hinv Hret.
    destruct (delEvent_Ret _ _ _ _ _ _ Hret)
      as [[-> ->] | (-> & c0 & k & Hfd & Hv & Hland & Hrt & Hk & ->)].
    + split; [exact Hinv | discriminate].
    + assert (Hev : event = IOManager.READ ∨ event = IOManager.WRITE)
        by (destruct (getEventContext_Ret _ _ Hk) as [[? _]|[? _]]; auto).
      simpl. split.
      * apply table_slots_inv_insert; [exact Hinv|].
        apply (slots_inv_update event _ k _ _ Hk
                 (table_slots_inv_lookup _ _ _ Hinv Hv)).
        -- by rewrite bit_set_clear.
        -- intros ev' Hev'. by apply bit_set_clear_other.
      * intros _. eexists k, c0, _. split; [exact Hk|].
        split; [exact Hv|].
        split; [apply list_lookup_insert_eq; eapply lookup_lt_Some;
                exact Hv|].
        split; [unfold bit_set; by rewrite (bool_decide_eq_false_2 _ Hland)|].
        rewrite events_set_slot. simpl.
        split; [by apply bit_set_clear|]. by destruct k.
  - intros Hinv Hret.
    destruct (triggerEvent_Ret _ _ _ _ _ _ Hret)
      as (Hland & k & a & s & Hk & Ha & Hs & -> & -> & _).
    assert (Hev : event = IOManager.READ ∨ event = IOManager.WRITE)
      by (destruct (getEventContext_Ret _ _ Hk) as [[? _]|[? _]]; auto).
    assert (Hbit : bit_set (IOManager.events c) event = true)
      by (unfold bit_set; by rewrite (bool_decide_eq_false_2 _ Hland)).
    assert (Hpop : populated (IOManager.get_slot k c) = true).
    { destruct Hinv as [Hr Hw].
      destruct (getEventContext_Ret _ _ Hk) as [[-> ->] | [-> ->]]; simpl;
        congruence. }
    split.
    + apply (slots_inv_update event _ k _ _ Hk Hinv).
      * by rewrite bit_set_clear.
      * intros ev' Hev'. by apply bit_set_clear_other.
    + destruct (schedule_occupant _ s Hpop) as [Hq Htask].
      eexists k, a, s, _. split; [exact Hk|]. split; [exact Hbit|].
      unfold cleared. rewrite events_set_slot. simpl.
      split; [by apply bit_set_clear|].
      split; [by destruct k|]. split; [exact Ha|]. split; [exact Hs|].
      split; [apply lookup_insert_eq|].
      rewrite Hq, Htask. reflexivity.
Qed.

Lemma C5_bits_and_slots_witness :
  table_slots_inv (IOManager.m_fdContexts io_read_3)
  ∧ IOManager.m_fdContexts io_read_3 !! 3%nat = Some (Some ctx_read_3)
  ∧ bit_set (IOManager.events ctx_read_3) IOManager.READ = true
  ∧ populated (IOManager.read ctx_read_3) = true
  ∧ IOManager.triggerEvent IOManager.READ schedulers_100 ctx_read_3
    = Ret (schedulers_100_after, ctx_triggered_3, [Scheduler.act_tickle])
  ∧ slots_inv ctx_triggered_3.
Proof.
  destruct (C5_bits_and_slots epoll_ok (Some 100%nat) 3 IOManager.READ
              (Some (cb_user 1)) io_fresh io_read_3 Cor.World0 Cor.World0
              0 true schedulers_100 schedulers_100_after
              [Scheduler.act_tickle] ctx_read_3 ctx_triggered_3
              5 0 0 (6, 7))
    as (Hctor & Hadd & _ & Htrig).
  assert (Hlen : Z.of_nat (length (IOManager.m_fdContexts io_fresh)) < 2 ^ 31)
    by reflexivity.
  destruct (Hadd io_fresh_wf Hlen (Hctor eq_refl) eq_refl eq_refl)
    as (Hinv1 & _).
  split; [exact Hinv1|]. split; [reflexivity|].
  split; [reflexivity|]. split; [reflexivity|].
  split; [reflexivity|].
  assert (Hc : slots_inv ctx_read_3) by (split; reflexivity).
  exact (proj1 (Htrig Hc eq_refl)).
Defined.

(** C5 as stated fails for [addEvent] on a thread without a current
    scheduler: the call returns 0 and sets the READ bit of fd 3, but the
    slot it fills has a callback and no scheduler. *)
Lemma C5_counterexample :
  ∃ io' c',
    table_slots_inv (IOManager.m_fdContexts io_fresh)
    ∧ IOManager.addEvent epoll_ok None 3 IOManager.READ (Some (cb_user 1))
        io_fresh Cor.World0
      = Ret (0, io', Cor.World0)
    ∧ IOManager.m_fdContexts io' !! 3%nat = Some (Some c')
    ∧ bit_set (IOManager.events c') IOManager.READ = true
    ∧ IOManager.scheduler (IOManager.read c') = None
    ∧ populated (IOManager.read c') = false
    ∧ ¬ slots_inv c'.
Proof.
  eexists _, _.
  split; [exact io_fresh_slots_inv|].
  split; [vm_compute; reflexivity|].
  split; [reflexivity|].
  split; [reflexivity|]. split; [reflexivity|]. split; [reflexivity|].
  intros [Hr _]. vm_compute in Hr. discriminate.
Qed.

(** * Further properties of the code *)

(** ** The life of a fiber *)

(** X1.  The life of a fiber, seen from the thread's main fiber: a fiber
    built for [f] and resumed comes back READY and still bound to [f] when
    [f] yields; resumed again it goes on in [f] without [f] being invoked
    anew, and comes back TERM with its function object cleared when [f]
    returns; after that [resume] aborts.  Each time the main fiber is the
    current fiber again, and no other fiber has changed. *)
Theorem fiber_lifecycle (user_y user_r : Callback → Scheduler.behaviour)
    (w : Cor.World) (p main : addr) (c cm : Cor.t) (f : Callback)
    (sp sz : Z) :
  Cor.heap w !! p = Some c →
  Cor.m_state c = Cor.READY →
  Cor.m_cb c = Some f →
  Cor.m_ctx c = Cor.uc_made sp sz →
  Cor.t_thread_cor w = Some main →
  Cor.heap w !! main = Some cm →
  main ≠ p →
  user_y f = Scheduler.yields →
  user_r f = Scheduler.returns →
  ∃ w1 w2 c1 c2,
    SimpleScheduler.resume_task user_y p w = Ret (w1, [f])
    ∧ Cor.heap w1 !! p = Some c1
    ∧ Cor.m_state c1 = Cor.READY ∧ Cor.m_cb c1 = Some f
    ∧ Cor.t_cor w1 = Some main
    ∧ SimpleScheduler.resume_task user_r p w1 = Ret (w2, [])
    ∧ Cor.heap w2 !! p = Some c2
    ∧ Cor.m_state c2 = Cor.TERM ∧ Cor.m_cb c2 = None
    ∧ Cor.m_id c2 = Cor.m_id c ∧ Cor.m_stack c2 = Cor.m_stack c
    ∧ Cor.t_cor w2 = Some main
    ∧ Cor.resume p w2 = Abort
    ∧ (∀ q, q ≠ p → q ≠ main → Cor.heap w2 !! q = Cor.heap w !! q)
    ∧ Cor.e_cor_id w2 = Cor.e_cor_id w
    ∧ Cor.e_cor_count w2 = Cor.e_cor_count w.
Proof.
  intros Hp Hst Hcb Hctx Hmain Hcm Hne Hy Hr.
  assert (Hres : resumable c f) by (split; [|split]; eauto).
  pose proof (resume_task_back user_y w p main c cm f Hp Hres Hmain Hcm Hne)
    as H1.
  rewrite Hy, Hctx in H1.
  set (w1 := back_in_main p main (suspended c) cm w) in *.
  assert (Hp1 : Cor.heap w1 !! p = Some (suspended c))
    by (simpl; apply lookup_insert_eq).
  assert (Hm1 : Cor.heap w1 !! main
                = Some (Cor.set_ctx (Cor.uc_saved Cor.in_resume) cm)).
  { simpl. rewrite lookup_insert_ne by done. apply lookup_insert_eq. }
  assert (Hres1 : resumable (suspended c) f)
    by (split; [|split]; [reflexivity | exact Hcb | by right]).
  pose proof (resume_task_back user_r w1 p main _ _ f Hp1 Hres1 Hmain Hm1 Hne)
    as H2.
  rewrite Hr in H2. simpl in H2.
  eexists w1, _, (suspended c), (finished (suspended c)).
  split; [exact H1|]. split; [exact Hp1|].
  split; [reflexivity|]. split; [exact Hcb|]. split; [reflexivity|].
  split; [exact H2|].
  split; [simpl; apply lookup_insert_eq|].
  do 5 (split; [reflexivity|]).
  split.
  { unfold Cor.resume, Cor.deref. simpl. rewrite lookup_insert_eq.
    reflexivity. }
  split; [|split; reflexivity].
  intros q Hqp Hqm. simpl.
  by rewrite !lookup_insert_ne by done.
Qed.

Lemma fiber_lifecycle_witness :
  ∃ w1 w2,
    SimpleScheduler.resume_task user_yields 2%nat world_fresh
      = Ret (w1, [cb_user 5])
    ∧ Cor.m_state <$> Cor.heap w1 !! 2%nat = Some Cor.READY
    ∧ SimpleScheduler.resume_task user_returns 2%nat w1 = Ret (w2, [])
    ∧ Cor.m_state <$> Cor.heap w2 !! 2%nat = Some Cor.TERM
    ∧ Cor.resume 2%nat w2 = Abort
    ∧ Cor.heap w2 !! 1%nat = Some idle_fiber.
Proof.
  destruct (fiber_lifecycle user_yields user_returns world_fresh 2%nat 0%nat
              fresh_fiber main_fiber (cb_user 5) 8192 131072)
    as (w1 & w2 & c1 & c2 & H1 & H2 & H3 & _ & _ & H6 & H7 & H8 & _ & _ & _
        & _ & H13 & H14 & _);
    try reflexivity; try discriminate.
  exists w1, w2. split; [exact H1|].
  split.
  { transitivity (Cor.m_state <$> Some c1);
      [exact (f_equal (fmap Cor.m_state) H2) | simpl; by rewrite H3]. }
  split; [exact H6|].
  split.
  { transitivity (Cor.m_state <$> Some c2);
      [exact (f_equal (fmap Cor.m_state) H7) | simpl; by rewrite H8]. }
  split; [exact H13|].
  exact (H14 1%nat ltac:(discriminate) ltac:(discriminate)).
Defined.

(** ** Creating and destroying fibers *)

Lemma wrap64_up_down (n : Z) :
  0 ≤ n < 2 ^ 64 → wrap64 (wrap64 (n + 1) - 1) = n.
Proof.
  intros Hn. unfold wrap64.
  destruct (Z.eq_dec (n + 1) (2 ^ 64)) as [E | E].
  - rewrite E, Z.mod_same by lia. change (0 - 1) with (-1).
    replace n with (2 ^ 64 - 1) by lia. reflexivity.
  - rewrite (Z.mod_small (n + 1)) by lia.
    replace (n + 1 - 1) with n by lia. apply Z.mod_small. lia.
Qed.

(** X2.  On a thread that has no current fiber, [GetThis] builds the
    thread's main fiber at an address where no fiber lives: RUNNING,
    without stack and function object, with the next id; it becomes the
    current and the thread-main fiber, and no fiber that exists changes.
    A further [GetThis] returns the same fiber and changes nothing. *)
Theorem GetThis_creates_main_once (w : Cor.World) :
  Cor.t_cor w = None →
  ∃ p w',
    Cor.GetThis w = Ret (p, w')
    ∧ Cor.heap w !! p = None
    ∧ Cor.heap w' = <[p := main_fiber_with_id (Cor.e_cor_id w)]> (Cor.heap w)
    ∧ Cor.t_cor w' = Some p
    ∧ Cor.t_thread_cor w' = Some p
    ∧ Cor.e_cor_id w' = wrap64 (Cor.e_cor_id w + 1)
    ∧ Cor.e_cor_count w' = wrap64 (Cor.e_cor_count w + 1)
    ∧ Cor.GetThis w' = Ret (p, w').
Proof.
  intros Ht. exists (Cor.new_addr w). eexists.
  split.
  { unfold Cor.GetThis. rewrite Ht. simpl.
    rewrite bool_decide_eq_true_2 by reflexivity. reflexivity. }
  split; [apply new_addr_fresh|].
  split; [simpl; apply insert_insert_eq|].
  do 4 (split; [reflexivity|]).
  unfold Cor.GetThis, Cor.deref. simpl. by rewrite lookup_insert_eq.
Qed.

Lemma GetThis_creates_main_once_witness :
  ∃ w',
    Cor.GetThis Cor.World0 = Ret (0%nat, w')
    ∧ Cor.heap w' = <[0%nat := main_fiber_with_id 0]> ∅
    ∧ Cor.GetThis w' = Ret (0%nat, w').
Proof.
  destruct (GetThis_creates_main_once Cor.World0 eq_refl)
    as (p & w' & H1 & _ & H3 & _ & _ & _ & _ & H8).
  assert (Hp : p = 0%nat).
  { assert (E : Cor.GetThis Cor.World0 ≫= (λ r, mret r.1) = Ret 0%nat)
      by reflexivity.
    rewrite H1 in E. simpl in E. by injection E. }
  subst p. exists w'. split; [exact H1|]. split; [exact H3| exact H8].
Defined.

(** X3.  A fiber with a stack can only be destroyed once it has run to
    its end: destroying it right after construction, or while it is
    suspended in a [yield()], aborts.  After its function object has
    returned, destroying it hands the stack block it was built on back to
    the allocator, removes the object, and leaves the fiber count where it
    was before the construction; ids are not reused. *)
Theorem construct_run_destroy (user_y user_r : Callback → Scheduler.behaviour)
    (w : Cor.World) (main : addr) (cm : Cor.t) (f : Callback)
    (stacksize stack : Z) :
  Cor.t_thread_cor w = Some main →
  Cor.heap w !! main = Some cm →
  stack ≠ 0 →
  0 ≤ Cor.e_cor_count w < 2 ^ 64 →
  user_y f = Scheduler.yields →
  user_r f = Scheduler.returns →
  let p := (Cor.new (Some f) stacksize stack w).1 in
  let w1 := (Cor.new (Some f) stacksize stack w).2 in
  let size := wrap32 (if bool_decide (stacksize = 0)
                      then Cor.g_cor_stack_size w else stacksize) in
  Cor.destroy p w1 = Abort
  ∧ (∃ w2, SimpleScheduler.resume_task user_y p w1 = Ret (w2, [f])
           ∧ Cor.destroy p w2 = Abort)
  ∧ ∃ w2 w3,
      SimpleScheduler.resume_task user_r p w1 = Ret (w2, [f])
      ∧ Cor.destroy p w2 = Ret (w3, Some (stack, size))
      ∧ Cor.heap w3
        = <[main := Cor.set_ctx (Cor.uc_saved Cor.in_resume) cm]>
            (Cor.heap w)
      ∧ Cor.e_cor_count w3 = Cor.e_cor_count w
      ∧ Cor.e_cor_id w3 = wrap64 (Cor.e_cor_id w + 1)
      ∧ Cor.t_cor w3 = Some main.
Proof.
  intros Hmain Hcm Hstack Hcount Hy Hr p w1 size.
  assert (Hfresh := new_addr_fresh w).
  assert (Hne : main ≠ p) by (intros ->; unfold p in Hcm; simpl in Hcm;
                              congruence).
  set (c := {| Cor.m_id := Cor.e_cor_id w; Cor.m_stacksize := size;
               Cor.m_state := Cor.READY; Cor.m_ctx := Cor.uc_made stack size;
               Cor.m_stack := stack; Cor.m_cb := Some f |}).
  assert (Hp1 : Cor.heap w1 !! p = Some c) by apply lookup_insert_eq.
  assert (Hm1 : Cor.heap w1 !! main = Some cm).
  { unfold w1. simpl. by rewrite lookup_insert_ne. }
  assert (Hres : resumable c f).
  { split; [reflexivity|]. split; [reflexivity|]. left. eauto. }
  assert (Hdead : ∀ c' cm' w', Cor.m_stack c' = stack →
            Cor.m_state c' ≠ Cor.TERM →
            Cor.destroy p (back_in_main p main c' cm' w') = Abort).
  { intros c' cm' w' Hs Hst. unfold Cor.destroy, Cor.dtor, Cor.deref. simpl.
    rewrite lookup_insert_eq. simpl. rewrite Hs.
    rewrite (bool_decide_eq_false_2 _ Hstack). simpl.
    by rewrite (bool_decide_eq_false_2 _ Hst). }
  split; [| split].
  - unfold Cor.destroy, Cor.dtor. rewrite (deref_Some _ _ _ Hp1). simpl.
    by rewrite (bool_decide_eq_false_2 _ Hstack).
  - eexists. split.
    + rewrite (resume_task_back user_y w1 p main c cm f Hp1 Hres Hmain
                 Hm1 Hne).
      rewrite Hy. reflexivity.
    + by apply Hdead.
  - eexists _, _. split.
    + rewrite (resume_task_back user_r w1 p main c cm f Hp1 Hres Hmain
                 Hm1 Hne).
      rewrite Hr. reflexivity.
    + split.
      * unfold Cor.destroy, Cor.dtor, Cor.deref. simpl.
        rewrite lookup_insert_eq. simpl.
        rewrite (bool_decide_eq_false_2 _ Hstack). reflexivity.
      * simpl. split.
        -- rewrite delete_insert_eq.
           rewrite (insert_insert_ne (Cor.heap w) main p) by done.
           rewrite delete_insert_eq. rewrite delete_insert_ne by done.
           by rewrite delete_id.
        -- split; [by apply wrap64_up_down|]. by split.
Qed.

Lemma construct_run_destroy_witness :
  Cor.destroy 2%nat (Cor.new (Some (cb_user 5)) 0 8192 world_dispatch).2
    = Abort
  ∧ ∃ w2 w3,
      SimpleScheduler.resume_task user_returns 2%nat
        (Cor.new (Some (cb_user 5)) 0 8192 world_dispatch).2
      = Ret (w2, [cb_user 5])
      ∧ Cor.destroy 2%nat w2 = Ret (w3, Some (8192, 131072))
      ∧ Cor.e_cor_count w3 = 2.
Proof.
  destruct (construct_run_destroy user_yields user_returns world_dispatch
              0%nat main_fiber (cb_user 5) 0 8192)
    as (H1 & _ & w2 & w3 & H2 & H3 & _ & H5 & _);
    try reflexivity; try discriminate.
  { split; [discriminate | reflexivity]. }
  split; [exact H1|]. exists w2, w3.
  split; [exact H2|]. split; [exact H3 | exact H5].
Defined.

(** X4.  The main fiber that [GetThis] has built on a thread can be
    destroyed while it is the current fiber: the thread then has no
    current fiber, the heap and the fiber count are what they were before
    [GetThis], no stack block is freed; only the id counter has moved
    on. *)
Theorem main_fiber_round_trip (w : Cor.World) :
  Cor.t_cor w = None →
  0 ≤ Cor.e_cor_count w < 2 ^ 64 →
  ∃ p w1 w2,
    Cor.GetThis w = Ret (p, w1)
    ∧ Cor.destroy p w1 = Ret (w2, None)
    ∧ Cor.heap w2 = Cor.heap w
    ∧ Cor.t_cor w2 = None
    ∧ Cor.e_cor_count w2 = Cor.e_cor_count w
    ∧ Cor.e_cor_id w2 = wrap64 (Cor.e_cor_id w + 1).
Proof.
  intros Ht Hcount. exists (Cor.new_addr w). eexists _, _.
  split.
  { unfold Cor.GetThis. rewrite Ht. simpl.
    rewrite bool_decide_eq_true_2 by reflexivity. reflexivity. }
  split.
  { unfold Cor.destroy, Cor.dtor, Cor.deref. simpl.
    rewrite lookup_insert_eq. simpl.
    rewrite bool_decide_eq_true_2 by reflexivity. reflexivity. }
  simpl. split.
  { rewrite insert_insert_eq, delete_insert_eq.
    apply delete_id, new_addr_fresh. }
  split; [reflexivity|]. split; [by apply wrap64_up_down | reflexivity].
Qed.

Lemma main_fiber_round_trip_witness :
  ∃ p w1 w2,
    Cor.GetThis Cor.World0 = Ret (p, w1)
    ∧ Cor.destroy p w1 = Ret (w2, None)
    ∧ Cor.heap w2 = ∅
    ∧ Cor.t_cor w2 = None
    ∧ Cor.e_cor_count w2 = 0.
Proof.
  destruct (main_fiber_round_trip Cor.World0 eq_refl)
    as (p & w1 & w2 & H1 & H2 & H3 & H4 & H5 & _).
  { split; [discriminate | reflexivity]. }
  exists p, w1, w2. split; [exact H1|]. split; [exact H2|].
  split; [exact H3|]. split; [exact H4 | exact H5].
Defined.

(** ** Fiber ids *)

Lemma same_ids_refl (w : Cor.World) : same_ids w w.
Proof. by split. Qed.

Lemma same_ids_trans (w1 w2 w3 : Cor.World) :
  same_ids w1 w2 → same_ids w2 w3 → same_ids w1 w3.
Proof.
  intros [[E1 C1] H1] [[E2 C2] H2]. split; [split; congruence|].
  intros p. by rewrite H2, H1.
Qed.

Lemma same_ids_store (w : Cor.World) (p : addr) (c c' : Cor.t) :
  Cor.heap w !! p = Some c → Cor.m_id c' = Cor.m_id c →
  same_ids w (Cor.store p c' w).
Proof.
  intros Hp Hid. split; [by split|]. intros q. simpl.
  destruct (decide (p = q)) as [<- | Hne].
  - rewrite lookup_insert_eq, Hp. simpl. by rewrite Hid.
  - by rewrite lookup_insert_ne.
Qed.

Lemma same_ids_inv (w w' : Cor.World) :
  same_ids w w' → ids_inv w → ids_inv w'.
Proof.
  intros [[E _] H] (H0 & Hlt & Hinj).
  assert (Hback : ∀ p c', Cor.heap w' !! p = Some c' →
            ∃ c, Cor.heap w !! p = Some c ∧ Cor.m_id c = Cor.m_id c').
  { intros p c' Hp. specialize (H p). rewrite Hp in H. simpl in H.
    destruct (Cor.heap w !! p) as [c|]; [|discriminate].
    exists c. split; [reflexivity|]. simpl in H. congruence. }
  split; [lia|]. split.
  - intros p c' Hp. destruct (Hback p c' Hp) as (c & Hc & <-).
    rewrite E. eauto.
  - intros p q c' d' Hp Hq Hid.
    destruct (Hback p c' Hp) as (c & Hc & Ec).
    destruct (Hback q d' Hq) as (d & Hd & Ed).
    apply (Hinj p q c d Hc Hd). congruence.
Qed.

Lemma swapcontext_same_ids (s : Cor.site) (from to : addr)
    (w w' : Cor.World) :
  Cor.swapcontext s from to w = Ret w' → same_ids w w'.
Proof.
  unfold Cor.swapcontext, Cor.deref. intros H.
  destruct (Cor.heap w !! from) as [cf|] eqn:Hf; [|discriminate].
  simpl in H.
  destruct (<[from := _]> (Cor.heap w) !! to) as [ct|]; [|discriminate].
  simpl in H. injection H as <-.
  apply (same_ids_trans _ (Cor.store from
                             (Cor.set_ctx (Cor.uc_saved s) cf) w)).
  - by apply (same_ids_store w from cf).
  - by split.
Qed.

(** X5.  As long as the 64-bit id counter has not run over, the ids of
    the fibers that exist are pairwise different and below the counter:
    this holds before any fiber exists, construction (of a fiber with a
    stack, or of a main fiber by [GetThis]) keeps it and gives the new
    fiber the id the counter stood at, and [reset], [resume], [yield] and
    destruction keep it. *)
Theorem fiber_ids_unique (w w' : Cor.World) (p : addr)
    (f : option Callback) (stacksize stack : Z) (freed : option (Z * Z)) :
  ids_inv Cor.World0
  ∧ (ids_inv w → Cor.e_cor_id w + 1 < 2 ^ 64 →
     ids_inv (Cor.new f stacksize stack w).2
     ∧ Cor.m_id <$> Cor.heap (Cor.new f stacksize stack w).2
                      !! (Cor.new f stacksize stack w).1
       = Some (Cor.e_cor_id w))
  ∧ (ids_inv w → Cor.e_cor_id w + 1 < 2 ^ 64 →
     Cor.GetThis w = Ret (p, w') → ids_inv w')
  ∧ (ids_inv w → Cor.reset p f w = Ret w' → ids_inv w')
  ∧ (ids_inv w → Cor.resume p w = Ret w' → ids_inv w')
  ∧ (ids_inv w → Cor.yield p w = Ret w' → ids_inv w')
  ∧ (ids_inv w → Cor.destroy p w = Ret (w', freed) → ids_inv w').
Proof.
  assert (Hnew : ∀ (w0 : Cor.World) (q : addr) (c : Cor.t),
    ids_inv w0 → Cor.e_cor_id w0 + 1 < 2 ^ 64 →
    Cor.heap w0 !! q = None → Cor.m_id c = Cor.e_cor_id w0 →
    ∀ w1, Cor.heap w1 = <[q := c]> (Cor.heap w0) →
          Cor.e_cor_id w1 = wrap64 (Cor.e_cor_id w0 + 1) →
          ids_inv w1).
  { intros w0 q c (H0 & Hlt & Hinj) Hmax Hq Hid w1 Hh He.
    assert (Ee : Cor.e_cor_id w1 = Cor.e_cor_id w0 + 1)
      by (rewrite He; unfold wrap64; apply Z.mod_small; lia).
    split; [lia|]. split.
    - intros r d. rewrite Hh, Ee.
      destruct (decide (q = r)) as [<- | Hne].
      + rewrite lookup_insert_eq. intros [= <-]. lia.
      + rewrite lookup_insert_ne by done. intros Hr.
        specialize (Hlt r d Hr). lia.
    - intros r1 r2 d1 d2. rewrite Hh.
      destruct (decide (q = r1)) as [<- | Hne1];
        destruct (decide (q = r2)) as [<- | Hne2]; try done.
      + rewrite lookup_insert_eq, lookup_insert_ne by done.
        intros [= <-] Hr Hd. specialize (Hlt r2 d2 Hr). lia.
      + rewrite lookup_insert_eq, lookup_insert_ne by done.
        intros Hr [= <-] Hd. specialize (Hlt r1 d1 Hr). lia.
      + rewrite !lookup_insert_ne by done. apply Hinj. }
  split; [| split; [| split; [| split; [| split; [| split]]]]].
  - split; [done|]. split.
    + intros q c Hq. exfalso. revert Hq. apply lookup_empty_Some.
    + intros q1 q2 c d Hq. exfalso. revert Hq. apply lookup_empty_Some.
  - intros Hinv Hmax. split.
    + eapply (Hnew w _ _ Hinv Hmax (new_addr_fresh w));
        [|reflexivity|reflexivity]; reflexivity.
    + simpl. by rewrite lookup_insert_eq.
  - intros Hinv Hmax. unfold Cor.GetThis.
    destruct (Cor.t_cor w) as [q|] eqn:Ht.
    + destruct (Cor.deref w q); [|discriminate..]. by intros [= <- <-].
    + simpl. rewrite bool_decide_eq_true_2 by reflexivity. simpl.
      intros [= <- <-].
      eapply (Hnew w _ (main_fiber_with_id (Cor.e_cor_id w)) Hinv Hmax
                (new_addr_fresh w)); [reflexivity| |reflexivity].
      simpl. apply insert_insert_eq.
  - intros Hinv. unfold Cor.reset, Cor.deref.
    destruct (Cor.heap w !! p) as [c|] eqn:Hp; [|discriminate]. simpl.
    destruct (negb (bool_decide (Cor.m_stack c = 0))); [|discriminate].
    simpl. destruct (bool_decide (Cor.m_state c = Cor.TERM)); [|discriminate].
    simpl. intros [= <-].
    apply (same_ids_inv w); [|exact Hinv].
    by apply (same_ids_store w p c).
  - intros Hinv. unfold Cor.resume, Cor.deref.
    destruct (Cor.heap w !! p) as [c|] eqn:Hp; [|discriminate]. simpl.
    destruct (_ && _); [|discriminate]. simpl.
    destruct (Cor.t_thread_cor w) as [main|]; [|discriminate].
    intros Hsw. apply swapcontext_same_ids in Hsw.
    apply (same_ids_inv w); [|exact Hinv].
    eapply same_ids_trans; [|exact Hsw].
    apply (same_ids_trans _ (Cor.SetThis (Some p) w)); [by split|].
    by apply (same_ids_store (Cor.SetThis (Some p) w) p c).
  - intros Hinv. unfold Cor.yield, Cor.yield_prepare, Cor.deref.
    destruct (Cor.heap w !! p) as [c|] eqn:Hp; [|discriminate]. simpl.
    destruct (_ || _); [|discriminate]. simpl.
    set (w1 := if negb (bool_decide (Cor.m_state c = Cor.TERM)) then _ else _).
    assert (H1 : same_ids w w1).
    { subst w1. destruct (negb _).
      - apply (same_ids_trans _ (Cor.SetThis (Cor.t_thread_cor w) w));
          [by split|].
        by apply (same_ids_store (Cor.SetThis (Cor.t_thread_cor w) w) p c).
      - by split. }
    destruct (Cor.t_thread_cor w1) as [main|]; [|discriminate].
    intros Hsw. apply swapcontext_same_ids in Hsw.
    apply (same_ids_inv w); [|exact Hinv].
    by eapply same_ids_trans.
  - intros (H0 & Hlt & Hinj). unfold Cor.destroy.
    destruct (Cor.dtor p w) as [[w1 fr]| |] eqn:Hd; [|discriminate..].
    simpl. intros [= <- <-].
    assert (Hw1 : Cor.heap w1 = Cor.heap w ∧ Cor.e_cor_id w1 = Cor.e_cor_id w).
    { unfold Cor.dtor in Hd.
      destruct (Cor.deref w p) as [c| |]; [|discriminate..]. simpl in Hd.
      destruct (negb (bool_decide (Cor.m_stack c = 0))).
      - destruct (bool_decide (Cor.m_state c = Cor.TERM));
          simpl in Hd; [|discriminate].
        injection Hd as <- _. by split.
      - destruct (negb (nonnull (Cor.m_cb c))); simpl in Hd; [|discriminate].
        destruct (bool_decide (Cor.m_state c = Cor.RUNNING));
          simpl in Hd; [|discriminate].
        injection Hd as <- _. by destruct (bool_decide _). }
    destruct Hw1 as [Eh Ee]. unfold ids_inv. simpl. rewrite Ee, Eh.
    split; [exact H0|]. split.
    + intros q c Hq. apply lookup_delete_Some in Hq as [_ Hq]. eauto.
    + intros q1 q2 c d Hq1 Hq2.
      apply lookup_delete_Some in Hq1 as [_ Hq1].
      apply lookup_delete_Some in Hq2 as [_ Hq2]. eauto.
Qed.

Lemma fiber_ids_unique_witness :
  ids_inv (Cor.new (Some (cb_user 1)) 0 4096 Cor.World0).2.
Proof.
  destruct (fiber_ids_unique Cor.World0 Cor.World0 0%nat
              (Some (cb_user 1)) 0 4096 None) as (H0 & Hn & _).
  apply Hn; [exact H0 | simpl; lia].
Defined.

(** ** The single-threaded scheduler *)

Lemma wrap64_succ (n : nat) :
  wrap64 (wrap64 (Z.of_nat n) + 1) = wrap64 (Z.of_nat (S n)).
Proof.
  unfold wrap64. rewrite Z.add_mod_idemp_l by lia. f_equal. lia.
Qed.

Lemma wrap64_pred (n : nat) :
  wrap64 (wrap64 (Z.of_nat (S n)) - 1) = wrap64 (Z.of_nat n).
Proof.
  unfold wrap64. rewrite Zminus_mod_idemp_l. f_equal. lia.
Qed.

Lemma count_live_back_in_main (p main : addr) (c c' cm : Cor.t)
    (w : Cor.World) :
  Cor.heap w !! p = Some c → Cor.heap w !! main = Some cm → main ≠ p →
  count_live w → count_live (back_in_main p main c' cm w).
Proof.
  intros Hp Hm Hne Hc. unfold count_live in *. simpl. rewrite Hc.
  rewrite !map_size_insert. rewrite lookup_insert_ne by done.
  by rewrite Hp, Hm.
Qed.

Lemma count_live_destroyed (p : addr) (c : Cor.t) (w : Cor.World) :
  Cor.heap w !! p = Some c → count_live w → count_live (destroyed p w).
Proof.
  intros Hp Hc. unfold count_live in *. simpl. rewrite Hc.
  rewrite (map_size_delete_Some p (Cor.heap w)) by (by rewrite Hp).
  destruct (size (Cor.heap w)) as [|n] eqn:Hn.
  - apply map_size_empty_inv in Hn. rewrite Hn in Hp.
    by apply lookup_empty_Some in Hp.
  - apply wrap64_pred.
Qed.

Lemma first_calls_ext (w w' : Cor.World) (ps : list addr) :
  (∀ p, p ∈ ps → Cor.heap w' !! p = Cor.heap w !! p) →
  first_calls w' ps = first_calls w ps.
Proof.
  unfold first_calls. induction ps as [|p ps IH]; intros H; [done|].
  simpl. rewrite (H p) by left. f_equal. apply IH.
  intros r Hr. apply H. by right.
Qed.

(** [run()] over a list in two parts. *)
Lemma run_from_steps (user : Callback → Scheduler.behaviour)
    (l1 l2 : SimpleScheduler.t) (task : option addr) (u : gmap addr nat)
    (w : Cor.World) :
  SimpleScheduler.run_from user task (l1 ++ l2) u w
  = '(t, u1, w1, out1) ← run_steps user task l1 u w;
    '(q, u2, w2, out2) ← SimpleScheduler.run_from user t l2 u1 w1;
    mret (q, u2, w2, out1 ++ out2).
Proof.
  revert task u w. induction l1 as [|[p|] l1 IH]; intros task u w.
  - simpl.
    destruct (SimpleScheduler.run_from user task l2 u w)
      as [[[[q u2] w2] out2]| |]; done.
  - simpl.
    destruct (Cor.release_ptr task u w) as [[u0 w0]| |]; [|done..]. simpl.
    destruct (SimpleScheduler.resume_task_held user p u0 w0)
      as [[[ua wa] out]| |]; [|done..]. simpl. rewrite IH.
    destruct (run_steps user (Some p) l1 ua wa)
      as [[[[t u1] w1] out1]| |]; [|done..]. simpl.
    destruct (SimpleScheduler.run_from user t l2 u1 w1)
      as [[[[q u2] w2] out2]| |]; [|done..]. simpl.
    by rewrite app_assoc.
  - simpl. by destruct (Cor.release_ptr task u w) as [[u0 w0]| |].
Qed.

(** What the handle of the list entry of a fiber that has just been
    resumed is worth: giving it up destroys the fiber exactly when no
    handle is left over. *)
Lemma release_after_run (user : Callback → Scheduler.behaviour)
    (u : gmap addr nat) (w : Cor.World) (p main : addr) (c cm : Cor.t)
    (f : Callback) :
  Cor.heap w !! p = Some c →
  resumable c f →
  (cur_held c < Cor.use_count u p)%nat →
  Cor.m_stack c ≠ 0 →
  main ≠ p →
  let c' := match user f with
            | Scheduler.returns => finished c
            | Scheduler.yields => suspended c
            end in
  let ua := uses_ran (ends (user f)) c p u in
  let wa := back_in_main p main c' cm w in
  ∃ ub wb,
    Cor.release p ua wa = Ret (ub, wb)
    ∧ settled user u w ub wb p
    ∧ (∀ q, q ≠ p → Cor.heap wb !! q = Cor.heap wa !! q
                    ∧ Cor.use_count ub q = Cor.use_count u q)
    ∧ Cor.t_thread_cor wb = Cor.t_thread_cor w
    ∧ Cor.t_cor wb = Some main
    ∧ Cor.e_cor_id wb = Cor.e_cor_id w
    ∧ (count_live wa → count_live wb).
Proof.
  intros Hp Hr Hu Hst Hne c' ua wa.
  assert (Hcb : Cor.m_cb c = Some f) by apply Hr.
  assert (Hk : Cor.use_count ua p
               = (Cor.use_count u p + (if ends (user f) then 0 else 1)
                  - cur_held c)%nat) by apply uses_ran_count.
  assert (Hlo : left_over user c (Cor.use_count u p)
                = (Cor.use_count ua p - 1)%nat).
  { unfold left_over. rewrite Hcb, Hk. reflexivity. }
  assert (Hran : ran user c = c') by (unfold ran; by rewrite Hcb).
  assert (Hpa : Cor.heap wa !! p = Some c') by apply back_in_main_lookup.
  destruct (Cor.use_count ua p) as [|[|n]] eqn:Hn.
  - exfalso. destruct (ends (user f)); lia.
  - assert (Hret : user f = Scheduler.returns).
    { destruct (user f); [done|]. simpl in Hk. lia. }
    assert (Hc' : c' = finished c) by (subst c'; by rewrite Hret).
    exists (delete p ua), (destroyed p wa). split.
    { apply (release_last p ua wa c'); [done | done | | ].
      - rewrite Hc'. exact Hst.
      - by rewrite Hc'. }
    split.
    { intros d Hd. rewrite Hp in Hd. injection Hd as <-.
      rewrite Hlo. change (1 - 1)%nat with 0%nat.
      rewrite bool_decide_eq_true_2 by done. split.
      - unfold Cor.use_count. by rewrite lookup_delete_eq.
      - apply lookup_delete_eq. }
    split.
    { intros q Hq. split.
      - simpl. by rewrite lookup_delete_ne.
      - rewrite use_count_delete_ne by done.
        by apply uses_ran_count_ne. }
    split; [reflexivity|]. split; [reflexivity|]. split; [reflexivity|].
    by apply count_live_destroyed with c'.
  - exists (<[p := S n]> ua), wa. split; [by apply release_shared|].
    split.
    { intros d Hd. rewrite Hp in Hd. injection Hd as <-.
      rewrite Hlo. change (S (S n) - 1)%nat with (S n).
      rewrite bool_decide_eq_false_2 by done. split.
      - apply use_count_insert.
      - by rewrite Hpa, Hran. }
    split.
    { intros q Hq. split; [reflexivity|].
      rewrite use_count_insert_ne by done. by apply uses_ran_count_ne. }
    by split_and!.
Qed.

Lemma run_from_nil user task u w :
  SimpleScheduler.run_from user task [] u w
  = ('(u, w) ← Cor.release_ptr task u w;
     (Ret ([], u, w, []) : outcome (SimpleScheduler.t * gmap addr nat
                                    * Cor.World * list Callback))).
Proof. reflexivity. Qed.

Lemma run_from_cons user task p rest u w :
  SimpleScheduler.run_from user task (Some p :: rest) u w
  = ('(u, w) ← Cor.release_ptr task u w;
     '(u, w, out) ← SimpleScheduler.resume_task_held user p u w;
     '(q, u, w, out') ← SimpleScheduler.run_from user (Some p) rest u w;
     (Ret (q, u, w, out ++ out')
        : outcome (SimpleScheduler.t * gmap addr nat
                   * Cor.World * list Callback))).
Proof. reflexivity. Qed.

(** The passes of [run()] over distinct listed fibers: every fiber is
    resumed once, in order, and the handle that [task] still holds after
    the last pass can be given up; once it is, every fiber of the list is
    settled, and nothing else has changed. *)
Lemma simple_steps (user : Callback → Scheduler.behaviour)
    (ps : list addr) (main : addr) :
  NoDup ps → main ∉ ps →
  ∀ (task : option addr) (u : gmap addr nat) (w : Cor.World)
    (u1 : gmap addr nat) (w1 : Cor.World) (cm : Cor.t),
  Cor.release_ptr task u w = Ret (u1, w1) →
  Cor.t_thread_cor w1 = Some main →
  Cor.heap w1 !! main = Some cm →
  (∀ p, p ∈ ps → listed u1 w1 p) →
  ∃ tf u2 w2 u3 w3 cm3,
    run_steps user task (Some <$> ps) u w
    = Ret (tf, u2, w2, first_calls w1 ps)
    ∧ Cor.release_ptr tf u2 w2 = Ret (u3, w3)
    ∧ (∀ p, p ∈ ps → settled user u1 w1 u3 w3 p)
    ∧ (∀ q, q ∉ ps → q ≠ main →
            Cor.heap w3 !! q = Cor.heap w1 !! q
            ∧ Cor.use_count u3 q = Cor.use_count u1 q)
    ∧ Cor.heap w3 !! main = Some cm3
    ∧ Cor.m_id cm3 = Cor.m_id cm ∧ Cor.m_state cm3 = Cor.m_state cm
    ∧ Cor.t_thread_cor w3 = Some main
    ∧ (ps ≠ [] → Cor.t_cor w3 = Some main)
    ∧ Cor.use_count u3 main = Cor.use_count u1 main
    ∧ (count_live w1 → count_live w3)
    ∧ Cor.e_cor_id w3 = Cor.e_cor_id w1.
Proof.
  intros Hnd. induction Hnd as [|p ps Hnotin Hnd IH];
    intros Hmain task u w u1 w1 cm Hrel Ht Hcm Hall.
  - exists task, u, w, u1, w1, cm. simpl. split_and!; try done.
    intros p Hp. by apply elem_of_nil in Hp.
  - apply not_elem_of_cons in Hmain as [Hne Hmain].
    destruct (Hall p) as (c & f & Hp & Hres & Hu & Hst); [left|].
    change (run_steps user task (Some <$> p :: ps) u w) with
      ('(u, w) ← Cor.release_ptr task u w;
       '(u, w, out) ← SimpleScheduler.resume_task_held user p u w;
       '(t, u, w, out') ← run_steps user (Some p) (Some <$> ps) u w;
       mret (t, u, w, out ++ out')).
    rewrite Hrel.
    change (Ret (u1, w1) ≫= ?k) with (k (u1, w1)). cbv beta iota.
    rewrite (resume_task_held_back user u1 w1 p main c cm f
               Hp Hres Ht Hcm Hne Hu).
    change (Ret ?x ≫= ?k) with (k x). cbv beta iota.
    set (c' := match user f with
               | Scheduler.returns => finished c
               | Scheduler.yields => suspended c
               end).
    set (ua := uses_ran (ends (user f)) c p u1).
    set (wa := back_in_main p main c' cm w1).
    destruct (release_after_run user u1 w1 p main c cm f Hp Hres Hu Hst Hne)
      as (ub & wb & Hrelp & Hsetp & Hfrp & Htb & Htcb & Hidb & Hclb).
    fold c' ua wa in Hrelp, Hfrp, Hclb.
    assert (Hwa : ∀ q, q ≠ p → q ≠ main →
              Cor.heap wa !! q = Cor.heap w1 !! q).
    { intros q H1 H2. subst wa. simpl.
      by rewrite !lookup_insert_ne by done. }
    assert (Hcmb : Cor.heap wb !! main
                   = Some (Cor.set_ctx (Cor.uc_saved Cor.in_resume) cm)).
    { rewrite (proj1 (Hfrp main Hne)). subst wa. simpl.
      rewrite lookup_insert_ne by done. apply lookup_insert_eq. }
    assert (Hqb : ∀ q, q ∈ ps →
              Cor.heap wb !! q = Cor.heap w1 !! q
              ∧ Cor.use_count ub q = Cor.use_count u1 q).
    { intros q Hq.
      assert (q ≠ p) by (intros ->; contradiction).
      assert (q ≠ main) by (intros ->; contradiction).
      destruct (Hfrp q) as [E1 E2]; [done|].
      split; [|done]. rewrite E1. by apply Hwa. }
    destruct (IH Hmain (Some p) ua wa ub wb
                (Cor.set_ctx (Cor.uc_saved Cor.in_resume) cm) Hrelp) as
      (tf & u2 & w2 & u3 & w3 & cm3 & Hrun & Hrel3 & Hset & Hfr & Hm3 & Hid3
       & Hst3 & Ht3 & Htc3 & Hum & Hcl & Heid).
    { by rewrite Htb. }
    { exact Hcmb. }
    { intros q Hq. destruct (Hall q) as (d & g & Hd & Hg & Hud & Hsd);
        [by right|].
      destruct (Hqb q Hq) as [E1 E2].
      exists d, g. by rewrite E1, E2. }
    exists tf, u2, w2, u3, w3, cm3. rewrite Hrun.
    change (Ret ?x ≫= ?k) with (k x). cbv beta iota.
    split.
    { unfold mret, outcome_ret. do 2 f_equal.
      rewrite (first_calls_ext w1 wb ps) by (intros q Hq; apply Hqb, Hq).
      unfold first_calls at 2. simpl. rewrite Hp.
      destruct Hres as (_ & Hcb & _). rewrite Hcb.
      by destruct (Cor.m_ctx c). }
    split; [exact Hrel3|]. split.
    { intros q Hq. apply elem_of_cons in Hq as [-> | Hq].
      - destruct (Hfr p) as [E1 E2]; [done | by intros -> |].
        intros d Hd. destruct (Hsetp d Hd) as [S1 S2].
        by rewrite E1, E2.
      - destruct (Hqb q Hq) as [E1 E2].
        intros d Hd. rewrite <- E1 in Hd.
        destruct (Hset q Hq d Hd) as [S1 S2]. by rewrite <- E2. }
    split.
    { intros q Hq Hqm. apply not_elem_of_cons in Hq as [Hq1 Hq2].
      destruct (Hfr q Hq2 Hqm) as [E1 E2].
      destruct (Hfrp q Hq1) as [E3 E4].
      split; [|congruence]. rewrite E1, E3. by apply Hwa. }
    split; [exact Hm3|]. split; [by rewrite Hid3|].
    split; [by rewrite Hst3|]. split; [exact Ht3|].
    split.
    { intros _. destruct ps as [|q ps].
      - simpl in Hrun. injection Hrun as <- <- <-.
        change (Cor.release p ua wa = Ret (u3, w3)) in Hrel3.
        rewrite Hrelp in Hrel3. by injection Hrel3 as <- <-.
      - by apply Htc3. }
    split.
    { rewrite Hum. apply (proj2 (Hfrp main Hne)). }
    split.
    { intros Hc. apply Hcl, Hclb.
      by apply (count_live_back_in_main p main c c' cm w1). }
    by rewrite Heid, Hidb.
Qed.

(** [run()] on a list of distinct fibers that are ready to be resumed
    and held by their list entry. *)
Lemma simple_run_all (user : Callback → Scheduler.behaviour)
    (ps : list addr) (main : addr) (u : gmap addr nat) (w : Cor.World)
    (cm : Cor.t) :
  NoDup ps → main ∉ ps →
  Cor.t_thread_cor w = Some main →
  Cor.heap w !! main = Some cm →
  (∀ p, p ∈ ps → listed u w p) →
  ∃ u' w',
    SimpleScheduler.run user (Some <$> ps) u w
    = Ret ([], u', w', first_calls w ps)
    ∧ (∀ p, p ∈ ps → settled user u w u' w' p)
    ∧ (∀ q, q ∉ ps → q ≠ main →
            Cor.heap w' !! q = Cor.heap w !! q
            ∧ Cor.use_count u' q = Cor.use_count u q)
    ∧ Cor.m_state <$> Cor.heap w' !! main = Some (Cor.m_state cm)
    ∧ Cor.use_count u' main = Cor.use_count u main
    ∧ (ps ≠ [] → Cor.t_cor w' = Some main)
    ∧ (count_live w → count_live w')
    ∧ Cor.e_cor_id w' = Cor.e_cor_id w.
Proof.
  intros Hnd Hmain Ht Hcm Hall.
  destruct (simple_steps user ps main Hnd Hmain None u w u w cm
              eq_refl Ht Hcm Hall) as
    (tf & u2 & w2 & u3 & w3 & cm3 & Hrun & Hrel & Hset & Hfr & Hm3 & _
     & Hst3 & _ & Htc & Hum & Hcl & Heid).
  exists u3, w3. split.
  { unfold SimpleScheduler.run.
    rewrite <- (app_nil_r (Some <$> ps)), run_from_steps, Hrun.
    change (Ret ?x ≫= ?k) with (k x). cbv beta iota.
    rewrite run_from_nil, Hrel.
    change (Ret ?x ≫= ?k) with (k x). cbv beta iota.
    change (Ret ?x ≫= ?k) with (k x). cbv beta iota.
    unfold mret, outcome_ret. by rewrite app_nil_r. }
  split; [exact Hset|]. split; [exact Hfr|].
  split; [rewrite Hm3; simpl; by rewrite Hst3|].
  split; [exact Hum|]. split; [exact Htc|]. by split.
Qed.



(** X7.  [run()] never gets past a fiber that is listed a second time
    after it has finished: when the fibers of [ps] are distinct, built on
    a stack, ready and held by their entries, and [p] is one of them whose function object returns, a list that
    holds [p] again after [ps] (so that [p] has a handle more than the
    one entry accounts for) makes the process abort, at the assertion of
    [resume()] on the state of [p]. *)
Theorem simple_run_finished_fiber_aborts
    (user : Callback → Scheduler.behaviour)
    (ps : list addr) (main p : addr) (rest : SimpleScheduler.t)
    (u : gmap addr nat) (w : Cor.World) (cm c : Cor.t) (f : Callback) :
  NoDup ps → main ∉ ps →
  Cor.t_thread_cor w = Some main →
  Cor.heap w !! main = Some cm →
  (∀ p, p ∈ ps → listed u w p) →
  p ∈ ps → Cor.heap w !! p = Some c → Cor.m_cb c = Some f →
  user f = Scheduler.returns →
  (S (cur_held c) < Cor.use_count u p)%nat →
  SimpleScheduler.run user ((Some <$> ps) ++ Some p :: rest) u w = Abort.
Proof.
  intros Hnd Hmain Ht Hcm Hall Hin Hp Hcb Hret Hu.
  destruct (simple_steps user ps main Hnd Hmain None u w u w cm
              eq_refl Ht Hcm Hall) as
    (tf & u2 & w2 & u3 & w3 & cm3 & Hrun & Hrel & Hset & _).
  unfold SimpleScheduler.run. rewrite run_from_steps, Hrun.
  change (Ret ?x ≫= ?k) with (k x). cbv beta iota.
  rewrite run_from_cons, Hrel.
  change (Ret ?x ≫= ?k) with (k x). cbv beta iota.
  destruct (Hset p Hin c Hp) as [_ Hheap].
  assert (Hlo : left_over user c (Cor.use_count u p) ≠ 0%nat).
  { unfold left_over. rewrite Hcb, Hret. simpl. lia. }
  rewrite (bool_decide_eq_false_2 _ Hlo) in Hheap.
  unfold SimpleScheduler.resume_task_held.
  rewrite (deref_Some _ _ _ Hheap).
  change (Ret ?x ≫= ?k) with (k x). cbv beta iota.
  unfold SimpleScheduler.resume_task, Cor.resume.
  rewrite (deref_Some _ _ _ Hheap).
  unfold ran. by rewrite Hcb, Hret.
Qed.

Lemma simple_run_finished_fiber_aborts_witness :
  SimpleScheduler.run user_returns
    [Some 1%nat; Some 2%nat; Some 1%nat] uses_twice world_fresh = Abort.
Proof.
  apply (simple_run_finished_fiber_aborts user_returns [1%nat; 2%nat]
           0%nat 1%nat [] uses_twice world_fresh main_fiber idle_fiber
           (cb_idle 100%nat)).
  - apply NoDup_cons. split; [|apply NoDup_singleton].
    intros H. apply list_elem_of_singleton in H. discriminate.
  - intros H. apply elem_of_cons in H as [H|H]; [discriminate|].
    apply list_elem_of_singleton in H. discriminate.
  - reflexivity.
  - reflexivity.
  - intros p Hp. apply elem_of_cons in Hp as [-> | Hp].
    + exists idle_fiber, (cb_idle 100%nat). split; [reflexivity|].
      split; [|split; [vm_compute; lia | discriminate]].
      split; [reflexivity|]. split; [reflexivity|]. left. by eexists _, _.
    + apply list_elem_of_singleton in Hp as ->.
      exists fresh_fiber, (cb_user 5). split; [reflexivity|].
      split; [|split; [vm_compute; lia | discriminate]].
      split; [reflexivity|]. split; [reflexivity|]. left. by eexists _, _.
  - left.
  - reflexivity.
  - reflexivity.
  - reflexivity.
  - vm_compute. lia.
Defined.

(** ** The scan of the task queue *)

Lemma scan_inv (tid : Z) (w : Cor.World)
    (it before q it' : list Scheduler.ScheduleTask)
    (tickle_me b : bool) (taken : option Scheduler.ScheduleTask) :
  Scheduler.scan tid w before it tickle_me = Ret (taken, q, it', b) →
  (taken = None ∧ Forall (λ y, eligible tid y = false) it
   ∧ q = before ++ it ∧ it' = []
   ∧ b = tickle_me || negb (bool_decide (it = [])))
  ∨ (∃ pre x post,
       taken = Some x ∧ it = pre ++ x :: post
       ∧ Forall (λ y, eligible tid y = false) pre
       ∧ eligible tid x = true ∧ dispatchable w x
       ∧ q = before ++ pre ++ post ∧ it' = post
       ∧ b = tickle_me || negb (bool_decide (pre = []))).
Proof.
  revert before tickle_me taken q it' b.
  induction it as [|x it IH]; intros before tickle_me taken q it' b; simpl.
  - intros [= <- <- <- <-]. left.
    by rewrite app_nil_r, orb_false_r.
  - destruct (negb (bool_decide (Scheduler.thread x = -1))
              && negb (bool_decide (Scheduler.thread x = tid))) eqn:Hsk.
    + assert (Hx : eligible tid x = false).
      { unfold eligible. rewrite <- negb_orb in Hsk.
        by apply negb_true_iff in Hsk. }
      intros H. destruct (IH _ _ _ _ _ _ H) as
        [(-> & Hall & -> & -> & ->)
        |(pre & y & post & -> & -> & Hpre & Hy & Hd & -> & -> & ->)].
      * left. rewrite <- app_assoc. split_and!; try done.
        -- by constructor.
        -- by rewrite orb_true_r.
      * right. exists (x :: pre), y, post.
        rewrite <- app_assoc. split_and!; try done.
        -- by constructor.
        -- by rewrite orb_true_r.
    + assert (Hx : eligible tid x = true).
      { unfold eligible. rewrite <- negb_orb in Hsk.
        by apply negb_false_iff in Hsk. }
      destruct (nonnull (Scheduler.cor x) || nonnull (Scheduler.cb x))
        eqn:Hnn; [|discriminate]. simpl.
      intros H. right. exists [], x, it.
      assert (Hd : dispatchable w x ∧
                   (taken, q, it', b) = (Some x, before ++ it, it, tickle_me)).
      { unfold dispatchable. rewrite Hnn.
        destruct (Scheduler.cor x) as [p|]; simpl in H.
        - unfold Cor.deref in H.
          destruct (Cor.heap w !! p) as [c|] eqn:Hp; [|discriminate].
          simpl in H. unfold Cor.getState in H.
          destruct (bool_decide (Cor.m_state c = Cor.READY)) eqn:Hst;
            [|discriminate].
          simpl in H. injection H as <- <- <- <-.
          split; [|done]. split; [done|].
          intros p' [= <-]. exists c. split; [done|].
          by apply bool_decide_eq_true in Hst.
        - injection H as <- <- <- <-. split; [|done]. by split. }
      destruct Hd as [Hd [= -> -> -> ->]].
      split_and!; try done. by rewrite orb_false_r.
Qed.

(** X8.  Whatever the queue holds, when the block of [run()] under the
    mutex completes it has either taken nothing, every entry being pinned
    to another thread and the scheduler left as it was, or taken exactly
    one entry: one pinned to -1 or to this thread, not null, its fiber (if
    any) READY, with only entries pinned elsewhere before it; that entry is
    gone from the queue, all others are kept in order, and the active
    count is one higher.  In both cases [tickle_me] tells whether the queue
    is non-empty afterwards. *)
Theorem take_takes_only_eligible (tid : Z) (w : Cor.World)
    (s s' : Scheduler.t) (x : Scheduler.ScheduleTask) (b : bool) :
  Scheduler.take tid w s = Ret (x, s', b) →
  b = negb (bool_decide (Scheduler.m_tasks s' = []))
  ∧ ((x = Scheduler.ScheduleTask_empty ∧ s' = s
      ∧ Forall (λ y, eligible tid y = false) (Scheduler.m_tasks s))
     ∨ (∃ pre post,
          Scheduler.m_tasks s = pre ++ x :: post
          ∧ Forall (λ y, eligible tid y = false) pre
          ∧ eligible tid x = true
          ∧ dispatchable w x
          ∧ s' = Scheduler.set_active
                   (wrap64 (Scheduler.m_activeThreadCount s + 1))
                   (Scheduler.set_tasks (pre ++ post) s))).
Proof.
  unfold Scheduler.take.
  destruct (Scheduler.scan tid w [] (Scheduler.m_tasks s) false)
    as [[[[taken q] it'] b0]| |] eqn:Hscan; [|discriminate..].
  simpl. intros [= <- <- <-].
  destruct (scan_inv _ _ _ _ _ _ _ _ _ Hscan) as
    [(-> & Hall & -> & -> & ->)
    |(pre & y & post & -> & Hq & Hpre & Hy & Hd & -> & -> & ->)]; simpl.
  - split; [by rewrite orb_false_r|]. left.
    split; [done|]. split; [by destruct s | done].
  - split.
    + destruct pre, post; reflexivity.
    + right. exists pre, post. by rewrite Hq.
Qed.

Lemma take_takes_only_eligible_witness :
  ∃ pre post,
    [task_for_8; task_free; task_for_7] = pre ++ task_free :: post
    ∧ Forall (λ y, eligible 7 y = false) pre
    ∧ eligible 7 task_free = true.
Proof.
  destruct (take_takes_only_eligible 7 Cor.World0
              (sched_with [task_for_8; task_free; task_for_7])
              (Scheduler.set_active 1 (sched_with [task_for_8; task_for_7]))
              task_free true eq_refl) as [_ [(H & _) | H]].
  - discriminate H.
  - destruct H as (pre & post & Hq & Hpre & Hx & _).
    exists pre, post. split; [exact Hq|]. split; [exact Hpre | exact Hx].
Defined.

(** ** The counters of the dispatch loop *)

Lemma take_shape (tid : Z) (w : Cor.World) (s s' : Scheduler.t)
    (x : Scheduler.ScheduleTask) (b : bool) :
  Scheduler.take tid w s = Ret (x, s', b) →
  (x = Scheduler.ScheduleTask_empty ∧ s' = s
   ∧ Forall (λ y, eligible tid y = false) (Scheduler.m_tasks s)
   ∧ b = negb (bool_decide (Scheduler.m_tasks s = [])))
  ∨ (nonnull (Scheduler.cor x) || nonnull (Scheduler.cb x) = true
     ∧ eligible tid x = true
     ∧ ∃ pre post,
         Scheduler.m_tasks s = pre ++ x :: post
         ∧ s' = Scheduler.set_active
                  (wrap64 (Scheduler.m_activeThreadCount s + 1))
                  (Scheduler.set_tasks (pre ++ post) s)).
Proof.
  unfold Scheduler.take.
  destruct (Scheduler.scan tid w [] (Scheduler.m_tasks s) false)
    as [[[[taken q] it'] b0]| |] eqn:Hscan; [|discriminate..].
  simpl. intros [= <- <- <-].
  destruct (scan_inv _ _ _ _ _ _ _ _ _ Hscan) as
    [(-> & Hall & -> & -> & ->)
    |(pre & y & post & -> & Hq & Hpre & Hy & Hd & -> & -> & ->)]; simpl.
  - left. split; [done|]. split; [by destruct s|]. split; [done|].
    by rewrite orb_false_r.
  - right. split; [apply Hd|]. split; [done|]. by exists pre, post.
Qed.

Lemma set_active_back (s : Scheduler.t) (q : list Scheduler.ScheduleTask) :
  0 ≤ Scheduler.m_activeThreadCount s < 2 ^ 64 →
  Scheduler.set_active
    (wrap64 (wrap64 (Scheduler.m_activeThreadCount s + 1) - 1))
    (Scheduler.set_active (wrap64 (Scheduler.m_activeThreadCount s + 1))
       (Scheduler.set_tasks q s))
  = Scheduler.set_tasks q s.
Proof.
  intros Ha. rewrite (wrap64_up_down _ Ha). by destruct s.
Qed.

Lemma set_idle_back (s : Scheduler.t) :
  0 ≤ Scheduler.m_idleThreadCount s < 2 ^ 64 →
  Scheduler.set_idle
    (wrap64 (wrap64 (Scheduler.m_idleThreadCount s + 1) - 1))
    (Scheduler.set_idle (wrap64 (Scheduler.m_idleThreadCount s + 1)) s)
  = s.
Proof.
  intros Ha. rewrite (wrap64_up_down _ Ha). by destruct s.
Qed.

Lemma run_iteration_shape (user : Callback → Scheduler.behaviour)
    (stack : Z) (this : addr) (tid : Z) (s s' : Scheduler.t)
    (l l' : Scheduler.Locals) (u u' : gmap addr nat) (w w' : Cor.World)
    (b : Scheduler.status) (log : list Scheduler.action) :
  0 ≤ Scheduler.m_activeThreadCount s < 2 ^ 64 →
  0 ≤ Scheduler.m_idleThreadCount s < 2 ^ 64 →
  Scheduler.run_iteration user stack this tid (s, l, u, w)
    = Ret (b, (s', l', u', w'), log) →
  s' = Scheduler.set_tasks (Scheduler.m_tasks s') s
  ∧ Scheduler.m_tasks s' `sublist_of` Scheduler.m_tasks s
  ∧ Scheduler.idle_cor l' = Scheduler.idle_cor l
  ∧ (tickles log ≤ 1)%nat
  ∧ (b = Scheduler.exit → s' = s ∧ l' = l ∧ u' = u ∧ w' = w
       ∧ Forall (λ y, eligible tid y = false) (Scheduler.m_tasks s)).
Proof.
  intros Ha Hi. unfold Scheduler.run_iteration.
  destruct (Scheduler.take tid w s) as [[[task s1] tickle_me]| |] eqn:Htake;
    [|discriminate..].
  assert (Hlog : (tickles (if tickle_me then [Scheduler.act_tickle] else [])
                  ≤ 1)%nat) by (destruct tickle_me; unfold tickles; simpl; lia).
  destruct (take_shape _ _ _ _ _ _ Htake) as
    [(-> & -> & Hall & _) | (Hnn & _ & pre & post & Hq & ->)]; simpl.
  - unfold Cor.deref.
    destruct (Cor.heap w !! Scheduler.idle_cor l) as [c|]; [|discriminate].
    simpl. destruct (bool_decide (Cor.getState c = Cor.TERM)).
    + intros [= <- <- <- <- <- <-]. split_and!; try done. by destruct s.
    + destruct (Scheduler.run_fiber_held user this _ _ u w) as [[u1 w1]| |];
        [|discriminate..].
      simpl. intros [= <- <- <- <- <- <-]. rewrite (set_idle_back s Hi).
      split_and!; try done. by destruct s.
  - assert (Hsub : pre ++ post `sublist_of` Scheduler.m_tasks s).
    { rewrite Hq. apply sublist_app; [done|]. by apply sublist_cons. }
    destruct (Scheduler.cor task) as [p|].
    + destruct (Scheduler.run_fiber_held user this _ p u w) as [[u1 w1]| |];
        [|discriminate..].
      simpl. destruct (Cor.release p u1 w1) as [[u2 w2]| |];
        [|discriminate..].
      simpl. intros [= <- <- <- <- <- <-]. rewrite (set_active_back s _ Ha).
      split_and!; try done.
    + simpl in Hnn. destruct (Scheduler.cb task) as [f|]; [|discriminate].
      destruct (Scheduler.cb_cor l) as [c|].
      * destruct (Cor.reset c (Some f) w) as [w0| |]; [|discriminate..].
        simpl.
        destruct (Scheduler.run_fiber_held user this _ c u w0)
          as [[u1 w1]| |]; [|discriminate..].
        simpl. destruct (Cor.release c u1 w1) as [[u2 w2]| |];
          [|discriminate..].
        simpl. intros [= <- <- <- <- <- <-].
        rewrite (set_active_back s _ Ha).
        split_and!; try done.
        rewrite tickles_app. unfold tickles at 2. simpl. lia.
      * simpl.
        destruct (Scheduler.run_fiber_held user this _ _ _ _)
          as [[u1 w1]| |]; [|discriminate..].
        simpl. destruct (Cor.release _ u1 w1) as [[u2 w2]| |];
          [|discriminate..].
        simpl. intros [= <- <- <- <- <- <-].
        rewrite (set_active_back s _ Ha).
        split_and!; try done.
        rewrite tickles_app. unfold tickles at 2. simpl. lia.
Qed.

(** X9.  One worker whose fibers run to their end or to a yield, none of
    them scheduling further work or stopping the scheduler (this is all
    the user code [Scheduler.behaviour] describes): however many passes of
    the loop of [run()] complete, the scheduler is as before in every
    member but the queue, each increment of the active and of the idle
    thread count undone by its decrement.  The queue has only lost
    entries (what is left is a sub-list of what was there, in order), the
    idle fiber is still the same object, and [tickle()] has been called
    at most once per pass. *)
Theorem run_loop_restores_counts (n : nat)
    (user : Callback → Scheduler.behaviour) (mallocs : nat → Z)
    (this : addr) (tid : Z) (s s' : Scheduler.t)
    (l l' : Scheduler.Locals) (u u' : gmap addr nat) (w w' : Cor.World)
    (b : Scheduler.status) (log : list Scheduler.action) :
  0 ≤ Scheduler.m_activeThreadCount s < 2 ^ 64 →
  0 ≤ Scheduler.m_idleThreadCount s < 2 ^ 64 →
  Scheduler.run_loop n user mallocs this tid (s, l, u, w)
    = Ret (b, (s', l', u', w'), log) →
  s' = Scheduler.set_tasks (Scheduler.m_tasks s') s
  ∧ Scheduler.m_tasks s' `sublist_of` Scheduler.m_tasks s
  ∧ Scheduler.idle_cor l' = Scheduler.idle_cor l
  ∧ (tickles log ≤ n)%nat.
Proof.
  revert mallocs s l u w log s' l' u' w' b.
  induction n as [|n IH]; intros mallocs s l u w log s' l' u' w' b Ha Hi.
  - simpl. intros [= <- <- <- <- <- <-]. split_and!; try done. by destruct s.
  - rewrite run_loop_S.
    destruct (Scheduler.run_iteration user (mallocs O) this tid (s, l, u, w))
      as [[[b1 [[[s1 l1] u1] w1]] log1]| |] eqn:Hit; [|discriminate..].
    destruct (run_iteration_shape _ _ _ _ _ _ _ _ _ _ _ _ _ _ Ha Hi Hit)
      as (Hs1 & Hsub1 & Hl1 & Ht1 & _).
    assert (Ha1 : 0 ≤ Scheduler.m_activeThreadCount s1 < 2 ^ 64)
      by (rewrite Hs1; exact Ha).
    assert (Hi1 : 0 ≤ Scheduler.m_idleThreadCount s1 < 2 ^ 64)
      by (rewrite Hs1; exact Hi).
    simpl. destruct b1.
    + destruct (Scheduler.run_loop n user _ this tid (s1, l1, u1, w1))
        as [[[b2 [[[s2 l2] u2] w2]] log2]| |] eqn:Hloop; [|discriminate..].
      destruct (IH _ _ _ _ _ _ _ _ _ _ _ Ha1 Hi1 Hloop)
        as (Hs2 & Hsub2 & Hl2 & Ht2).
      simpl. intros [= <- <- <- <- <- <-]. split_and!.
      * rewrite Hs2 at 1. rewrite Hs1. by destruct s.
      * by etrans.
      * congruence.
      * rewrite tickles_app. lia.
    + intros [= <- <- <- <- <- <-]. split_and!; try done. lia.
Qed.

Lemma run_loop_restores_counts_witness :
  ∃ s' l' u' w' log,
    Scheduler.run_loop 2 user_returns malloc_fresh 100%nat 7
      (sched_with [task_for_8; task_free], locals_dispatch, uses_dispatch,
       world_dispatch)
    = Ret (Scheduler.continue, (s', l', u', w'), log)
    ∧ s' = Scheduler.set_tasks (Scheduler.m_tasks s')
             (sched_with [task_for_8; task_free])
    ∧ Scheduler.m_tasks s' `sublist_of` [task_for_8; task_free]
    ∧ Scheduler.idle_cor l' = 1%nat
    ∧ (tickles log ≤ 2)%nat.
Proof.
  eexists _, _, _, _, _.
  match goal with
  | |- ?A ∧ _ => assert (H : A) by (vm_compute; reflexivity)
  end.
  split; [exact H|].
  eapply (run_loop_restores_counts 2 user_returns malloc_fresh 100%nat 7
            (sched_with [task_for_8; task_free]) _ locals_dispatch _
            uses_dispatch _ world_dispatch);
    [simpl; lia | simpl; lia | exact H].
Defined.

(** ** The idle fiber *)

Lemma take_none (tid : Z) (w : Cor.World) (s : Scheduler.t) :
  Forall (λ y, eligible tid y = false) (Scheduler.m_tasks s) →
  Scheduler.take tid w s
  = Ret (Scheduler.ScheduleTask_empty, s,
         negb (bool_decide (Scheduler.m_tasks s = []))).
Proof.
  intros Hq. unfold Scheduler.take.
  rewrite (scan_none tid w _ [] false Hq). simpl.
  rewrite orb_false_r. by destruct s.
Qed.

Lemma suspended_resumable (c : Cor.t) (f : Callback) :
  Cor.m_cb c = Some f → resumable (suspended c) f.
Proof. intros Hcb. split; [done|]. split; [done|]. by right. Qed.

Lemma run_iteration_idle (user : Callback → Scheduler.behaviour)
    (stack : Z) (this : addr) (tid : Z) (s : Scheduler.t)
    (l : Scheduler.Locals) (u : gmap addr nat) (w : Cor.World)
    (main : addr) (cm c : Cor.t) :
  Forall (λ y, eligible tid y = false) (Scheduler.m_tasks s) →
  0 ≤ Scheduler.m_idleThreadCount s < 2 ^ 64 →
  Cor.t_thread_cor w = Some main →
  Cor.heap w !! main = Some cm →
  main ≠ Scheduler.idle_cor l →
  Cor.heap w !! Scheduler.idle_cor l = Some c →
  resumable c (cb_idle this) →
  (cur_held c < Cor.use_count u (Scheduler.idle_cor l))%nat →
  Scheduler.run_iteration user stack this tid (s, l, u, w)
  = Ret (Scheduler.continue,
         (s, l,
          uses_ran (Scheduler.stopping s) c (Scheduler.idle_cor l) u,
          back_in_main (Scheduler.idle_cor l) main
            (if Scheduler.stopping s then finished c else suspended c)
            cm w),
         if bool_decide (Scheduler.m_tasks s = [])
         then [] else [Scheduler.act_tickle]).
Proof.
  intros Hq Hi Ht Hcm Hne Hc Hres Hu.
  unfold Scheduler.run_iteration. rewrite (take_none tid w s Hq). simpl.
  rewrite (deref_Some _ _ _ Hc). simpl.
  destruct Hres as (Hst & Hcb & Hctx). unfold Cor.getState. rewrite Hst.
  simpl.
  rewrite (run_fiber_held_back user this _ u w (Scheduler.idle_cor l) main
             c cm (cb_idle this) Hc (conj Hst (conj Hcb Hctx)) Ht Hcm Hne
             Hu).
  simpl. rewrite (set_idle_back s Hi).
  rewrite bool_decide_eq_true_2 by reflexivity.
  change (Scheduler.stopping (Scheduler.set_idle _ s))
    with (Scheduler.stopping s).
  by destruct (Scheduler.stopping s), (bool_decide (Scheduler.m_tasks s = [])).
Qed.

(** X10.  A worker that finds no entry pinned to -1 or to itself, on a
    scheduler that is not stopping, never leaves the loop of [run()]:
    every pass resumes the idle fiber, which yields straight back, and the
    scheduler is left as it was.  When the queue is empty no [tickle()] is
    issued; when it holds entries pinned to other threads, every pass
    issues one.  The idle fiber is held by [idle_cor] throughout and, once
    it has run, by its own [MainFunc]; no other handle count changes. *)
Theorem idle_worker_spins (n : nat)
    (user : Callback → Scheduler.behaviour) (mallocs : nat → Z)
    (this : addr) (tid : Z) (s : Scheduler.t) (l : Scheduler.Locals)
    (u : gmap addr nat) (w : Cor.World) (main : addr) (cm c : Cor.t) :
  Forall (λ y, eligible tid y = false) (Scheduler.m_tasks s) →
  Scheduler.stopping s = false →
  0 ≤ Scheduler.m_idleThreadCount s < 2 ^ 64 →
  Cor.t_thread_cor w = Some main →
  Cor.heap w !! main = Some cm →
  main ≠ Scheduler.idle_cor l →
  Cor.heap w !! Scheduler.idle_cor l = Some c →
  resumable c (cb_idle this) →
  (cur_held c < Cor.use_count u (Scheduler.idle_cor l))%nat →
  ∃ u' w' c',
    Scheduler.run_loop n user mallocs this tid (s, l, u, w)
    = Ret (Scheduler.continue, (s, l, u', w'),
           replicate (if bool_decide (Scheduler.m_tasks s = [])
                      then 0%nat else n) Scheduler.act_tickle)
    ∧ Cor.heap w' !! Scheduler.idle_cor l = Some c'
    ∧ resumable c' (cb_idle this)
    ∧ Cor.e_cor_id w' = Cor.e_cor_id w
    ∧ (cur_held c' < Cor.use_count u' (Scheduler.idle_cor l))%nat
    ∧ (∀ q, q ≠ Scheduler.idle_cor l →
            Cor.use_count u' q = Cor.use_count u q).
Proof.
  intros Hq Hns Hi. revert mallocs u w cm c.
  induction n as [|n IH]; intros mallocs u w cm c Ht Hcm Hne Hc Hres Hu.
  - exists u, w, c. simpl. split; [|done].
    by destruct (bool_decide (Scheduler.m_tasks s = [])).
  - rewrite run_loop_S.
    rewrite (run_iteration_idle user _ this tid s l u w main cm c
               Hq Hi Ht Hcm Hne Hc Hres Hu).
    rewrite Hns. simpl.
    set (w1 := back_in_main (Scheduler.idle_cor l) main (suspended c) cm w).
    set (u1 := uses_ran false c (Scheduler.idle_cor l) u).
    destruct (IH (λ i, mallocs (S i)) u1 w1
                (Cor.set_ctx (Cor.uc_saved Cor.in_resume) cm) (suspended c))
      as (u' & w' & c' & Hloop & Hc' & Hres' & He & Hu' & Hfr).
    + exact Ht.
    + subst w1. simpl. rewrite lookup_insert_ne by congruence.
      apply lookup_insert_eq.
    + exact Hne.
    + subst w1. simpl. apply lookup_insert_eq.
    + apply suspended_resumable, Hres.
    + subst u1. rewrite uses_ran_count. unfold cur_held in *. simpl.
      destruct (Cor.m_ctx c); lia.
    + exists u', w', c'. rewrite Hloop. simpl. split.
      { by destruct (bool_decide (Scheduler.m_tasks s = [])). }
      split; [done|]. split; [done|]. split; [done|]. split; [done|].
      intros q Hqne. rewrite (Hfr q Hqne). subst u1.
      by apply uses_ran_count_ne.
Qed.

Lemma idle_worker_spins_witness :
  ∃ u' w' c',
    Scheduler.run_loop 3 user_returns malloc_fresh 100%nat 7
      (sched_with [task_for_8], locals_dispatch, uses_dispatch,
       world_dispatch)
    = Ret (Scheduler.continue,
           (sched_with [task_for_8], locals_dispatch, u', w'),
           [Scheduler.act_tickle; Scheduler.act_tickle; Scheduler.act_tickle])
    ∧ Cor.heap w' !! 1%nat = Some c'
    ∧ resumable c' (cb_idle 100%nat)
    ∧ Cor.e_cor_id w' = 2
    ∧ (cur_held c' < Cor.use_count u' 1%nat)%nat
    ∧ (∀ q, q ≠ 1%nat → Cor.use_count u' q = Cor.use_count uses_dispatch q).
Proof.
  apply (idle_worker_spins 3 user_returns malloc_fresh 100%nat 7
           (sched_with [task_for_8]) locals_dispatch uses_dispatch
           world_dispatch 0%nat main_fiber idle_fiber).
  - repeat constructor.
  - reflexivity.
  - simpl. lia.
  - reflexivity.
  - reflexivity.
  - discriminate.
  - reflexivity.
  - split; [reflexivity|]. split; [reflexivity|]. left. by eexists _, _.
  - vm_compute. lia.
Defined.

(** ** Draining the queue on a stopping scheduler *)

(** X11.  A worker of a scheduler whose stop has been requested
    ([m_stopping] set, no thread active) and whose queue holds [N]
    callbacks that each run to their end leaves [run()] in exactly
    [N + 2] passes: one per callback, each on a fiber built for it (on a
    block [malloc] did return) and destroyed after it, one in which the
    idle fiber sees [stopping()] hold and ends, and one that finds the
    idle fiber in TERM and breaks.  The queue is empty afterwards, the
    counters are as before, and [tickle()] was called once for every pass
    that left entries behind. *)
Theorem stopping_worker_drains_and_exits
    (user : Callback → Scheduler.behaviour) (mallocs : nat → Z)
    (this : addr) (tid : Z) (s : Scheduler.t) (l : Scheduler.Locals)
    (u : gmap addr nat) (w : Cor.World) (fs : list Callback)
    (main : addr) (cm ci : Cor.t) :
  Scheduler.m_stopping s = true →
  Scheduler.m_activeThreadCount s = 0 →
  0 ≤ Scheduler.m_idleThreadCount s < 2 ^ 64 →
  Scheduler.m_tasks s = callback_task <$> fs →
  Forall (λ f, ∀ s', Scheduler.body user this s' f = Scheduler.returns) fs →
  (∀ i, mallocs i ≠ 0) →
  Scheduler.cb_cor l = None →
  Cor.t_thread_cor w = Some main →
  Cor.heap w !! main = Some cm →
  main ≠ Scheduler.idle_cor l →
  Cor.heap w !! Scheduler.idle_cor l = Some ci →
  resumable ci (cb_idle this) →
  (cur_held ci < Cor.use_count u (Scheduler.idle_cor l))%nat →
  ∃ u' w' u'' w'' log,
    Scheduler.run_loop (length fs + 1) user mallocs this tid (s, l, u, w)
    = Ret (Scheduler.continue, (Scheduler.set_tasks [] s, l, u', w'), log)
    ∧ Scheduler.run_loop (length fs + 2) user mallocs this tid (s, l, u, w)
      = Ret (Scheduler.exit, (Scheduler.set_tasks [] s, l, u'', w''), log)
    ∧ Cor.heap w'' !! Scheduler.idle_cor l = Some (finished ci)
    ∧ constructions log = length fs
    ∧ tickles log = pred (length fs)
    ∧ (∀ p, p ≠ main → p ≠ Scheduler.idle_cor l →
            Cor.heap w'' !! p = Cor.heap w !! p).
Proof.
  intros Hstop Hact Hi Hq Hfs Hmal Hl.
  assert (Ha : 0 ≤ Scheduler.m_activeThreadCount s < 2 ^ 64)
    by (rewrite Hact; lia).
  revert s u w mallocs cm Hstop Hact Hi Hq Ha Hmal.
  induction Hfs as [| f fs Hf Hfs IH];
    intros s u w mallocs cm Hstop Hact Hi Hq Ha Hmal Ht Hcm Hne Hci Hres Hu.
  - simpl in Hq.
    assert (Hnone : Forall (λ y, eligible tid y = false) (Scheduler.m_tasks s))
      by (rewrite Hq; constructor).
    assert (Hss : Scheduler.stopping s = true).
    { unfold Scheduler.stopping. rewrite Hstop, Hq, Hact. reflexivity. }
    assert (Hs : Scheduler.set_tasks [] s = s).
    { rewrite <- Hq. by destruct s. }
    rewrite Hs.
    set (w1 := back_in_main (Scheduler.idle_cor l) main (finished ci) cm w).
    set (u1 := uses_ran true ci (Scheduler.idle_cor l) u).
    assert (H1 : Scheduler.run_iteration user (mallocs O) this tid
                   (s, l, u, w)
                 = Ret (Scheduler.continue, (s, l, u1, w1), [])).
    { rewrite (run_iteration_idle user (mallocs O) this tid s l u w main
                 cm ci Hnone Hi Ht Hcm Hne Hci Hres Hu).
      rewrite Hss. by rewrite (bool_decide_eq_true_2 _ Hq). }
    assert (H2 : Scheduler.run_iteration user (mallocs 1%nat) this tid
                   (s, l, u1, w1)
                 = Ret (Scheduler.exit, (s, l, u1, w1), [])).
    { unfold Scheduler.run_iteration. rewrite (take_none tid w1 s Hnone).
      rewrite Hq. simpl. unfold Cor.deref. subst w1. simpl.
      rewrite lookup_insert_eq. reflexivity. }
    exists u1, w1, u1, w1, []. split; [|split; [|split; [|split]]].
    + change (length (@nil Callback) + 1)%nat with 1%nat.
      rewrite run_loop_S, H1. reflexivity.
    + change (length (@nil Callback) + 2)%nat with 2%nat.
      rewrite run_loop_S, H1.
      change (Scheduler.run_loop 1 user (λ i, mallocs (S i)) this tid
                (s, l, u1, w1)
              ≫= (λ '(b, st, log'), mret (b, st, [] ++ log'))
              = Ret (Scheduler.exit, (s, l, u1, w1), [])).
      rewrite run_loop_S.
      change (Scheduler.run_iteration user (mallocs 1%nat) this tid
                (s, l, u1, w1)) with
        (Scheduler.run_iteration user ((λ i, mallocs (S i)) O) this tid
           (s, l, u1, w1)) in H2.
      rewrite H2. reflexivity.
    + subst w1. simpl. apply lookup_insert_eq.
    + by split.
    + split; [by split|]. intros p Hpm Hpi. subst w1. simpl.
      by rewrite !lookup_insert_ne by done.
  - simpl in Hq.
    destruct (run_iteration_callback user (mallocs O) this tid s l u w f
                (callback_task <$> fs) main cm Hq Hl Ht Hcm Hf (Hmal O))
      as (w1 & Hit & Hh1 & Ht1 & _).
    rewrite (set_active_back s _ Ha) in Hit.
    set (s1 := Scheduler.set_tasks (callback_task <$> fs) s) in *.
    set (u1 := delete (Cor.new_addr w) u) in *.
    assert (Hfresh := new_addr_fresh w).
    assert (Hni : Cor.new_addr w ≠ Scheduler.idle_cor l)
      by (intros Heq; rewrite Heq in Hfresh; congruence).
    destruct (IH s1 u1 w1 (λ i, mallocs (S i))
                (Cor.set_ctx (Cor.uc_saved Cor.in_resume) cm))
      as (u2 & w2 & u3 & w3 & log2 & Hloop1 & Hloop2 & Hidle & Hc2 & Htk2
          & Hfr2);
      try done;
      try (rewrite Hh1; first [ apply lookup_insert_eq
                              | by rewrite lookup_insert_ne ]).
    { subst u1. by rewrite use_count_delete_ne. }
    assert (Hs2 : Scheduler.set_tasks [] s1 = Scheduler.set_tasks [] s)
      by reflexivity.
    rewrite Hs2 in Hloop1, Hloop2.
    eexists u2, w2, u3, w3, _. split; [|split; [|split; [|split; [|split]]]].
    + change (length (f :: fs) + 1)%nat with (S (length fs + 1)).
      rewrite run_loop_S, Hit. simpl. rewrite Hloop1. reflexivity.
    + change (length (f :: fs) + 2)%nat with (S (length fs + 2)).
      rewrite run_loop_S, Hit. simpl. rewrite Hloop2. reflexivity.
    + exact Hidle.
    + rewrite constructions_app, Hc2.
      by destruct (bool_decide (callback_task <$> fs = [])).
    + rewrite tickles_app, Htk2.
      destruct fs as [|g fs]; reflexivity.
    + intros p Hpm Hpi. rewrite (Hfr2 p Hpm Hpi), Hh1.
      by rewrite lookup_insert_ne.
Qed.

Lemma stopping_worker_drains_and_exits_witness :
  ∃ u' w' u'' w'' log,
    Scheduler.run_loop 3 user_returns malloc_fresh 100%nat 7
      (Scheduler.set_stopping true
         (sched_with [callback_task (cb_user 1); callback_task (cb_user 2)]),
       locals_dispatch, uses_dispatch, world_dispatch)
    = Ret (Scheduler.continue,
           (Scheduler.set_stopping true (sched_with []),
            locals_dispatch, u', w'), log)
    ∧ Scheduler.run_loop 4 user_returns malloc_fresh 100%nat 7
        (Scheduler.set_stopping true
           (sched_with [callback_task (cb_user 1); callback_task (cb_user 2)]),
         locals_dispatch, uses_dispatch, world_dispatch)
      = Ret (Scheduler.exit,
             (Scheduler.set_stopping true (sched_with []),
              locals_dispatch, u'', w''), log)
    ∧ Cor.heap w'' !! 1%nat = Some (finished idle_fiber)
    ∧ constructions log = 2%nat
    ∧ tickles log = 1%nat
    ∧ (∀ p, p ≠ 0%nat → p ≠ 1%nat →
            Cor.heap w'' !! p = Cor.heap world_dispatch !! p).
Proof.
  apply (stopping_worker_drains_and_exits user_returns malloc_fresh 100%nat 7
           (Scheduler.set_stopping true
              (sched_with [callback_task (cb_user 1);
                           callback_task (cb_user 2)]))
           locals_dispatch uses_dispatch world_dispatch
           [cb_user 1; cb_user 2] 0%nat main_fiber idle_fiber).
  - reflexivity.
  - reflexivity.
  - simpl. lia.
  - reflexivity.
  - repeat constructor.
  - intros i. unfold malloc_fresh. lia.
  - reflexivity.
  - reflexivity.
  - reflexivity.
  - discriminate.
  - reflexivity.
  - split; [reflexivity|]. split; [reflexivity|]. left. by eexists _, _.
  - vm_compute. lia.
Defined.

(** ** Scheduling *)

(** X12.  A burst of [schedule] calls that each carry a fiber or a
    function object appends the tasks to the queue in the order of the
    calls and changes nothing else; [tickle()] is called once, by the first
    call, when the queue was empty before the burst, and not at all when
    it was not. *)
Theorem schedule_burst (ccs : list (Scheduler.CorOrCb * Z))
    (s : Scheduler.t) :
  Forall (λ x, carries_work x = true) ccs →
  (schedule_all ccs s).1
  = Scheduler.set_tasks
      (Scheduler.m_tasks s
       ++ ((λ x, Scheduler.ScheduleTask_of x.1 x.2) <$> ccs)) s
  ∧ (schedule_all ccs s).2
    = if bool_decide (Scheduler.m_tasks s = []) && negb (bool_decide (ccs = []))
      then [Scheduler.act_tickle] else [].
Proof.
  intros Hall. revert s.
  induction Hall as [|[cc thr] ccs Hx Hall IH]; intros s.
  - simpl. rewrite app_nil_r, andb_false_r. split; [by destruct s | done].
  - simpl. unfold Scheduler.schedule, Scheduler.scheduleNoLock.
    unfold carries_work in Hx. simpl in Hx. rewrite Hx.
    set (s1 := Scheduler.set_tasks _ s).
    destruct (IH s1) as [E1 E2].
    destruct (schedule_all ccs s1) as [s2 log2]. simpl in E1, E2.
    simpl. subst s2 log2. split.
    + subst s1. simpl. by rewrite <- app_assoc.
    + subst s1. simpl.
      rewrite (bool_decide_eq_false_2
                 (Scheduler.m_tasks s ++ [Scheduler.ScheduleTask_of cc thr]
                  = []))
        by (by destruct (Scheduler.m_tasks s)).
      simpl. rewrite app_nil_r, andb_true_r.
      by destruct (bool_decide (Scheduler.m_tasks s = [])).
Qed.

Lemma schedule_burst_witness :
  (schedule_all [(Scheduler.of_cb (Some (cb_user 1)), -1);
                 (Scheduler.of_cor (Some 2%nat), 7)] (sched_with [])).1
  = sched_with [callback_task (cb_user 1);
                {| Scheduler.cor := Some 2%nat; Scheduler.cb := None;
                   Scheduler.thread := 7 |}]
  ∧ (schedule_all [(Scheduler.of_cb (Some (cb_user 1)), -1);
                   (Scheduler.of_cor (Some 2%nat), 7)] (sched_with [])).2
    = [Scheduler.act_tickle].
Proof.
  apply (schedule_burst [(Scheduler.of_cb (Some (cb_user 1)), -1);
                         (Scheduler.of_cor (Some 2%nat), 7)] (sched_with [])).
  repeat constructor.
Defined.

(** ** Construction, start and destruction of a scheduler *)

Lemma ctor_use_caller (this : addr) (threads : Z) (name : string)
    (stack : Z) (rootFiber0 : option addr) (w : Cor.World) :
  0 < threads →
  Cor.t_cor w = None →
  ∃ main p w',
    Scheduler.ctor this threads true name stack rootFiber0 None w
    = Ret ({| Scheduler.m_name := name; Scheduler.m_threads := [];
              Scheduler.m_tasks := [];
              Scheduler.m_threadIds := [to_int (Cor.e_cor_id w)];
              Scheduler.m_threadCount := wrap64 (threads - 1);
              Scheduler.m_activeThreadCount := 0;
              Scheduler.m_idleThreadCount := 0;
              Scheduler.m_useCaller := true;
              Scheduler.m_rootCor := Some p;
              Scheduler.m_rootThread := to_int (Cor.e_cor_id w);
              Scheduler.m_stopping := false;
              Scheduler.m_rootFiber := rootFiber0 |}, Some this, w')
    ∧ main ≠ p
    ∧ Cor.t_cor w' = Some main ∧ Cor.t_thread_cor w' = Some main
    ∧ Cor.heap w' !! main = Some (main_fiber_with_id (Cor.e_cor_id w))
    ∧ (∃ c, Cor.heap w' !! p = Some c ∧ resumable c (cb_run this)
            ∧ Cor.m_stack c = stack)
    ∧ Cor.heap w !! main = None ∧ Cor.heap w !! p = None.
Proof.
  intros Hth Ht. unfold Scheduler.ctor.
  rewrite (bool_decide_eq_true_2 (0 < threads) Hth). simpl.
  unfold Cor.GetThis. rewrite Ht. simpl.
  rewrite bool_decide_eq_true_2 by reflexivity. simpl.
  set (main := Cor.new_addr w).
  set (w1 := Cor.set_t_thread_cor _ _).
  assert (Hm1 : Cor.heap w1 !! main
                = Some (main_fiber_with_id (Cor.e_cor_id w))).
  { subst w1. simpl. apply lookup_insert_eq. }
  assert (Hne : main ≠ Cor.new_addr w1).
  { intros E. pose proof (new_addr_fresh w1) as Hf. rewrite <- E in Hf.
    congruence. }
  assert (Hp0 : Cor.heap w !! Cor.new_addr w1 = None).
  { pose proof (new_addr_fresh w1) as Hf. subst w1. simpl in Hf.
    rewrite insert_insert_eq in Hf.
    apply lookup_insert_None in Hf. apply Hf. }
  unfold Cor.GetCorId, Cor.deref. simpl.
  rewrite lookup_insert_ne by done. rewrite lookup_insert_eq. simpl.
  exists main, (Cor.new_addr w1). eexists. split; [reflexivity|].
  split; [exact Hne|]. split; [reflexivity|]. split; [reflexivity|].
  split.
  { simpl. rewrite lookup_insert_ne by done. exact Hm1. }
  split.
  { eexists. split; [simpl; apply lookup_insert_eq|].
    split; [|reflexivity].
    split; [reflexivity|]. split; [reflexivity|]. left. by eexists _, _. }
  split; [apply new_addr_fresh | exact Hp0].
Qed.

(** The threads that [start()] creates for a scheduler named [name]. *)
Lemma start_fresh (spawn : nat → Z) (s : Scheduler.t) :
  Scheduler.m_stopping s = false →
  Scheduler.m_threads s = [] →
  ∃ s',
    Scheduler.start spawn s = Ret s'
    ∧ th_ids s' = spawn <$> seq 0 (Z.to_nat (Scheduler.m_threadCount s))
    ∧ Scheduler.th_name <$> Scheduler.m_threads s'
      = (λ i : nat, Scheduler.m_name s +:+ "_" +:+ pretty i)
          <$> seq 0 (Z.to_nat (Scheduler.m_threadCount s))
    ∧ Scheduler.m_threadIds s'
      = Scheduler.m_threadIds s
        ++ (spawn <$> seq 0 (Z.to_nat (Scheduler.m_threadCount s)))
    ∧ s' = Scheduler.set_threads (Scheduler.m_threads s')
             (Scheduler.m_threadIds s') s.
Proof.
  intros Hs Hth. unfold Scheduler.start. rewrite Hs, Hth. simpl.
  eexists. split; [reflexivity|]. unfold th_ids. simpl.
  rewrite <- !list_fmap_compose. by split_and!.
Qed.

(** X13.  [Scheduler(threads, use_caller, name)] on a thread that has no
    fiber and no scheduler yet, followed by [start()]: [start()] creates
    [threads] threads, one less when the caller takes part, named
    [name_0], [name_1], ... in order, and records their ids after the
    caller's; with [use_caller] the constructor has made the scheduler the
    thread's current one and built the dispatch fiber, READY and bound to
    [run], at a new address; without it the constructor touches neither
    the thread nor any fiber.  A second [start()] aborts as soon as there
    is a thread. *)
Theorem scheduler_ctor_then_start (this : addr) (threads : Z)
    (use_caller : bool) (name : string) (stack : Z)
    (rootFiber0 : option addr) (spawn : nat → Z) (w : Cor.World) :
  0 < threads < 2 ^ 64 →
  Cor.t_cor w = None →
  ∃ s w' s',
    Scheduler.ctor this threads use_caller name stack rootFiber0 None w
    = Ret (s, if use_caller then Some this else None, w')
    ∧ Scheduler.start spawn s = Ret s'
    ∧ th_ids s' = spawn <$> seq 0 (workers threads use_caller)
    ∧ Scheduler.th_name <$> Scheduler.m_threads s'
      = (λ i : nat, name +:+ "_" +:+ pretty i)
          <$> seq 0 (workers threads use_caller)
    ∧ Scheduler.m_threadIds s'
      = (if use_caller then [Scheduler.m_rootThread s] else []) ++ th_ids s'
    ∧ (if use_caller
       then ∃ p c, Scheduler.m_rootCor s = Some p
                   ∧ Cor.heap w !! p = None
                   ∧ Cor.heap w' !! p = Some c
                   ∧ resumable c (cb_run this)
       else w' = w ∧ Scheduler.m_rootCor s = None
            ∧ Scheduler.m_rootThread s = -1)
    ∧ (workers threads use_caller ≠ 0%nat → Scheduler.start spawn s' = Abort).
Proof.
  intros Hth Ht.
  assert (Hab : ∀ s0 : Scheduler.t,
            Scheduler.m_stopping s0 = false → Scheduler.m_threads s0 ≠ [] →
            Scheduler.start spawn s0 = Abort).
  { intros s0 H1 H2. unfold Scheduler.start. rewrite H1.
    by rewrite (bool_decide_eq_false_2 _ H2). }
  assert (Hlen : ∀ (A : Type) (f : nat → A) (n : nat) (l : list Scheduler.Thread),
            n ≠ 0%nat → Scheduler.th_id <$> l = spawn <$> seq 0 n → l ≠ []).
  { intros A f n l Hn Hl ->. destruct n; [done|]. discriminate Hl. }
  destruct use_caller.
  - destruct (ctor_use_caller this threads name stack rootFiber0 w)
      as (main & p & w' & Hctor & _ & _ & _ & _ & (c & Hc & Hres & _) & _ & Hp);
      [lia | done |].
    rewrite Hctor.
    set (s := {| Scheduler.m_name := name |}).
    destruct (start_fresh spawn s eq_refl eq_refl)
      as (s' & Hstart & Hids & Hnames & Htids & Hs').
    assert (Hk : Z.to_nat (Scheduler.m_threadCount s) = workers threads true).
    { subst s. simpl. unfold workers, wrap64. by rewrite Z.mod_small by lia. }
    rewrite Hk in Hids, Hnames, Htids.
    exists s, w', s'. split; [reflexivity|]. split; [exact Hstart|].
    split; [exact Hids|]. split; [exact Hnames|].
    split; [by rewrite Htids, Hids|].
    split; [by exists p, c|].
    intros Hn. apply Hab.
    + by rewrite Hs'.
    + by apply (Hlen Z spawn (workers threads true)).
  - unfold Scheduler.ctor.
    rewrite (bool_decide_eq_true_2 (0 < threads)) by lia. simpl.
    set (s := {| Scheduler.m_name := name |}).
    destruct (start_fresh spawn s eq_refl eq_refl)
      as (s' & Hstart & Hids & Hnames & Htids & Hs').
    assert (Hk : Z.to_nat (Scheduler.m_threadCount s) = workers threads false).
    { subst s. simpl. unfold workers. f_equal. lia. }
    rewrite Hk in Hids, Hnames, Htids.
    exists s, w, s'. split; [reflexivity|]. split; [exact Hstart|].
    split; [exact Hids|]. split; [exact Hnames|].
    split; [by rewrite Htids, Hids|].
    split; [done|].
    intros Hn. apply Hab.
    + by rewrite Hs'.
    + by apply (Hlen Z spawn (workers threads false)).
Qed.

Lemma scheduler_ctor_then_start_witness :
  ∃ s w' s',
    Scheduler.ctor 100%nat 3 true "s" 4096 None None Cor.World0
    = Ret (s, Some 100%nat, w')
    ∧ Scheduler.start spawn_from_7 s = Ret s'
    ∧ th_ids s' = [7; 8]
    ∧ Scheduler.th_name <$> Scheduler.m_threads s' = ["s_0"; "s_1"]
    ∧ Scheduler.m_threadIds s' = [0; 7; 8]
    ∧ Scheduler.start spawn_from_7 s' = Abort.
Proof.
  destruct (scheduler_ctor_then_start 100%nat 3 true "s" 4096 None
              spawn_from_7 Cor.World0 ltac:(lia) eq_refl)
    as (s & w' & s' & H1 & H2 & H3 & H4 & H5 & _ & H7).
  exists s, w', s'. split; [exact H1|]. split; [exact H2|].
  split; [exact H3|]. split; [exact H4|]. split.
  - rewrite H5, H3.
    assert (E : Scheduler.ctor 100%nat 3 true "s" 4096 None None Cor.World0
                ≫= (λ r, mret (Scheduler.m_rootThread r.1.1)) = Ret 0)
      by reflexivity.
    rewrite H1 in E. simpl in E. injection E as ->. reflexivity.
  - apply H7. discriminate.
Defined.

(** X14.  A scheduler built without [use_caller] can only be destroyed
    after [stop()]: the destructor aborts right after construction and
    after [start()]; [stop()], called by a thread whose current scheduler
    is another one or none, resumes no fiber, calls [tickle()] once per
    thread (and once more when [m_rootFiber] is set), joins the threads
    [start()] created, in order, sets the stopping flag and empties the
    list of threads; after it [start()] does nothing and the destructor
    returns.  (With [use_caller], [stop()] resumes the dispatch fiber, and
    what follows depends on that fiber coming back.) *)
Theorem scheduler_stop_then_destroy (this : addr) (threads : Z)
    (name : string) (stack : Z) (rootFiber0 : option addr)
    (spawn : nat → Z) (resume_root : Scheduler.t → outcome Scheduler.t)
    (w : Cor.World) :
  0 < threads < 2 ^ 64 →
  ∃ s s1 s2 log,
    Scheduler.ctor this threads false name stack rootFiber0 None w
    = Ret (s, None, w)
    ∧ Scheduler.dtor this None s = Abort
    ∧ Scheduler.start spawn s = Ret s1
    ∧ Scheduler.dtor this None s1 = Abort
    ∧ Scheduler.stop this None resume_root s1 = (log, Ret s2)
    ∧ Scheduler.m_stopping s2 = true
    ∧ Scheduler.m_threads s2 = []
    ∧ tickles log
      = (Z.to_nat threads + if nonnull rootFiber0 then 1 else 0)%nat
    ∧ joined log = Scheduler.m_threads s1
    ∧ length (Scheduler.m_threads s1) = Z.to_nat threads
    ∧ (∀ p, Scheduler.act_resume_root p ∉ log)
    ∧ Scheduler.start spawn s2 = Ret s2
    ∧ Scheduler.dtor this None s2 = Ret None.
Proof.
  intros Hth.
  assert (Hctor : ∃ s,
    Scheduler.ctor this threads false name stack rootFiber0 None w
    = Ret (s, None, w)
    ∧ Scheduler.m_stopping s = false ∧ Scheduler.m_threads s = []
    ∧ Scheduler.m_useCaller s = false
    ∧ Scheduler.m_rootCor s = None
    ∧ Scheduler.m_rootFiber s = rootFiber0
    ∧ Scheduler.m_threadCount s = threads).
  { unfold Scheduler.ctor.
    rewrite (bool_decide_eq_true_2 (0 < threads)) by lia. simpl.
    eexists. split; [reflexivity|]. simpl. by split_and!. }
  destruct Hctor as (s & Hctor & Hst & Hth0 & Huc & Hrc & Hrf & Hk).
  destruct (start_fresh spawn s Hst Hth0)
    as (s1 & Hstart & Hids & _ & _ & Hs1).
  assert (Hst1 : Scheduler.m_stopping s1 = false) by (by rewrite Hs1).
  assert (Hrc1 : Scheduler.m_rootCor s1 = None) by (by rewrite Hs1).
  assert (Hns : Scheduler.stopping s1 = false).
  { unfold Scheduler.stopping. by rewrite Hst1. }
  assert (Hthis : if Scheduler.m_useCaller s1
                  then None = Some this else None ≠ Some this).
  { rewrite Hs1. simpl. by rewrite Huc. }
  pose proof (stop_actions this None resume_root s1 Hns Hthis)
    as (Htk & Hrest).
  rewrite Hrc1 in Hrest. destruct Hrest as (Hret & Hjoin).
  assert (Hlog : ∀ p, Scheduler.act_resume_root p
                      ∉ (Scheduler.stop this None resume_root s1).1).
  { unfold Scheduler.stop. rewrite Hns. simpl.
    destruct (if Scheduler.m_useCaller s1 then _ else _);
      [|by intros p Ha%elem_of_nil].
    simpl. rewrite Hrc1. simpl. intros p Ha.
    apply elem_of_app in Ha as [Ha|Ha].
    { by apply elem_of_replicate in Ha as [? _]. }
    apply elem_of_app in Ha as [Ha|Ha].
    { destruct (nonnull (Scheduler.m_rootFiber s1)).
      - by apply list_elem_of_singleton in Ha.
      - by apply elem_of_nil in Ha. }
    by apply list_elem_of_fmap in Ha as (th & ? & _). }
  destruct (Scheduler.stop this None resume_root s1) as [log o] eqn:Hstop.
  simpl in Htk, Hret, Hjoin, Hlog. subst o.
  eexists s, s1, _, log.
  split; [exact Hctor|].
  split; [unfold Scheduler.dtor; by rewrite Hst|].
  split; [exact Hstart|].
  split; [unfold Scheduler.dtor; by rewrite Hst1|].
  split; [exact Hstop|]. split; [reflexivity|]. split; [reflexivity|].
  split.
  { rewrite Htk, Hs1. simpl. by rewrite Hk, Hrf. }
  split; [exact Hjoin|].
  split.
  { rewrite <- (length_fmap Scheduler.th_id). fold (th_ids s1).
    rewrite Hids, length_fmap, length_seq. by rewrite Hk. }
  split; [exact Hlog|].
  split; [reflexivity|].
  unfold Scheduler.dtor, Scheduler.GetThis. simpl. reflexivity.
Qed.

Lemma scheduler_stop_then_destroy_witness :
  ∃ s s1 s2 log,
    Scheduler.ctor 100%nat 2 false "s" 4096 None None Cor.World0
    = Ret (s, None, Cor.World0)
    ∧ Scheduler.dtor 100%nat None s = Abort
    ∧ Scheduler.start spawn_from_7 s = Ret s1
    ∧ Scheduler.dtor 100%nat None s1 = Abort
    ∧ Scheduler.stop 100%nat None (λ _, Undefined) s1 = (log, Ret s2)
    ∧ Scheduler.m_stopping s2 = true
    ∧ Scheduler.m_threads s2 = []
    ∧ tickles log = 2%nat
    ∧ joined log = Scheduler.m_threads s1
    ∧ length (Scheduler.m_threads s1) = 2%nat
    ∧ (∀ p, Scheduler.act_resume_root p ∉ log)
    ∧ Scheduler.start spawn_from_7 s2 = Ret s2
    ∧ Scheduler.dtor 100%nat None s2 = Ret None.
Proof.
  apply (scheduler_stop_then_destroy 100%nat 2 "s" 4096 None
           spawn_from_7 (λ _, Undefined) Cor.World0); lia.
Defined.

(** ** Printing event masks *)

Lemma string_app_assoc (s1 s2 s3 : string) :
  (s1 +:+ s2) +:+ s3 = s1 +:+ (s2 +:+ s3).
Proof.
  induction s1 as [|a s1 IH]; [done|].
  change (String a ((s1 +:+ s2) +:+ s3) = String a (s1 +:+ (s2 +:+ s3))).
  by rewrite IH.
Qed.

Lemma flag_names_cons (events E : Z) (name : string)
    (flags : list (Z * string)) :
  flag_names events ((E, name) :: flags)
  = if negb (bool_decide (Z.land events E = 0))
    then name :: flag_names events flags
    else flag_names events flags.
Proof.
  unfold flag_names. simpl.
  by destruct (negb (bool_decide (Z.land events E = 0))).
Qed.

Lemma foldl_XX (events : Z) (flags : list (Z * string)) (os : string)
    (first : bool) :
  foldl (IOManager.XX events) (os, first) flags
  = match flag_names events flags with
    | [] => (os, first)
    | ns => ((if first then os else os +:+ "|") +:+ String.concat "|" ns,
             false)
    end.
Proof.
  revert os first. induction flags as [|[E name] flags IH]; intros os first.
  - reflexivity.
  - rewrite flag_names_cons.
    change (foldl (IOManager.XX events) (os, first) ((E, name) :: flags))
      with (foldl (IOManager.XX events)
              (if negb (bool_decide (Z.land events E = 0))
               then ((if negb first then os +:+ "|" else os) +:+ name, false)
               else (os, first)) flags).
    destruct (negb (bool_decide (Z.land events E = 0))).
    + rewrite IH. destruct (flag_names events flags) as [|n ns].
      * by destruct first.
      * change (String.concat "|" (name :: n :: ns))
          with (name +:+ "|" +:+ String.concat "|" (n :: ns)).
        f_equal. destruct first; cbn [negb]; by rewrite !string_app_assoc.
    + apply IH.
Qed.

(** X15.  For a mask that is not zero, [operator<<] for [EPOLL_EVENTS]
    appends to the stream the names of the flags of its table that are set
    in the mask, in the order of the table and separated by single bars,
    with no bar before the first or after the last; bits outside the table
    are passed over, so a mask made only of such bits appends nothing. *)
Theorem show_EPOLL_EVENTS_names (os : string) (events : Z) :
  events ≠ 0 →
  IOManager.show_EPOLL_EVENTS os events
  = os +:+ String.concat "|" (flag_names events IOManager.EPOLL_flags).
Proof.
  intros Hev. unfold IOManager.show_EPOLL_EVENTS.
  rewrite (bool_decide_eq_false_2 _ Hev), foldl_XX.
  destruct (flag_names events IOManager.EPOLL_flags) as [|n ns]; [|done].
  change (os = os +:+ EmptyString). induction os as [|a os IH]; [done|].
  change (String a os = String a (os +:+ EmptyString)). by rewrite <- IH.
Qed.

Lemma show_EPOLL_EVENTS_names_witness :
  IOManager.show_EPOLL_EVENTS "ev=" (Z.lor IOManager.EPOLLET 5)
  = "ev=EPOLLIN|EPOLLOUT|EPOLLET"
  ∧ IOManager.show_EPOLL_EVENTS "ev=" 32 = "ev=".
Proof.
  split.
  - apply (show_EPOLL_EVENTS_names "ev=" (Z.lor IOManager.EPOLLET 5)).
    discriminate.
  - apply (show_EPOLL_EVENTS_names "ev=" 32). discriminate.
Defined.

(** ** Registering and unregistering events *)

Lemma land_lor_lnot (e ev : Z) :
  Z.land e ev = 0 → Z.land (Z.lor e ev) (Z.lnot ev) = e.
Proof.
  intros H. apply Z.bits_inj'. intros n Hn.
  rewrite Z.land_spec, Z.lor_spec, Z.lnot_spec by done.
  assert (Hb : Z.testbit (Z.land e ev) n = false)
    by (rewrite H; apply Z.bits_0).
  rewrite Z.land_spec in Hb.
  destruct (Z.testbit e n), (Z.testbit ev n); simpl in *; congruence.
Qed.

Lemma land_lor_self (e ev : Z) :
  ev ≠ 0 → Z.land (Z.lor e ev) ev ≠ 0.
Proof.
  intros Hev H. apply Hev. apply Z.bits_inj'. intros n Hn.
  assert (Hb : Z.testbit (Z.land (Z.lor e ev) ev) n = false)
    by (rewrite H; apply Z.bits_0).
  rewrite Z.land_spec, Z.lor_spec in Hb. rewrite Z.bits_0.
  destruct (Z.testbit e n), (Z.testbit ev n); simpl in *; congruence.
Qed.

Lemma getEventContext_nonzero (event : Z) (k : IOManager.slot) :
  IOManager.getEventContext event = Ret k → event ≠ 0.
Proof.
  intros H. by destruct (getEventContext_Ret _ _ H) as [[-> _] | [-> _]].
Qed.

Lemma addEvent_in_table (epoll_ctl : Z → Z → Z → Z → Z)
    (t_scheduler : option addr) (fd event : Z) (cb : option Callback)
    (io : IOManager.t) (w : Cor.World) (c : IOManager.FdContext)
    (k : IOManager.slot) (p : addr) (cc : Cor.t) :
  Z.of_nat (length (IOManager.m_fdContexts io)) < 2 ^ 31 →
  0 ≤ fd →
  IOManager.m_fdContexts io !! Z.to_nat fd = Some (Some c) →
  IOManager.getEventContext event = Ret k →
  Z.land (IOManager.events c) event = 0 →
  IOManager.get_slot k c = IOManager.EventContext_empty →
  addEvent_rt epoll_ctl io fd event c = 0 →
  nonnull cb = true
  ∨ (Cor.t_cor w = Some p ∧ Cor.heap w !! p = Some cc
     ∧ Cor.m_state cc = Cor.RUNNING) →
  IOManager.addEvent epoll_ctl t_scheduler fd event cb io w
  = Ret (0,
         registered io (IOManager.m_fdContexts io) fd event k
           {| IOManager.scheduler := t_scheduler;
              IOManager.cor := if nonnull cb then None else Some p;
              IOManager.cb := cb |} c,
         w).
Proof.
  intros Hlen Hfd Hc Hk Hland Hslot Hrt Hwho.
  assert (Hin : fd < Z.of_nat (length (IOManager.m_fdContexts io))).
  { apply lookup_lt_Some in Hc. lia. }
  unfold IOManager.addEvent.
  rewrite to_int_small by lia.
  rewrite (bool_decide_eq_true_2 _ Hin).
  rewrite (proj2 (at_fd_Ret _ _ _) (conj Hfd Hc)). simpl.
  rewrite (bool_decide_eq_true_2 _ Hland). simpl.
  fold (addEvent_rt epoll_ctl io fd event c). rewrite Hrt. simpl.
  rewrite Hk. simpl.
  replace (IOManager.get_slot k
             (IOManager.set_events (Z.lor (IOManager.events c) event) c))
    with (IOManager.get_slot k c) by (by destruct k).
  rewrite Hslot. simpl.
  destruct cb as [f|]; simpl; [reflexivity|].
  destruct Hwho as [? | (Ht & Hp & Hst)]; [done|].
  unfold Cor.GetThis, Cor.deref. rewrite Ht, Hp. simpl. rewrite Hp. simpl.
  unfold Cor.getState. rewrite Hst. reflexivity.
Qed.

(** X16.  Registering an event and unregistering it again gives back the
    manager that was there: for a descriptor whose context is in the
    table with the bit clear and the slot empty, and a kernel that accepts
    the requests, [addEvent] returns 0, the [delEvent] that follows returns
    true and leaves the manager (count, table, every context) exactly as
    it was before the [addEvent], and a further [delEvent] returns false
    and changes nothing.  This holds for a callback and for the current
    fiber as the thing to wake. *)
Theorem addEvent_delEvent_round_trip (epoll_ctl : Z → Z → Z → Z → Z)
    (t_scheduler : option addr) (fd event : Z) (cb : option Callback)
    (io : IOManager.t) (w : Cor.World) (c : IOManager.FdContext)
    (k : IOManager.slot) (p : addr) (cc : Cor.t) :
  Z.of_nat (length (IOManager.m_fdContexts io)) < 2 ^ 31 →
  0 ≤ fd →
  IOManager.m_fdContexts io !! Z.to_nat fd = Some (Some c) →
  IOManager.getEventContext event = Ret k →
  Z.land (IOManager.events c) event = 0 →
  IOManager.get_slot k c = IOManager.EventContext_empty →
  (∀ op e, epoll_ctl (IOManager.m_epfd io) op fd e = 0) →
  nonnull cb = true
  ∨ (Cor.t_cor w = Some p ∧ Cor.heap w !! p = Some cc
     ∧ Cor.m_state cc = Cor.RUNNING) →
  ∃ io1,
    IOManager.addEvent epoll_ctl t_scheduler fd event cb io w
    = Ret (0, io1, w)
    ∧ IOManager.m_pendingEventCount io1 = IOManager.m_pendingEventCount io + 1
    ∧ IOManager.delEvent epoll_ctl fd event io1 = Ret (true, io)
    ∧ IOManager.delEvent epoll_ctl fd event io = Ret (false, io).
Proof.
  intros Hlen Hfd Hc Hk Hland Hslot Hepoll Hwho.
  assert (Hin : fd < Z.of_nat (length (IOManager.m_fdContexts io))).
  { apply lookup_lt_Some in Hc. lia. }
  eexists. split.
  { apply (addEvent_in_table epoll_ctl t_scheduler fd event cb io w c k p cc);
      try done. apply Hepoll. }
  split; [reflexivity|]. split.
  - unfold IOManager.delEvent, registered. simpl.
    rewrite length_insert, to_int_small by lia.
    rewrite bool_decide_eq_false_2 by lia.
    unfold IOManager.at_fd. rewrite bool_decide_eq_false_2 by lia.
    rewrite list_lookup_insert_eq by (apply lookup_lt_Some in Hc; lia).
    simpl. rewrite events_set_slot. simpl.
    rewrite (bool_decide_eq_false_2 _
               (land_lor_self _ _ (getEventContext_nonzero _ _ Hk))).
    rewrite (land_lor_lnot _ _ Hland), Hepoll. simpl. rewrite Hk. simpl.
    rewrite list_insert_insert_eq. do 2 f_equal.
    destruct io as [epfd tk n v]. simpl in *. f_equal; [lia|].
    apply list_insert_id. rewrite Hc. do 2 f_equal.
    destruct k, c; simpl in *; by subst.
  - unfold IOManager.delEvent.
    rewrite to_int_small by lia. rewrite bool_decide_eq_false_2 by lia.
    rewrite (proj2 (at_fd_Ret _ _ _) (conj Hfd Hc)). simpl.
    by rewrite (bool_decide_eq_true_2 _ Hland).
Qed.

Lemma addEvent_delEvent_round_trip_witness :
  ∃ io1,
    IOManager.addEvent epoll_ok (Some 100%nat) 3 IOManager.READ
      (Some (cb_user 1)) io_fresh Cor.World0
    = Ret (0, io1, Cor.World0)
    ∧ IOManager.m_pendingEventCount io1 = 0 + 1
    ∧ IOManager.delEvent epoll_ok 3 IOManager.READ io1 = Ret (true, io_fresh)
    ∧ IOManager.delEvent epoll_ok 3 IOManager.READ io_fresh
      = Ret (false, io_fresh).
Proof.
  apply (addEvent_delEvent_round_trip epoll_ok (Some 100%nat) 3
           IOManager.READ (Some (cb_user 1)) io_fresh Cor.World0
           (IOManager.set_fd 3 IOManager.FdContext_new)
           IOManager.slot_read 0%nat Cor.default).
  - reflexivity.
  - lia.
  - reflexivity.
  - reflexivity.
  - reflexivity.
  - reflexivity.
  - reflexivity.
  - left. reflexivity.
Defined.

(** X17.  A registered event fires once.  After [addEvent] has
    registered a callback or the current fiber for [event] on [fd] (the
    kernel having accepted that request), on a thread whose current
    scheduler is [a], [triggerEvent] on the context of [fd] appends
    exactly that callback or fiber, pinned to no thread, to the queue of
    [a] (with a [tickle()] when the queue was empty), clears the bit and
    empties the slot, so that the context is again as it was before the
    registration; the pending-event count stays raised.  A second
    [triggerEvent] for the event aborts.  [triggerEvent] makes no system
    call: an [addEvent] for the event after it puts to the kernel the
    request the first one made, and registers the event or returns -1
    with nothing changed as the kernel, whose answer [epoll_ctl'] is,
    accepts or refuses it. *)
Theorem registered_event_fires_once (epoll_ctl : Z → Z → Z → Z → Z)
    (a : addr) (s : Scheduler.t) (σ : gmap addr Scheduler.t)
    (fd event : Z) (cb : option Callback)
    (io : IOManager.t) (w : Cor.World) (c : IOManager.FdContext)
    (k : IOManager.slot) (p : addr) (cc : Cor.t) :
  Z.of_nat (length (IOManager.m_fdContexts io)) < 2 ^ 31 →
  0 ≤ fd →
  IOManager.m_fdContexts io !! Z.to_nat fd = Some (Some c) →
  IOManager.getEventContext event = Ret k →
  Z.land (IOManager.events c) event = 0 →
  IOManager.get_slot k c = IOManager.EventContext_empty →
  addEvent_rt epoll_ctl io fd event c = 0 →
  nonnull cb = true
  ∨ (Cor.t_cor w = Some p ∧ Cor.heap w !! p = Some cc
     ∧ Cor.m_state cc = Cor.RUNNING) →
  σ !! a = Some s →
  ∃ io1 io2 σ',
    IOManager.addEvent epoll_ctl (Some a) fd event cb io w = Ret (0, io1, w)
    ∧ trigger_at fd event σ io1
      = Ret (σ', io2,
             if bool_decide (Scheduler.m_tasks s = [])
             then [Scheduler.act_tickle] else [])
    ∧ σ' = <[a := Scheduler.set_tasks
                     (Scheduler.m_tasks s
                      ++ [{| Scheduler.cor :=
                               if nonnull cb then None else Some p;
                             Scheduler.cb := cb;
                             Scheduler.thread := -1 |}]) s]> σ
    ∧ IOManager.m_fdContexts io2 = IOManager.m_fdContexts io
    ∧ IOManager.m_pendingEventCount io2
      = IOManager.m_pendingEventCount io + 1
    ∧ trigger_at fd event σ' io2 = Abort
    ∧ ∀ epoll_ctl' : Z → Z → Z → Z → Z,
        IOManager.addEvent epoll_ctl' (Some a) fd event cb io2 w
        = Ret (if bool_decide (addEvent_rt epoll_ctl' io fd event c = 0)
               then (0,
                     registered io2 (IOManager.m_fdContexts io) fd event k
                       {| IOManager.scheduler := Some a;
                          IOManager.cor :=
                            if nonnull cb then None else Some p;
                          IOManager.cb := cb |} c,
                     w)
               else (-1, io2, w)).
Proof.
  intros Hlen Hfd Hc Hk Hland Hslot Hepoll Hwho Ha.
  assert (Hin : (Z.to_nat fd < length (IOManager.m_fdContexts io))%nat)
    by (by apply lookup_lt_Some in Hc).
  set (ec := {| IOManager.scheduler := Some a;
                IOManager.cor := if nonnull cb then None else Some p;
                IOManager.cb := cb |}).
  set (io2 := {| IOManager.m_epfd := IOManager.m_epfd io;
                 IOManager.m_tickleFds := IOManager.m_tickleFds io;
                 IOManager.m_pendingEventCount :=
                   IOManager.m_pendingEventCount io + 1;
                 IOManager.m_fdContexts := IOManager.m_fdContexts io |}).
  exists (registered io (IOManager.m_fdContexts io) fd event k ec c), io2.
  eexists. split.
  { by apply (addEvent_in_table epoll_ctl (Some a) fd event cb io w c k p
                cc). }
  split; [|split; [reflexivity|]].
  - unfold trigger_at, registered. simpl.
    unfold IOManager.at_fd. rewrite bool_decide_eq_false_2 by lia.
    rewrite list_lookup_insert_eq by done. simpl.
    unfold IOManager.triggerEvent. rewrite events_set_slot. simpl.
    rewrite (bool_decide_eq_false_2 _
               (land_lor_self _ _ (getEventContext_nonzero _ _ Hk))).
    simpl. rewrite Hk. simpl.
    replace (IOManager.get_slot k
               (IOManager.set_events _ (IOManager.set_slot k ec _)))
      with ec by (by destruct k).
    simpl. rewrite Ha.
    assert (Hsched :
      (if nonnull cb
       then Scheduler.schedule (Scheduler.of_cb cb) (-1) s
       else Scheduler.schedule
              (Scheduler.of_cor (if nonnull cb then None else Some p))
              (-1) s)
      = (Scheduler.set_tasks
           (Scheduler.m_tasks s
            ++ [{| Scheduler.cor := if nonnull cb then None else Some p;
                   Scheduler.cb := cb; Scheduler.thread := -1 |}]) s,
         if bool_decide (Scheduler.m_tasks s = [])
         then [Scheduler.act_tickle] else [])).
    { destruct cb as [f|]; reflexivity. }
    rewrite Hsched. simpl. rewrite list_insert_insert_eq.
    do 3 f_equal. unfold IOManager.set_fdContexts, io2. simpl. f_equal.
    apply list_insert_id. rewrite Hc. do 2 f_equal.
    rewrite (land_lor_lnot _ _ Hland).
    destruct k, c; simpl in *; by subst.
  - split; [reflexivity|]. split; [reflexivity|]. split.
    + unfold trigger_at. simpl.
      rewrite (proj2 (at_fd_Ret _ _ _) (conj Hfd Hc)). simpl.
      unfold IOManager.triggerEvent.
      by rewrite (bool_decide_eq_true_2 _ Hland).
    + intros epoll_ctl'.
      destruct (decide (addEvent_rt epoll_ctl' io fd event c = 0))
        as [Hrt | Hrt].
      * rewrite (bool_decide_eq_true_2 _ Hrt).
        by apply (addEvent_in_table epoll_ctl' (Some a) fd event cb io2 w
                    c k p cc).
      * rewrite (bool_decide_eq_false_2 _ Hrt).
        assert (Hlt : fd < Z.of_nat (length (IOManager.m_fdContexts io)))
          by lia.
        unfold IOManager.addEvent.
        change (IOManager.m_fdContexts io2) with (IOManager.m_fdContexts io).
        rewrite to_int_small by lia.
        rewrite (bool_decide_eq_true_2 _ Hlt).
        rewrite (proj2 (at_fd_Ret _ _ _) (conj Hfd Hc)). simpl.
        rewrite (bool_decide_eq_true_2 _ Hland). simpl.
        fold (addEvent_rt epoll_ctl' io fd event c).
        by rewrite (bool_decide_eq_false_2 _ Hrt).
Qed.

Lemma registered_event_fires_once_witness :
  ∃ io1 io2 σ',
    IOManager.addEvent epoll_ok (Some 100%nat) 3 IOManager.READ
      (Some (cb_user 1)) io_fresh Cor.World0
    = Ret (0, io1, Cor.World0)
    ∧ trigger_at 3 IOManager.READ schedulers_100 io1
      = Ret (σ', io2, [Scheduler.act_tickle])
    ∧ σ' = schedulers_100_after
    ∧ IOManager.m_fdContexts io2 = IOManager.m_fdContexts io_fresh
    ∧ IOManager.m_pendingEventCount io2 = 0 + 1
    ∧ trigger_at 3 IOManager.READ σ' io2 = Abort
    ∧ IOManager.addEvent epoll_refuses (Some 100%nat) 3 IOManager.READ
        (Some (cb_user 1)) io2 Cor.World0
      = Ret (-1, io2, Cor.World0).
Proof.
  destruct (registered_event_fires_once epoll_ok 100%nat (sched_with [])
           schedulers_100 3 IOManager.READ (Some (cb_user 1)) io_fresh
           Cor.World0 (IOManager.set_fd 3 IOManager.FdContext_new)
           IOManager.slot_read 0%nat Cor.default)
    as (io1 & io2 & σ' & H1 & H2 & H3 & H4 & H5 & H6 & H7).
  - reflexivity.
  - lia.
  - reflexivity.
  - reflexivity.
  - reflexivity.
  - reflexivity.
  - reflexivity.
  - left. reflexivity.
  - reflexivity.
  - exists io1, io2, σ'. split; [exact H1|]. split; [exact H2|].
    split; [exact H3|]. split; [exact H4|]. split; [exact H5|].
    split; [exact H6|]. exact (H7 epoll_refuses).
Defined.

(** X18.  Only [READ] and [WRITE], one at a time, can be registered.  For
    any other [event] value (for one, [NONE] or [READ | WRITE]),
    [addEvent] never returns 0: it returns -1 with the world untouched
    when the kernel refuses, and when the kernel accepts the request it
    aborts in [getEventContext], after the system call has been made.
    [delEvent] never returns true for such a value and leaves the manager
    alone. *)
Theorem only_READ_or_WRITE_registers (epoll_ctl : Z → Z → Z → Z → Z)
    (t_scheduler : option addr) (fd event : Z) (cb : option Callback)
    (io : IOManager.t) (w : Cor.World) :
  event ≠ IOManager.READ → event ≠ IOManager.WRITE →
  table_wf (IOManager.m_fdContexts io) →
  Z.of_nat (length (IOManager.m_fdContexts io)) < 2 ^ 31 →
  (∀ r io' w',
     IOManager.addEvent epoll_ctl t_scheduler fd event cb io w
       = Ret (r, io', w') →
     r = -1 ∧ w' = w
     ∧ IOManager.m_pendingEventCount io' = IOManager.m_pendingEventCount io)
  ∧ (∀ c, 0 ≤ fd →
          IOManager.m_fdContexts io !! Z.to_nat fd = Some (Some c) →
          Z.land (IOManager.events c) event = 0 →
          addEvent_rt epoll_ctl io fd event c = 0 →
          IOManager.addEvent epoll_ctl t_scheduler fd event cb io w = Abort)
  ∧ (∀ b io', IOManager.delEvent epoll_ctl fd event io = Ret (b, io') →
              b = false ∧ io' = io).
Proof.
  intros HR HW Hwf Hlen.
  assert (Hk : ∀ k, IOManager.getEventContext event ≠ Ret k).
  { intros k H. destruct (getEventContext_Ret _ _ H) as [[? _] | [? _]]; done. }
  split; [|split].
  - intros r io' w' Hret.
    destruct (addEvent_Ret _ _ _ _ _ _ _ _ _ _ Hwf Hlen Hret)
      as (_ & _ & _ & [(-> & _ & -> & ->) | (_ & _ & k & ec & Hk' & _)]).
    + done.
    + by destruct (Hk k).
  - intros c Hfd Hc Hland Hrt.
    assert (Hin : fd < Z.of_nat (length (IOManager.m_fdContexts io))).
    { apply lookup_lt_Some in Hc. lia. }
    unfold IOManager.addEvent.
    rewrite to_int_small by lia.
    rewrite (bool_decide_eq_true_2 _ Hin).
    rewrite (proj2 (at_fd_Ret _ _ _) (conj Hfd Hc)). simpl.
    rewrite (bool_decide_eq_true_2 _ Hland). simpl.
    fold (addEvent_rt epoll_ctl io fd event c). rewrite Hrt. simpl.
    unfold IOManager.getEventContext.
    by rewrite (bool_decide_eq_false_2 _ HR), (bool_decide_eq_false_2 _ HW).
  - intros b io' Hret.
    destruct (delEvent_Ret _ _ _ _ _ _ Hret)
      as [[-> ->] | (_ & c & k & _ & _ & _ & _ & Hk' & _)]; [done|].
    by destruct (Hk k).
Qed.

Lemma only_READ_or_WRITE_registers_witness :
  IOManager.addEvent epoll_ok (Some 100%nat) 3
    (Z.lor IOManager.READ IOManager.WRITE) (Some (cb_user 1))
    io_fresh Cor.World0
  = Abort.
Proof.
  destruct (only_READ_or_WRITE_registers epoll_ok (Some 100%nat) 3
              (Z.lor IOManager.READ IOManager.WRITE) (Some (cb_user 1))
              io_fresh Cor.World0) as (_ & H & _).
  - discriminate.
  - discriminate.
  - exact io_fresh_wf.
  - reflexivity.
  - apply (H (IOManager.set_fd 3 IOManager.FdContext_new));
      [lia | reflexivity | reflexivity | reflexivity].
Defined.

(** ** The table of fd contexts *)

Lemma fd_index_insert (v : list (option IOManager.FdContext)) (i : nat)
    (c : IOManager.FdContext) :
  fd_index_inv v → IOManager.fd c = Z.of_nat i →
  fd_index_inv (<[i := Some c]> v).
Proof.
  intros Hv Hc j d Hj.
  destruct (decide (i = j)) as [<- | Hne].
  - destruct (decide (i < length v)%nat) as [Hlt | Hge].
    + rewrite list_lookup_insert_eq in Hj by done. by injection Hj as <-.
    + rewrite list_insert_ge in Hj by lia. by apply Hv.
  - rewrite list_lookup_insert_ne in Hj by done. by apply Hv.
Qed.

Lemma same_but_at_insert (fd : Z) (v : list (option IOManager.FdContext))
    (o : option IOManager.FdContext) :
  same_but_at fd v (<[Z.to_nat fd := o]> v).
Proof.
  split; [by rewrite length_insert|].
  intros i Hi _. by rewrite list_lookup_insert_ne.
Qed.

Lemma same_but_at_trans (fd : Z) (v1 v2 v3 : list (option IOManager.FdContext)) :
  same_but_at fd v1 v2 → same_but_at fd v2 v3 → same_but_at fd v1 v3.
Proof.
  intros [L1 H1] [L2 H2]. split; [lia|].
  intros i Hi Hlt. rewrite H2 by (done || lia). by apply H1.
Qed.

Lemma grown_fd_index (v : list (option IOManager.FdContext)) (fd : Z) :
  table_wf v →
  Z.of_nat (length v) < 2 ^ 31 →
  0 ≤ fd →
  fd_index_inv v →
  fd_index_inv (grown v fd) ∧ same_but_at fd v (grown v fd).
Proof.
  intros Hwf Hlen Hfd Hv. unfold grown. rewrite to_int_small by lia.
  destruct (bool_decide_reflect (fd < Z.of_nat (length v))) as [Hin | Hout].
  - split; [done|]. by split.
  - assert (Hn : Z.of_nat (length v) ≤ fd * 3 / 2).
    { assert (fd ≤ fd * 3 / 2) by (apply Z.div_le_lower_bound; lia). lia. }
    destruct (contextResize_grow v (fd * 3 / 2) Hwf Hn) as (T & -> & _ & HT).
    split.
    + intros i c Hi.
      destruct (decide (i < length v)%nat) as [Hlt | Hge].
      * rewrite lookup_app_l in Hi by done. by apply Hv.
      * rewrite lookup_app_r in Hi by lia.
        assert (Hlt : (i - length v < length T)%nat)
          by (by apply lookup_lt_Some in Hi).
        rewrite (HT _ Hlt) in Hi. injection Hi as <-. simpl. lia.
    + split; [rewrite length_app; lia|].
      intros i _ Hlt. by rewrite lookup_app_l.
Qed.

(** X19.  In the table of the manager every context sits at the index
    that is its [fd]: the constructor builds the table so; [addEvent],
    [delEvent] and [triggerEvent] through the table keep it so.  Each of
    them leaves the contexts of all other descriptors as they are, and
    the table never shrinks ([addEvent] may extend it with fresh
    contexts). *)
Theorem fd_contexts_stay_in_place (epoll_ctl : Z → Z → Z → Z → Z)
    (t_scheduler : option addr) (fd event : Z) (cb : option Callback)
    (io io' : IOManager.t) (w w' : Cor.World) (r : Z) (b : bool)
    (σ σ' : gmap addr Scheduler.t) (log : list Scheduler.action)
    (epfd pipe_rt fcntl_rt : Z) (fds : Z * Z) :
  (IOManager.ctor epfd pipe_rt fds fcntl_rt = Ret io →
   fd_index_inv (IOManager.m_fdContexts io))
  ∧ (table_wf (IOManager.m_fdContexts io) →
     Z.of_nat (length (IOManager.m_fdContexts io)) < 2 ^ 31 →
     fd_index_inv (IOManager.m_fdContexts io) →
     IOManager.addEvent epoll_ctl t_scheduler fd event cb io w
       = Ret (r, io', w') →
     fd_index_inv (IOManager.m_fdContexts io')
     ∧ same_but_at fd (IOManager.m_fdContexts io)
         (IOManager.m_fdContexts io'))
  ∧ (fd_index_inv (IOManager.m_fdContexts io) →
     IOManager.delEvent epoll_ctl fd event io = Ret (b, io') →
     fd_index_inv (IOManager.m_fdContexts io')
     ∧ same_but_at fd (IOManager.m_fdContexts io)
         (IOManager.m_fdContexts io')
     ∧ length (IOManager.m_fdContexts io')
       = length (IOManager.m_fdContexts io))
  ∧ (fd_index_inv (IOManager.m_fdContexts io) →
     trigger_at fd event σ io = Ret (σ', io', log) →
     fd_index_inv (IOManager.m_fdContexts io')
     ∧ same_but_at fd (IOManager.m_fdContexts io)
         (IOManager.m_fdContexts io')
     ∧ length (IOManager.m_fdContexts io')
       = length (IOManager.m_fdContexts io)).
Proof.
  split; [|split; [|split]].
  - unfold IOManager.ctor.
    destruct (EVENT_ASSERT (bool_decide (0 < epfd))); [|discriminate..].
    destruct (EVENT_ASSERT (bool_decide (pipe_rt = 0))); [|discriminate..].
    destruct (EVENT_ASSERT (bool_decide (fcntl_rt = 0))); [|discriminate..].
    intros [= <-]. unfold IOManager.m_fdContexts.
    destruct (contextResize_grow [] 32) as (T & -> & _ & HT);
      [constructor | simpl; lia |].
    intros i c Hi. simpl in Hi.
    assert (Hlt : (i < length T)%nat) by (by apply lookup_lt_Some in Hi).
    rewrite (HT _ Hlt) in Hi. by injection Hi as <-.
  - intros Hwf Hlen Hinv Hret.
    destruct (addEvent_Ret _ _ _ _ _ _ _ _ _ _ Hwf Hlen Hret)
      as (Hfd & Hv & _ & Hcases).
    destruct (grown_fd_index _ fd Hwf Hlen Hfd Hinv) as [Hg Hs].
    destruct Hcases as [(_ & _ & -> & _) | (_ & _ & k & ec & _ & _ & -> & _)].
    + by split.
    + simpl. split.
      * apply fd_index_insert; [done|].
        rewrite <- (Hg _ _ Hv). by destruct k.
      * eapply same_but_at_trans; [exact Hs | apply same_but_at_insert].
  - intros Hinv Hret.
    destruct (delEvent_Ret _ _ _ _ _ _ Hret)
      as [[_ ->] | (_ & c & k & Hfd & Hc & _ & _ & _ & ->)].
    + split; [done|]. split; [by split | done].
    + simpl. split; [|split].
      * apply fd_index_insert; [done|].
        rewrite <- (Hinv _ _ Hc). by destruct k.
      * apply same_but_at_insert.
      * apply length_insert.
  - intros Hinv. unfold trigger_at.
    destruct (IOManager.at_fd (IOManager.m_fdContexts io) fd)
      as [c| |] eqn:Hat; [|discriminate..].
    apply at_fd_Ret in Hat as [Hfd Hc]. simpl.
    destruct (IOManager.triggerEvent event σ c) as [[[σ1 c1] log1]| |] eqn:Htr;
      [|discriminate..].
    simpl. intros [= <- <- <-].
    destruct (triggerEvent_Ret _ _ _ _ _ _ Htr)
      as (_ & k & a & s & _ & _ & _ & -> & _).
    simpl. split; [|split].
    + apply fd_index_insert; [done|].
      rewrite <- (Hinv _ _ Hc). by destruct k.
    + apply same_but_at_insert.
    + apply length_insert.
Qed.

Lemma fd_contexts_stay_in_place_witness :
  ∃ io',
    IOManager.addEvent epoll_ok (Some 100%nat) 40 IOManager.WRITE
      (Some (cb_user 1)) io_fresh Cor.World0
    = Ret (0, io', Cor.World0)
    ∧ fd_index_inv (IOManager.m_fdContexts io')
    ∧ same_but_at 40 (IOManager.m_fdContexts io_fresh)
        (IOManager.m_fdContexts io').
Proof.
  eexists.
  match goal with
  | |- ?A ∧ _ => assert (H : A) by (vm_compute; reflexivity)
  end.
  split; [exact H|].
  match type of H with
  | _ = Ret (_, ?io1, _) =>
      destruct (fd_contexts_stay_in_place epoll_ok (Some 100%nat) 40
                  IOManager.WRITE (Some (cb_user 1)) io_fresh io1 Cor.World0
                  Cor.World0 0 false ∅ ∅ [] 5 0 0 (6, 7)) as (H1 & H2 & _)
  end.
  apply H2; [exact io_fresh_wf | reflexivity | by apply H1 | exact H].
Defined.

(** ** The fiber counter *)

Lemma reset_same_ids (p : addr) (f : option Callback) (w w' : Cor.World) :
  Cor.reset p f w = Ret w' → same_ids w w'.
Proof.
  unfold Cor.reset, Cor.deref.
  destruct (Cor.heap w !! p) as [c|] eqn:Hp; [|discriminate]. simpl.
  destruct (negb (bool_decide (Cor.m_stack c = 0))); [|discriminate].
  simpl. destruct (bool_decide (Cor.m_state c = Cor.TERM)); [|discriminate].
  simpl. intros [= <-]. by apply (same_ids_store w p c).
Qed.

Lemma resume_same_ids (p : addr) (w w' : Cor.World) :
  Cor.resume p w = Ret w' → same_ids w w'.
Proof.
  unfold Cor.resume, Cor.deref.
  destruct (Cor.heap w !! p) as [c|] eqn:Hp; [|discriminate]. simpl.
  destruct (_ && _); [|discriminate]. simpl.
  destruct (Cor.t_thread_cor w) as [main|]; [|discriminate].
  intros Hsw. apply swapcontext_same_ids in Hsw.
  eapply same_ids_trans; [|exact Hsw].
  apply (same_ids_trans _ (Cor.SetThis (Some p) w)); [by split|].
  by apply (same_ids_store (Cor.SetThis (Some p) w) p c).
Qed.

Lemma yield_same_ids (p : addr) (w w' : Cor.World) :
  Cor.yield p w = Ret w' → same_ids w w'.
Proof.
  unfold Cor.yield, Cor.yield_prepare, Cor.deref.
  destruct (Cor.heap w !! p) as [c|] eqn:Hp; [|discriminate]. simpl.
  destruct (_ || _); [|discriminate]. simpl.
  set (w1 := if negb (bool_decide (Cor.m_state c = Cor.TERM)) then _ else _).
  assert (H1 : same_ids w w1).
  { subst w1. destruct (negb _).
    - apply (same_ids_trans _ (Cor.SetThis (Cor.t_thread_cor w) w));
        [by split|].
      by apply (same_ids_store (Cor.SetThis (Cor.t_thread_cor w) w) p c).
    - by split. }
  destruct (Cor.t_thread_cor w1) as [main|]; [|discriminate].
  intros Hsw. apply swapcontext_same_ids in Hsw.
  by eapply same_ids_trans.
Qed.

Lemma same_ids_count_live (w w' : Cor.World) :
  same_ids w w' → count_live w → count_live w'.
Proof.
  intros [[_ C] H] Hc. unfold count_live. rewrite C, Hc. do 2 f_equal.
  rewrite <- !size_dom. f_equal. apply set_eq. intros p.
  rewrite !elem_of_dom. specialize (H p).
  destruct (Cor.heap w !! p), (Cor.heap w' !! p); simpl in H;
    try discriminate; split; intros [? ?]; eauto; discriminate.
Qed.

(** X20.  The fiber counter [e_cor_count] always equals the number of
    [Cor] objects that exist (modulo 2^64, the width of the counter): this
    holds before any fiber exists; each of the two constructors adds one
    object and one to the counter; [reset], [resume] and [yield] add and
    remove none; the destructor takes one of each away. *)
Theorem fiber_count_is_live_objects (w w' : Cor.World) (p : addr)
    (f : option Callback) (stacksize stack : Z) (freed : option (Z * Z)) :
  count_live Cor.World0
  ∧ (count_live w → count_live (Cor.new f stacksize stack w).2)
  ∧ (count_live w → Cor.GetThis w = Ret (p, w') → count_live w')
  ∧ (count_live w → Cor.reset p f w = Ret w' → count_live w')
  ∧ (count_live w → Cor.resume p w = Ret w' → count_live w')
  ∧ (count_live w → Cor.yield p w = Ret w' → count_live w')
  ∧ (count_live w → Cor.destroy p w = Ret (w', freed) → count_live w').
Proof.
  split; [reflexivity|]. split; [|split; [|split; [|split; [|split]]]].
  - intros Hc. unfold count_live in *. simpl.
    rewrite map_size_insert_None by apply new_addr_fresh.
    rewrite Hc. apply wrap64_succ.
  - intros Hc. unfold Cor.GetThis.
    destruct (Cor.t_cor w) as [q|] eqn:Ht.
    + destruct (Cor.deref w q); [|discriminate..]. by intros [= <- <-].
    + simpl. rewrite bool_decide_eq_true_2 by reflexivity. simpl.
      intros [= <- <-]. unfold count_live in *. simpl.
      rewrite insert_insert_eq.
      rewrite map_size_insert_None by apply new_addr_fresh.
      rewrite Hc. apply wrap64_succ.
  - intros Hc H. exact (same_ids_count_live _ _ (reset_same_ids _ _ _ _ H) Hc).
  - intros Hc H. exact (same_ids_count_live _ _ (resume_same_ids _ _ _ H) Hc).
  - intros Hc H. exact (same_ids_count_live _ _ (yield_same_ids _ _ _ H) Hc).
  - intros Hc. unfold Cor.destroy.
    destruct (Cor.dtor p w) as [[w1 fr]| |] eqn:Hd; [|discriminate..].
    simpl. intros [= <- <-].
    assert (Hw1 : ∃ c, Cor.heap w !! p = Some c
                       ∧ Cor.heap w1 = Cor.heap w
                       ∧ Cor.e_cor_count w1 = wrap64 (Cor.e_cor_count w - 1)).
    { unfold Cor.dtor, Cor.deref in Hd.
      destruct (Cor.heap w !! p) as [c|]; [|discriminate]. simpl in Hd.
      exists c. split; [done|].
      destruct (negb (bool_decide (Cor.m_stack c = 0))).
      - destruct (bool_decide (Cor.m_state c = Cor.TERM));
          simpl in Hd; [|discriminate].
        injection Hd as <- _. by split.
      - destruct (negb (nonnull (Cor.m_cb c))); simpl in Hd; [|discriminate].
        destruct (bool_decide (Cor.m_state c = Cor.RUNNING));
          simpl in Hd; [|discriminate].
        injection Hd as <- _. by destruct (bool_decide _). }
    destruct Hw1 as (c & Hp & Eh & Ec). unfold count_live in *. simpl.
    rewrite Ec, Eh, Hc.
    rewrite (map_size_delete_Some p (Cor.heap w)) by (by rewrite Hp).
    destruct (size (Cor.heap w)) as [|n] eqn:Hn.
    + apply map_size_empty_inv in Hn. rewrite Hn in Hp.
      by apply lookup_empty_Some in Hp.
    + apply wrap64_pred.
Qed.

Lemma fiber_count_is_live_objects_witness :
  count_live (Cor.new (Some (cb_user 1)) 0 4096 Cor.World0).2.
Proof.
  destruct (fiber_count_is_live_objects Cor.World0 Cor.World0 0%nat
              (Some (cb_user 1)) 0 4096 None) as (H0 & Hn & _).
  apply Hn. exact H0.
Defined.

(** ** The program of simple_cor_scheduler.cpp *)

Lemma count_live_new (f : option Callback) (stacksize stack : Z)
    (w : Cor.World) :
  count_live w → count_live (Cor.new f stacksize stack w).2.
Proof.
  intros Hc. unfold count_live in *. simpl.
  rewrite map_size_insert_None by apply new_addr_fresh.
  rewrite Hc. apply wrap64_succ.
Qed.

Lemma spawn_spec (n : nat) :
  ∀ (i : nat) (mallocs : nat → Z) (q : SimpleScheduler.t)
    (u : gmap addr nat) (w : Cor.World),
  (∀ j, mallocs j ≠ 0) →
  ∃ ps u' w',
    SimpleScheduler.spawn n i mallocs q u w = (q ++ (Some <$> ps), u', w')
    ∧ NoDup ps ∧ length ps = n
    ∧ (∀ p, p ∈ ps → Cor.heap w !! p = None)
    ∧ (∀ p, p ∉ ps → Cor.heap w' !! p = Cor.heap w !! p
                      ∧ Cor.use_count u' p = Cor.use_count u p)
    ∧ (∀ p, p ∈ ps →
            ∃ c f, Cor.heap w' !! p = Some c ∧ resumable c f
                   ∧ cur_held c = 0%nat ∧ Cor.m_stack c ≠ 0
                   ∧ Cor.use_count u' p = 1%nat)
    ∧ first_calls w' ps = cb_user <$> seq i n
    ∧ Cor.t_thread_cor w' = Cor.t_thread_cor w
    ∧ (count_live w → count_live w').
Proof.
  induction n as [|n IH]; intros i mallocs q u w Hmal.
  - exists [], u, w. simpl. rewrite app_nil_r. split_and!; try done.
    + constructor.
    + intros p Hp. by apply elem_of_nil in Hp.
    + intros p Hp. by apply elem_of_nil in Hp.
  - simpl.
    set (p := Cor.new_addr w).
    set (w1 := Cor.ctor p (Some (cb_user i)) 0 (mallocs O) w).
    destruct (IH (S i) (λ j, mallocs (S j))
                (SimpleScheduler.schedule (Some p) q)
                (<[p := 1%nat]> u) w1)
      as (ps & u' & w' & Hsp & Hnd & Hlen & Hfresh & Hfr & Hres & Hfc & Ht
          & Hcl).
    { intros j. apply Hmal. }
    assert (Hp1 : ∃ c, Cor.heap w1 !! p = Some c
                       ∧ resumable c (cb_user i)
                       ∧ (∃ sp sz, Cor.m_ctx c = Cor.uc_made sp sz)
                       ∧ Cor.m_stack c = mallocs O).
    { eexists. split; [subst w1; simpl; apply lookup_insert_eq|].
      split; [|split; [by eexists _, _ | reflexivity]].
      split; [reflexivity|]. split; [reflexivity|]. left. by eexists _, _. }
    destruct Hp1 as (c & Hc & Hrc & (sp & sz & Hctx) & Hstk).
    assert (Hpps : p ∉ ps).
    { intros Hin. specialize (Hfresh p Hin). congruence. }
    assert (Hother : ∀ r, r ≠ p → Cor.heap w1 !! r = Cor.heap w !! r).
    { intros r Hr. subst w1. simpl. by rewrite lookup_insert_ne. }
    exists (p :: ps), u', w'. rewrite Hsp. unfold SimpleScheduler.schedule.
    rewrite <- app_assoc. split; [reflexivity|]. split_and!.
    + by constructor.
    + simpl. by rewrite Hlen.
    + intros r Hr. apply elem_of_cons in Hr as [-> | Hr].
      * apply new_addr_fresh.
      * rewrite <- Hother; [by apply Hfresh|]. intros ->. contradiction.
    + intros r Hr. apply not_elem_of_cons in Hr as [Hr1 Hr2].
      destruct (Hfr r Hr2) as [Hh Hu]. rewrite Hh, Hu. split.
      * by apply Hother.
      * by apply use_count_insert_ne.
    + intros r Hr. apply elem_of_cons in Hr as [-> | Hr].
      * exists c, (cb_user i). destruct (Hfr p Hpps) as [Hh Hu].
        rewrite Hh, Hu. split; [exact Hc|]. split; [exact Hrc|].
        split; [unfold cur_held; by rewrite Hctx|].
        split; [rewrite Hstk; apply Hmal|]. apply use_count_insert.
      * by apply Hres.
    + unfold first_calls in *. simpl. rewrite Hfc.
      rewrite (proj1 (Hfr p Hpps)), Hc. destruct Hrc as (_ & Hcb & _).
      by rewrite Hctx, Hcb.
    + rewrite Ht. reflexivity.
    + intros Hw. apply Hcl.
      exact (count_live_new (Some (cb_user i)) 0 (mallocs O) w Hw).
Qed.

(** [GetThis()] on a thread that has no fiber yet, then [n] fibers built
    and scheduled, then [run()]. *)
Lemma simple_program (n : nat) (user : Callback → Scheduler.behaviour)
    (mallocs : nat → Z) (w : Cor.World) :
  Cor.t_cor w = None →
  (∀ i, mallocs i ≠ 0) →
  ∃ u0 w0 ps u1 w1 u' w',
    Cor.GetThis_held ∅ w = Ret (Cor.new_addr w, u0, w0)
    ∧ SimpleScheduler.spawn n 0 mallocs [] u0 w0 = (Some <$> ps, u1, w1)
    ∧ length ps = n ∧ NoDup ps
    ∧ SimpleScheduler.run user (Some <$> ps) u1 w1
      = Ret ([], u', w', cb_user <$> seq 0 n)
    ∧ (∀ p, p ∈ ps →
            Cor.heap w !! p = None
            ∧ ∃ c f, Cor.heap w1 !! p = Some c ∧ Cor.m_cb c = Some f
                     ∧ Cor.heap w' !! p
                       = match user f with
                         | Scheduler.returns => None
                         | Scheduler.yields => Some (suspended c)
                         end)
    ∧ (∀ q, q ∉ ps → q ≠ Cor.new_addr w →
            Cor.heap w' !! q = Cor.heap w !! q)
    ∧ Cor.heap w !! Cor.new_addr w = None
    ∧ Cor.m_state <$> Cor.heap w' !! Cor.new_addr w = Some Cor.RUNNING
    ∧ (count_live w → count_live w').
Proof.
  intros Ht Hmal.
  set (main := Cor.new_addr w).
  assert (HG : ∃ w0, Cor.GetThis w = Ret (main, w0)
                     ∧ Cor.t_thread_cor w0 = Some main
                     ∧ Cor.heap w0 !! main
                       = Some (main_fiber_with_id (Cor.e_cor_id w))
                     ∧ (∀ q, q ≠ main → Cor.heap w0 !! q = Cor.heap w !! q)
                     ∧ (count_live w → count_live w0)).
  { eexists. split; [|split; [|split; [|split]]].
    - unfold Cor.GetThis. rewrite Ht. simpl.
      rewrite bool_decide_eq_true_2 by reflexivity. reflexivity.
    - reflexivity.
    - simpl. apply lookup_insert_eq.
    - intros q Hq. simpl. by rewrite !lookup_insert_ne by done.
    - intros Hc. unfold count_live in *. simpl.
      rewrite insert_insert_eq.
      rewrite map_size_insert_None by apply new_addr_fresh.
      rewrite Hc. apply wrap64_succ. }
  destruct HG as (w0 & HG & Hth & Hm & Hfr0 & Hcl0).
  set (u0 := <[main := 1%nat]> (∅ : gmap addr nat)).
  destruct (spawn_spec n 0 mallocs [] u0 w0 Hmal)
    as (ps & u1 & w1 & Hsp & Hnd & Hlen & Hfresh & Hfr & Hres & Hfc & Ht1
        & Hcl1).
  assert (Hmps : main ∉ ps).
  { intros Hin. specialize (Hfresh main Hin). congruence. }
  destruct (simple_run_all user ps main u1 w1
              (main_fiber_with_id (Cor.e_cor_id w)) Hnd Hmps)
    as (u' & w' & Hrun & Hps & Hfr' & Hm' & _ & _ & Hcl' & _).
  { by rewrite Ht1. }
  { by rewrite (proj1 (Hfr main Hmps)). }
  { intros p Hp. destruct (Hres p Hp) as (c & f & Hc & Hr & Hcur & Hstk & Hu).
    exists c, f. split; [exact Hc|]. split; [exact Hr|].
    split; [lia | exact Hstk]. }
  exists u0, w0, ps, u1, w1, u', w'. split.
  { unfold Cor.GetThis_held. rewrite HG.
    change (Ret ?x ≫= ?k) with (k x). cbv beta iota. by rewrite Ht. }
  split; [exact Hsp|].
  split; [exact Hlen|]. split; [exact Hnd|].
  split; [by rewrite Hrun, Hfc|]. split.
  { intros p Hp. split.
    { rewrite <- Hfr0; [by apply Hfresh|]. intros ->. contradiction. }
    destruct (Hres p Hp) as (c & f & Hc & Hr & Hcur & Hstk & Hu).
    destruct Hr as (Hst & Hcb & Hctx).
    exists c, f. split; [exact Hc|]. split; [exact Hcb|].
    destruct (Hps p Hp c Hc) as [_ Hh]. rewrite Hh.
    unfold left_over, ran. rewrite Hcb, Hu, Hcur.
    by destruct (user f). }
  split.
  { intros q Hq Hqm. rewrite (proj1 (Hfr' q Hq Hqm)).
    rewrite (proj1 (Hfr q Hq)). by apply Hfr0. }
  split; [apply new_addr_fresh|].
  split; [exact Hm'|]. auto.
Qed.

(** X21.  The program of [main()], for any number [n] of fibers and
    functions that return or yield, [malloc] giving a block each time:
    after [GetThis()] has built the main fiber, the loop builds [n]
    fibers, one per function, at [n] new addresses and queues them in
    order; [run()] then empties the queue, invoking the [n] functions once
    each in the order 0, 1, ..., n-1.  The list held the only handle of
    each fiber, so every fiber whose function returned has been destroyed
    by then, and every one that yielded is left suspended, held by its
    own [MainFunc]; the main fiber is RUNNING.  For the [main()] of the
    source, [n] is 10 and every function returns: the ten functions are
    called in order, the ten fibers are gone again, and the main fiber is
    the one object added to what was there. *)
Theorem simple_main_runs_in_order (n : nat)
    (user : Callback → Scheduler.behaviour)
    (mallocs : nat → Z) (w : Cor.World) :
  Cor.t_cor w = None →
  (∀ i, mallocs i ≠ 0) →
  (∃ main u0 w0 ps u1 w1 u' w',
     Cor.GetThis_held ∅ w = Ret (main, u0, w0)
     ∧ SimpleScheduler.spawn n 0 mallocs [] u0 w0 = (Some <$> ps, u1, w1)
     ∧ length ps = n ∧ NoDup ps
     ∧ SimpleScheduler.run user (Some <$> ps) u1 w1
       = Ret ([], u', w', cb_user <$> seq 0 n)
     ∧ (∀ p, p ∈ ps →
             Cor.heap w !! p = None
             ∧ ∃ c f, Cor.heap w1 !! p = Some c ∧ Cor.m_cb c = Some f
                      ∧ Cor.heap w' !! p
                        = match user f with
                          | Scheduler.returns => None
                          | Scheduler.yields => Some (suspended c)
                          end)
     ∧ Cor.heap w !! main = None
     ∧ Cor.m_state <$> Cor.heap w' !! main = Some Cor.RUNNING)
  ∧ ∃ u' w',
      SimpleScheduler.main mallocs w
      = Ret ([], u', w', cb_user <$> seq 0 10)
      ∧ (∀ p, p ≠ Cor.new_addr w → Cor.heap w' !! p = Cor.heap w !! p)
      ∧ Cor.m_state <$> Cor.heap w' !! Cor.new_addr w = Some Cor.RUNNING
      ∧ (count_live w → count_live w').
Proof.
  intros Ht Hmal. split.
  - destruct (simple_program n user mallocs w Ht Hmal)
      as (u0 & w0 & ps & u1 & w1 & u' & w' & HG & Hsp & Hlen & Hnd & Hrun
          & Hps & _ & Hm & Hst & _).
    by exists (Cor.new_addr w), u0, w0, ps, u1, w1, u', w'.
  - destruct (simple_program 10 (λ _, Scheduler.returns) mallocs w Ht Hmal)
      as (u0 & w0 & ps & u1 & w1 & u' & w' & HG & Hsp & Hlen & Hnd & Hrun
          & Hps & Hfr & Hm & Hst & Hcl).
    exists u', w'. split.
    { unfold SimpleScheduler.main. rewrite HG.
      unfold mbind, outcome_bind. cbv beta iota. rewrite Hsp.
      exact Hrun. }
    split; [|by split].
    intros p Hp. destruct (decide (p ∈ ps)) as [Hin | Hnin].
    + destruct (Hps p Hin) as (Hnone & c & f & _ & _ & Hh).
      by rewrite Hh, Hnone.
    + by apply Hfr.
Qed.

Lemma simple_main_runs_in_order_witness :
  ∃ u' w',
    SimpleScheduler.main malloc_fresh Cor.World0
    = Ret ([], u', w',
           [cb_user 0; cb_user 1; cb_user 2; cb_user 3; cb_user 4;
            cb_user 5; cb_user 6; cb_user 7; cb_user 8; cb_user 9])
    ∧ (∀ p, p ≠ Cor.new_addr Cor.World0 →
            Cor.heap w' !! p = Cor.heap Cor.World0 !! p)
    ∧ Cor.m_state <$> Cor.heap w' !! Cor.new_addr Cor.World0
      = Some Cor.RUNNING
    ∧ (count_live Cor.World0 → count_live w').
Proof.
  apply (simple_main_runs_in_order 10 user_returns malloc_fresh Cor.World0).
  - reflexivity.
  - intros i. unfold malloc_fresh. lia.
Defined.

(** ** Entering the dispatch loop *)

(** X22.  [run()] on a thread that is not the caller's and has no fiber
    yet: before the loop it makes the scheduler the thread's current one
    and builds two fibers at two new addresses, the thread's main fiber
    and, with the next id, the idle fiber, READY and bound to [idle];
    [cb_cor] is empty; the thread holds the main fiber and [idle_cor] the
    idle fiber, by one handle each.  In its first pass, with nothing in the queue for
    this thread, it resumes the idle fiber, which yields back at once when
    the scheduler is not stopping and runs to its end when it is; the
    scheduler is as before, and [tickle()] is called exactly when the
    queue is not empty. *)
Theorem worker_enters_run (user : Callback → Scheduler.behaviour)
    (this : addr) (tid : Z) (stack stack' : Z) (s : Scheduler.t)
    (u : gmap addr nat) (w : Cor.World) :
  Cor.t_cor w = None →
  tid ≠ Scheduler.m_rootThread s →
  Forall (λ y, eligible tid y = false) (Scheduler.m_tasks s) →
  0 ≤ Scheduler.m_idleThreadCount s < 2 ^ 64 →
  ∃ main idle ci u0 w0 u1 w1,
    Scheduler.run_enter this tid stack s u w
    = Ret ({| Scheduler.idle_cor := idle; Scheduler.cb_cor := None |},
           Some this, u0, w0)
    ∧ main ≠ idle
    ∧ Cor.use_count u0 main = 1%nat ∧ Cor.use_count u0 idle = 1%nat
    ∧ Cor.heap w !! main = None ∧ Cor.heap w !! idle = None
    ∧ Cor.t_cor w0 = Some main ∧ Cor.t_thread_cor w0 = Some main
    ∧ Cor.heap w0 !! main = Some (main_fiber_with_id (Cor.e_cor_id w))
    ∧ Cor.heap w0 !! idle = Some ci
    ∧ Cor.m_id ci = wrap64 (Cor.e_cor_id w + 1)
    ∧ Cor.m_stack ci = stack
    ∧ resumable ci (cb_idle this)
    ∧ Scheduler.run_iteration user stack' this tid
        (s, {| Scheduler.idle_cor := idle; Scheduler.cb_cor := None |},
         u0, w0)
      = Ret (Scheduler.continue,
             (s, {| Scheduler.idle_cor := idle; Scheduler.cb_cor := None |},
              u1, w1),
             if bool_decide (Scheduler.m_tasks s = [])
             then [] else [Scheduler.act_tickle])
    ∧ Cor.heap w1 !! idle
      = Some (if Scheduler.stopping s then finished ci else suspended ci)
    ∧ Cor.t_cor w1 = Some main.
Proof.
  intros Ht Htid Hq Hi.
  set (main := Cor.new_addr w).
  assert (HG : ∃ w', Cor.GetThis w = Ret (main, w')
                     ∧ Cor.t_cor w' = Some main
                     ∧ Cor.t_thread_cor w' = Some main
                     ∧ Cor.e_cor_id w' = wrap64 (Cor.e_cor_id w + 1)
                     ∧ Cor.heap w'
                       = <[main := main_fiber_with_id (Cor.e_cor_id w)]>
                           (Cor.heap w)).
  { eexists. split; [|split_and!].
    - unfold Cor.GetThis. rewrite Ht. simpl.
      rewrite bool_decide_eq_true_2 by reflexivity. reflexivity.
    - reflexivity.
    - reflexivity.
    - reflexivity.
    - simpl. apply insert_insert_eq. }
  destruct HG as (w' & HG & Htc & Hth & Hid & Hheap).
  set (idle := Cor.new_addr w').
  set (w0 := Cor.ctor idle (Some (cb_idle this)) 0 stack w').
  assert (Hfi : Cor.heap w' !! idle = None) by apply new_addr_fresh.
  assert (Hne : main ≠ idle).
  { intros E. rewrite <- E, Hheap, lookup_insert_eq in Hfi. discriminate. }
  assert (Hci : ∃ ci, Cor.heap w0 !! idle = Some ci
                      ∧ Cor.m_id ci = Cor.e_cor_id w'
                      ∧ Cor.m_stack ci = stack
                      ∧ resumable ci (cb_idle this)).
  { eexists. split; [subst w0; simpl; apply lookup_insert_eq|].
    split; [reflexivity|]. split; [reflexivity|].
    split; [reflexivity|]. split; [reflexivity|]. left. by eexists _, _. }
  destruct Hci as (ci & Hci & Hcid & Hcs & Hres).
  assert (Hm0 : Cor.heap w0 !! main
                = Some (main_fiber_with_id (Cor.e_cor_id w))).
  { subst w0. simpl. rewrite lookup_insert_ne by done.
    rewrite Hheap. apply lookup_insert_eq. }
  eexists main, idle, ci, (<[idle := 1%nat]> (<[main := 1%nat]> u)), w0, _, _.
  split.
  { unfold Scheduler.run_enter, Cor.GetThis_held.
    rewrite (bool_decide_eq_false_2 _ Htid). simpl. rewrite HG. simpl.
    rewrite Ht. reflexivity. }
  split; [exact Hne|].
  split; [rewrite use_count_insert_ne by done; apply use_count_insert|].
  split; [apply use_count_insert|].
  split; [apply new_addr_fresh|]. split.
  { rewrite Hheap in Hfi. by apply lookup_insert_None in Hfi as [? _]. }
  split; [exact Htc|]. split; [exact Hth|]. split; [exact Hm0|].
  split; [exact Hci|]. split; [by rewrite Hcid|]. split; [exact Hcs|].
  split; [exact Hres|]. split.
  { apply (run_iteration_idle user stack' this tid s
             {| Scheduler.idle_cor := idle; Scheduler.cb_cor := None |}
             (<[idle := 1%nat]> (<[main := 1%nat]> u))
             w0 main (main_fiber_with_id (Cor.e_cor_id w)) ci);
      try done.
    simpl. rewrite use_count_insert. unfold cur_held.
    destruct Hres as (_ & _ & [(sp & sz & ->) | Hx]); [lia|].
    subst w0. simpl in Hci. rewrite lookup_insert_eq in Hci.
    injection Hci as <-. discriminate Hx. }
  split; [simpl; apply lookup_insert_eq | reflexivity].
Qed.

Lemma worker_enters_run_witness :
  ∃ ci u0 w0 u1 w1,
    Scheduler.run_enter 100%nat 7 4096 (sched_with [task_for_8]) ∅
      Cor.World0
    = Ret (locals_dispatch, Some 100%nat, u0, w0)
    ∧ Cor.heap w0 !! 1%nat = Some ci
    ∧ Scheduler.run_iteration user_returns 8192 100%nat 7
        (sched_with [task_for_8], locals_dispatch, u0, w0)
      = Ret (Scheduler.continue,
             (sched_with [task_for_8], locals_dispatch, u1, w1),
             [Scheduler.act_tickle])
    ∧ Cor.heap w1 !! 1%nat = Some (suspended ci).
Proof.
  destruct (worker_enters_run user_returns 100%nat 7 4096 8192
              (sched_with [task_for_8]) ∅ Cor.World0)
    as (main & idle & ci & u0 & w0 & u1 & w1 & H1 & _ & _ & _ & _ & _ & _ & _
        & _ & H8 & _ & _ & _ & H12 & H13 & _).
  - reflexivity.
  - discriminate.
  - repeat constructor.
  - simpl. lia.
  - assert (E : Scheduler.run_enter 100%nat 7 4096 (sched_with [task_for_8])
                  ∅ Cor.World0
                ≫= (λ r, mret (Scheduler.idle_cor r.1.1.1)) = Ret 1%nat)
      by reflexivity.
    rewrite H1 in E. simpl in E. injection E as ->.
    exists ci, u0, w0, u1, w1. split; [exact H1|]. split; [exact H8|].
    split; [exact H12 | exact H13].
Defined.
